(** * RailRepay shared libraries: a shallow embedding and its properties

    The repository packages six thin wrappers (Kafka consumer, Postgres
    client, Redis cache, Winston logger factory, Prometheus metrics pusher,
    OpenAPI validator middleware).  This development embeds the parts of the
    TypeScript sources that carry behaviour of their own and proves the
    properties the specification states about them, and further properties
    that the sources show.

    Conventions of the embedding:
    - a JavaScript string is a [string]; each [ascii] stands for one code
      unit in the range U+0000..U+00FF (code units above U+00FF are outside
      the model);
    - a JavaScript number is a [jsnum]: [NaN], a signed infinity, or an exact
      rational (the rounding to an IEEE double is not modelled);
    - a plain object used as a dictionary is a [gmap string _];
    - a configuration interface is a record of optional fields, [None] for
      a property that is [undefined]; a property that is there has the
      type its interface declares, and a number among them is an integer;
    - a value of type [any] is a [JS.value]: a primitive, an array or a
      plain object of data properties;
    - [process.env] is a [gmap string string];
    - calls into client libraries and loggers are recorded as events of a
      trace, and an operation that can throw returns a [completion]. *)

From Stdlib Require Import ZArith QArith Ascii String List Bool Lia.
From stdpp Require Import base strings gmap list.

Open Scope string_scope.
Open Scope list_scope.

(** ** JavaScript primitives used by the sources *)

Module JS.

(** *** Characters and strings *)

Definition code (c : ascii) : nat := nat_of_ascii c.

Definition in_range (lo hi : nat) (c : ascii) : bool :=
  Nat.leb lo (code c) && Nat.leb (code c) hi.

(** [\d] *)
Definition is_digit (c : ascii) : bool := in_range 48 57 c.

Definition is_upper (c : ascii) : bool := in_range 65 90 c.
Definition is_lower (c : ascii) : bool := in_range 97 122 c.

(** [\s], which is also the set [String.prototype.trim] strips: TAB, LF,
    VT, FF, CR, SPACE and NBSP (the members below U+0100). *)
Definition is_space (c : ascii) : bool :=
  in_range 9 13 c || Nat.eqb (code c) 32 || Nat.eqb (code c) 160.

Definition nl : string := String (ascii_of_nat 10) "".

(** [s.split('\n')] *)
Fixpoint split_lines (s : string) : list string :=
  match s with
  | EmptyString => [""]
  | String c s' =>
      if Nat.eqb (code c) 10 then "" :: split_lines s'
      else match split_lines s' with
           | l :: ls => String c l :: ls
           | [] => [String c ""]
           end
  end.

(** [s.startsWith(p)] *)
Fixpoint startsWith (p s : string) : bool :=
  match p, s with
  | EmptyString, _ => true
  | String a p', String b s' => Ascii.eqb a b && startsWith p' s'
  | String _ _, EmptyString => false
  end.

Fixpoint trimStart (s : string) : string :=
  match s with
  | String c s' => if is_space c then trimStart s' else s
  | EmptyString => ""
  end.

(** Drops the trailing white space: a character is kept when it is not
    white space or when something is kept after it. *)
Fixpoint trimEnd (s : string) : string :=
  match s with
  | EmptyString => ""
  | String c s' =>
      match trimEnd s' with
      | EmptyString => if is_space c then "" else String c ""
      | t => String c t
      end
  end.

(** [s.trim()] *)
Definition trim (s : string) : string := trimEnd (trimStart s).

(** Truthiness of a string: every string but the empty one. *)
Definition truthy_str (s : string) : bool :=
  match s with EmptyString => false | _ => true end.

Fixpoint all_chars (p : ascii -> bool) (s : string) : bool :=
  match s with
  | EmptyString => true
  | String c s' => p c && all_chars p s'
  end.

(** The longest prefix of [s] in the class [p], and what follows it. *)
Fixpoint span (p : ascii -> bool) (s : string) : string * string :=
  match s with
  | String c s' =>
      if p c then let '(a, b) := span p s' in (String c a, b) else ("", s)
  | EmptyString => ("", "")
  end.

Fixpoint str_take (n : nat) (s : string) : string :=
  match n, s with
  | S n', String c s' => String c (str_take n' s')
  | _, _ => ""
  end.

(** *** Numbers *)

Inductive jsnum : Type :=
| NaN
| Inf (negative : bool)
| Fin (q : Q).

Definition isNaN (x : jsnum) : bool :=
  match x with NaN => true | _ => false end.

Definition digit_val (c : ascii) : N := N.of_nat (code c - 48).

(** The value of a run of decimal digits, most significant first. *)
Definition digits_val (s : string) : N :=
  fold_left (fun acc c => (10 * acc + digit_val c)%N) (list_ascii_of_string s) 0%N.

(** [mant * 10 ^ e] as a reduced fraction. *)
Definition scale10 (mant : N) (e : Z) : Q :=
  Qred (if (0 <=? e)%Z
        then Qmake (Z.of_N mant * 10 ^ e) 1
        else Qmake (Z.of_N mant) (Z.to_pos (10 ^ (- e)))).

Definition take_sign (s : string) : bool * string :=
  match s with
  | String "-" s' => (true, s')
  | String "+" s' => (false, s')
  | _ => (false, s)
  end.

(** The [ExponentPart] of a decimal literal, when one is there: [e] or
    [E], an optional sign and at least one digit. *)
Definition exponent_part (s : string) : Z :=
  match s with
  | String c s' =>
      if Ascii.eqb c "e" || Ascii.eqb c "E" then
        let '(neg, s1) := take_sign s' in
        let '(ds, _) := span is_digit s1 in
        match ds with
        | EmptyString => 0%Z
        | _ => if neg then (- Z.of_N (digits_val ds))%Z else Z.of_N (digits_val ds)
        end
      else 0%Z
  | EmptyString => 0%Z
  end.

(** [parseFloat(s)]: leading white space is skipped and the longest prefix
    that is a [StrDecimalLiteral] is read; [NaN] when there is none. *)
Definition parseFloat (s : string) : jsnum :=
  let '(neg, s1) := take_sign (trimStart s) in
  if startsWith "Infinity" s1 then Inf neg
  else
    let '(intd, r1) := span is_digit s1 in
    let '(fracd, r2) :=
      match r1 with
      | String "." r => span is_digit r
      | _ => ("", r1)
      end in
    match intd +:+ fracd with
    | EmptyString => NaN
    | ds =>
        let q := scale10 (digits_val ds)
                   (exponent_part r2 - Z.of_nat (String.length fracd)) in
        Fin (if neg then Qred (Qopp q) else q)
    end.

(** [parseInt(s, 10)] on the strings the sources pass to it; [None] is
    [NaN]. *)
Definition parseInt10 (s : string) : option Z :=
  let '(neg, s1) := take_sign (trimStart s) in
  let '(ds, _) := span is_digit s1 in
  match ds with
  | EmptyString => None
  | _ => Some (if neg then (- Z.of_N (digits_val ds))%Z else Z.of_N (digits_val ds))
  end.

(** *** Plain objects used as dictionaries

    [obj[key] = value] on an object created by [{}], for a primitive
    [value].  Every key creates or overwrites an own property, except
    ["__proto__"]: that name resolves to the accessor inherited from
    [Object.prototype], whose setter ignores a value that is neither an
    object nor [null], so the assignment leaves the object as it was. *)
Definition obj_set {V} (obj : gmap string V) (key : string) (value : V)
  : gmap string V :=
  if decide (key = "__proto__") then obj else <[key := value]> obj.

(** [Object.keys(obj).length] *)
Definition keys_length {V} (obj : gmap string V) : nat := size obj.

(** *** Values of type [any]

    A value as a function whose parameter is [any] can meet it: a
    primitive, an array, or a plain object with its data properties in the
    order they were written.  Functions, accessors, sparse arrays and
    objects with a prototype of their own are outside the model. *)
#[warnings="-register-all"]
Inductive value : Type :=
| VUndefined
| VNull
| VBool (b : bool)
| VNum (n : jsnum)
| VStr (s : string)
| VArr (items : list value)
| VObj (properties : list (string * value)).

(** Truthiness of a number: every number but [NaN] and the two zeros. *)
Definition truthy_num (n : jsnum) : bool :=
  match n with
  | NaN => false
  | Inf _ => true
  | Fin q => negb (Z.eqb (Qnum q) 0)
  end.

Definition truthy_value (v : value) : bool :=
  match v with
  | VUndefined | VNull => false
  | VBool b => b
  | VNum n => truthy_num n
  | VStr s => truthy_str s
  | VArr _ | VObj _ => true
  end.

(** The value of the data property [key] among [properties]: the one
    written last, when the key was written more than once. *)
Fixpoint own (properties : list (string * value)) (key : string) : option value :=
  match properties with
  | [] => None
  | (k, v) :: rest =>
      match own rest key with
      | Some w => Some w
      | None => if String.eqb k key then Some v else None
      end
  end.

(** [v.key] for a [v] that is neither [undefined] nor [null] and a [key]
    that no primitive and no array has of its own or from its prototype
    (the sources read [status], [errors], [message], [path] and
    [errorCode]): the data property of a plain object, [undefined] for
    everything else. *)
Definition field (v : value) (key : string) : value :=
  match v with
  | VObj properties => default VUndefined (own properties key)
  | _ => VUndefined
  end.

End JS.

(** ** Truthiness, defaults, exceptions and traces *)

Module Effects.

(** Truthiness of the values configuration fields hold.  A field that is
    absent ([undefined]) is [None]. *)
Class Truthy (A : Type) := truthy : A -> bool.

#[export] Instance truthy_string : Truthy string := JS.truthy_str.
#[export] Instance truthy_Z : Truthy Z := fun z => negb (Z.eqb z 0).
#[export] Instance truthy_bool : Truthy bool := fun b => b.
(** Arrays and objects are truthy whatever they hold. *)
#[export] Instance truthy_list {A} : Truthy (list A) := fun _ => true.
#[export] Instance truthy_option {A} `{Truthy A} : Truthy (option A) :=
  fun o => match o with Some a => truthy a | None => false end.
#[export] Instance truthy_any : Truthy JS.value := JS.truthy_value.

(** [a || b] where [b] cannot be [undefined]. *)
Definition or_else {A} `{Truthy A} (a : option A) (b : A) : A :=
  match a with
  | Some x => if truthy x then x else b
  | None => b
  end.

(** [a || b] where both sides may be [undefined]; a falsy right-hand side is
    kept as it is. *)
Definition or_opt {A} `{Truthy A} (a b : option A) : option A :=
  if truthy a then a else b.

(** [a ?? b] *)
Definition nullish {A} (a : option A) (b : A) : A := default b a.

(** [a !== false] *)
Definition not_false (a : option bool) : bool :=
  match a with Some false => false | _ => true end.

(** [process.env] *)
Definition Env : Type := gmap string string.

(** What a [catch] clause binds: an [Error] with its message, or a value
    that is not an [Error]. *)
Inductive thrown : Type :=
| ErrorObj (message : string)
| NonError.

(** [error instanceof Error ? error.message : 'Unknown error'] *)
Definition error_message (e : thrown) : string :=
  match e with
  | ErrorObj m => m
  | NonError => "Unknown error"
  end.

(** How a call ends.  For an [async] function [Throw] is a rejected
    promise, and within one call [await] is sequencing; where a property
    depends on what other calls do while a call is suspended, the call is
    split at its [await] (see [MetricsPusher.start_until_await]). *)
Inductive completion (A : Type) : Type :=
| Return (a : A)
| Throw (e : thrown).
Arguments Return {A} a.
Arguments Throw {A} e.

Definition returned {A} (c : completion A) : bool :=
  match c with Return _ => true | Throw _ => false end.




Inductive level : Type := Info | Error | Warn | Debug.

(** The logger a component writes to: the console fallback of the module
    or the logger injected through the configuration.  An injected logger
    is taken to return normally. *)
Inductive LoggerRef : Type :=
| ConsoleLogger
| Injected (id : nat).

(** [config.logger || consoleLogger] *)
Definition logger_or_console (l : option nat) : LoggerRef :=
  match l with Some i => Injected i | None => ConsoleLogger end.

(** One log call.  Of the metadata bag the model keeps the texts that the
    call fixes: the component, the message of an error, a URL, a topic, the
    prefix of a statement and the like.  Numbers, counts, durations, the
    formatted push interval and stack traces are left out. *)
Record LogEntry : Type := mkLog {
  log_to : LoggerRef;
  log_level : level;
  log_message : string;
  log_meta : list (string * string)
}.

(** A computation over a state [S] that emits events [E] and may throw. *)
Definition M (S E A : Type) : Type := S -> (S * list E) * completion A.

Section Monad.
Context {S E : Type}.

Definition ret {A} (a : A) : M S E A := fun s => ((s, []), Return a).

Definition bind {A B} (m : M S E A) (f : A -> M S E B) : M S E B :=
  fun s =>
    match m s with
    | ((s1, t1), Return a) =>
        let '((s2, t2), r) := f a s1 in ((s2, t1 ++ t2), r)
    | ((s1, t1), Throw e) => ((s1, t1), Throw e)
    end.

Definition emit (e : E) : M S E unit := fun s => ((s, [e]), Return tt).

Definition throw {A} (e : thrown) : M S E A := fun s => ((s, []), Throw e).

Definition get : M S E S := fun s => ((s, []), Return s).

Definition put (s' : S) : M S E unit := fun _ => ((s', []), Return tt).

(** [await p] for a promise whose outcome the environment decides. *)
Definition settle {A} (c : completion A) : M S E A := fun s => ((s, []), c).

(** [try { m } catch (e) { h e }] *)
Definition try_catch {A} (m : M S E A) (h : thrown -> M S E A) : M S E A :=
  fun s =>
    match m s with
    | ((s1, t1), Throw e) =>
        let '((s2, t2), r) := h e s1 in ((s2, t1 ++ t2), r)
    | r => r
    end.

(** A call whose rejection the caller catches and drops. *)
Definition attempt {A} (m : M S E A) : M S E unit :=
  try_catch (bind m (fun _ => ret tt)) (fun _ => ret tt).

End Monad.

#[export] Instance M_ret {S E} : MRet (M S E) := fun _ a => ret a.
#[export] Instance M_bind {S E} : MBind (M S E) := fun _ _ f m => bind m f.

Definition trace_of {S E A} (r : (S * list E) * completion A) : list E := snd (fst r).
Definition state_of {S E A} (r : (S * list E) * completion A) : S := fst (fst r).
Definition result_of {S E A} (r : (S * list E) * completion A) : completion A := snd r.

End Effects.

(** ** A backtracking matcher for the regular expressions of the sources

    The fragment covers what the two patterns of the metrics pusher use:
    anchors, character classes, greedy repetition of a class, sequencing, a
    greedy optional part and numbered capturing groups.  Matching follows
    the backtracking order of ECMAScript: a greedy repetition tries the
    longest run first and gives characters back one at a time, an optional
    part is tried before it is skipped, and the search moves the start
    position from left to right. *)

Module Regex.
Import JS.

Inductive re : Type :=
| Bol
| Eoi
| Cls (p : ascii -> bool)
| Star (p : ascii -> bool)
| Seq (r1 r2 : re)
| Opt (r : re)
| Grp (i : nat) (r : re).

(** [p+] *)
Definition Plus (p : ascii -> bool) : re := Seq (Cls p) (Star p).

(** A continuation: what is still to be matched, given the position, the
    rest of the input and the captures so far.  The captures are what a
    match array holds: entry 0 is the whole match, entry [i] the text of
    group [i]. *)
Definition cont : Type := nat -> string -> gmap nat string -> option (gmap nat string).

Fixpoint star_loop (p : ascii -> bool) (k : cont) (pos : nat) (s : string)
    (c : gmap nat string) : option (gmap nat string) :=
  match s with
  | String a s' =>
      if p a then
        match star_loop p k (S pos) s' c with
        | Some r => Some r
        | None => k pos s c
        end
      else k pos s c
  | EmptyString => k pos s c
  end.

(** [rmatch r pos s c k]: match [r] against [s], the input from index
    [pos] on, then hand the rest to [k]; [None] asks the caller to
    backtrack. *)
Fixpoint rmatch (r : re) (pos : nat) (s : string) (c : gmap nat string)
    (k : cont) : option (gmap nat string) :=
  match r with
  | Bol => if Nat.eqb pos 0 then k pos s c else None
  | Eoi => match s with EmptyString => k pos s c | String _ _ => None end
  | Cls p =>
      match s with
      | String a s' => if p a then k (S pos) s' c else None
      | EmptyString => None
      end
  | Star p => star_loop p k pos s c
  | Seq r1 r2 => rmatch r1 pos s c (fun pos1 s1 c1 => rmatch r2 pos1 s1 c1 k)
  | Opt r1 =>
      match rmatch r1 pos s c k with
      | Some x => Some x
      | None => k pos s c
      end
  | Grp i r1 =>
      rmatch r1 pos s c
        (fun pos1 s1 c1 => k pos1 s1 (<[i := str_take (pos1 - pos) s]> c1))
  end.

Fixpoint search (r : re) (pos : nat) (s : string) : option (gmap nat string) :=
  match rmatch r pos s ∅ (fun _ _ c => Some c) with
  | Some c => Some c
  | None =>
      match s with
      | String _ s' => search r (S pos) s'
      | EmptyString => None
      end
  end.

(** [s.match(r)] for a pattern without the [g] flag: [None] is [null]. *)
Definition str_match (s : string) (r : re) : option (gmap nat string) :=
  search (Grp 0 r) 0 s.

(** [m[i]] on a match array, for a group that took part in the match. *)
Definition group (m : gmap nat string) (i : nat) : string := default "" (m !! i).

End Regex.

(** ** Metrics pusher (packages/metrics-pusher/src/pusher.ts) *)

Module MetricsPusher.
Import JS Regex Effects.

(** [[a-zA-Z_:]] *)
Definition name_start (c : ascii) : bool :=
  is_lower c || is_upper c || Ascii.eqb c "_" || Ascii.eqb c ":".

(** [[a-zA-Z0-9_:]] *)
Definition name_char (c : ascii) : bool :=
  is_lower c || is_upper c || is_digit c || Ascii.eqb c "_" || Ascii.eqb c ":".

(** [[0-9.eE+-]] *)
Definition value_char (c : ascii) : bool :=
  is_digit c || Ascii.eqb c "." || Ascii.eqb c "e" || Ascii.eqb c "E"
  || Ascii.eqb c "+" || Ascii.eqb c "-".

(** The pattern of [nameMatch], spaced out:
    [^ ( [a-zA-Z_:] [a-zA-Z0-9_:]* )] *)
Definition name_re : re :=
  Seq Bol (Grp 1 (Seq (Cls name_start) (Star name_char))).

(** The pattern of [valueMatch], spaced out:
    [\s+ ( [0-9.eE+-]+ ) (?: \s+ \d+ )? $] *)
Definition value_re : re :=
  Seq (Plus is_space)
    (Seq (Grp 1 (Plus value_char))
       (Seq (Opt (Seq (Plus is_space) (Plus is_digit))) Eoi)).

(** The body of the [for] loop of [parsePrometheusMetrics]: one line
    against the object built so far. *)
Definition parse_line (metrics : gmap string jsnum) (line : string)
  : gmap string jsnum :=
  if startsWith "#" line || negb (truthy_str (trim line)) then metrics
  else
    match str_match line name_re, str_match line value_re with
    | Some nameMatch, Some valueMatch =>
        let metricName := group nameMatch 1 in
        let numericValue := parseFloat (group valueMatch 1) in
        if negb (isNaN numericValue)
        then obj_set metrics metricName numericValue
        else metrics
    | _, _ => metrics
    end.

Definition parsePrometheusMetrics (metricsString : string) : gmap string jsnum :=
  foldl parse_line ∅ (split_lines metricsString).


(** *** Configuration, instance and the runtime around it *)

Module Config.
(** [MetricsConfig]; [serviceName] is required by its type, yet an object
    cast to the type may lack it, so it is optional here too. *)
Record t : Type := mk {
  serviceName : option string;
  alloyUrl : option string;
  pushInterval : option Z;
  environment : option string;
  logger : option nat
}.
End Config.

Record MetricsPusher : Type := mkPusher {
  intervalId : option nat;
  pushIntervalMs : Z;
  alloyUrl : string;
  serviceName : string;
  environment : string;
  isRunning : bool;
  logger : LoggerRef
}.

(** Calls that leave the class: the logger, [registry.metrics()] and the
    remote-write [pushMetrics] of prometheus-remote-write. *)
Inductive event : Type :=
| ELog (entry : LogEntry)
| ERegistryMetrics
| ERemoteWrite (metrics : gmap string jsnum) (url : string)
    (labels : list (string * string)).

(** The instance together with the interval timers of the runtime: each
    active timer with its period in milliseconds. *)
Record Sys : Type := mkSys {
  this : MetricsPusher;
  timers : gmap nat Z;
  next_timer : nat
}.

(** What the environment answers during one push: the text (or rejection)
    of [registry.metrics()] and the outcome of the remote write. *)
Record PushEnv : Type := mkPushEnv {
  registry : completion string;
  remote : completion unit
}.

Definition new (config : Config.t) (env : Env) : completion MetricsPusher :=
  match Config.serviceName config with
  | Some name =>
      if truthy name then
        Return {| intervalId := None;
                  pushIntervalMs := (nullish (Config.pushInterval config) 15 * 1000)%Z;
                  alloyUrl := or_else (Config.alloyUrl config)
                                (or_else (env !! "ALLOY_PUSH_URL") "");
                  serviceName := name;
                  environment := or_else (Config.environment config)
                                   (or_else (env !! "NODE_ENV") "development");
                  isRunning := false;
                  logger := logger_or_console (Config.logger config) |}
      else Throw (ErrorObj "MetricsConfig.serviceName is required")
  | None => Throw (ErrorObj "MetricsConfig.serviceName is required")
  end.

Definition component (p : MetricsPusher) : string * string :=
  ("component", serviceName p +:+ "/MetricsPusher").

Definition log (lvl : level) (msg : string) (meta : list (string * string))
  : M Sys event unit :=
  s ← get; emit (ELog (mkLog (logger (this s)) lvl msg meta)).

Definition update (f : MetricsPusher -> MetricsPusher) : M Sys event unit :=
  s ← get; put (mkSys (f (this s)) (timers s) (next_timer s)).

Definition set_isRunning (b : bool) (p : MetricsPusher) : MetricsPusher :=
  mkPusher (intervalId p) (pushIntervalMs p) (alloyUrl p) (serviceName p)
    (environment p) b (logger p).

Definition set_intervalId (i : option nat) (p : MetricsPusher) : MetricsPusher :=
  mkPusher i (pushIntervalMs p) (alloyUrl p) (serviceName p)
    (environment p) (isRunning p) (logger p).

(** [setInterval(callback, ms)]: a fresh handle, now active. *)
Definition setInterval (ms : Z) : M Sys event nat :=
  fun s =>
    let id := next_timer s in
    ((mkSys (this s) (<[id := ms]> (timers s)) (S id), []), Return id).

(** [clearInterval(id)] *)
Definition clearInterval (id : nat) : M Sys event unit :=
  fun s => ((mkSys (this s) (delete id (timers s)) (next_timer s), []), Return tt).

Definition pushMetrics (w : PushEnv) : M Sys event unit :=
  s ← get;
  let p := this s in
  if negb (truthy (alloyUrl p)) then mret tt
  else
    try_catch
      (_ ← emit ERegistryMetrics;
       metricsString ← settle (registry w);
       let metrics := parsePrometheusMetrics metricsString in
       if Nat.eqb (keys_length metrics) 0 then
         log Warn "No metrics to push" [component p]
       else
         _ ← emit (ERemoteWrite metrics (alloyUrl p)
                     [("service", serviceName p); ("environment", environment p)]);
         _ ← settle (remote w);
         log Debug "Pushed metrics successfully" [component p])
      (fun error =>
         log Error "Failed to push metrics"
           [component p; ("error", error_message error)]).

Definition start (w : PushEnv) : M Sys event unit :=
  s ← get;
  let p := this s in
  if isRunning p then
    log Warn "Metrics pusher already running" [component p]
  else if negb (truthy (alloyUrl p)) then
    log Warn "Alloy URL not configured - metrics push disabled" [component p]
  else
    _ ← log Info "Starting metrics pusher" [component p; ("url", alloyUrl p)];
    _ ← update (set_isRunning true);
    _ ← pushMetrics w;
    id ← setInterval (pushIntervalMs p);
    _ ← update (set_intervalId (Some id));
    log Info "Metrics pusher started successfully" [component p].

(** [start()] is suspended at [await this.pushMetrics()] until the push has
    settled, and other calls can run in between.  These are the part of
    [start] before the push, which tells whether the push and the rest
    follow, and the part after it. *)
Definition start_until_await : M Sys event bool :=
  s ← get;
  let p := this s in
  if isRunning p then
    _ ← log Warn "Metrics pusher already running" [component p];
    mret false
  else if negb (truthy (alloyUrl p)) then
    _ ← log Warn "Alloy URL not configured - metrics push disabled" [component p];
    mret false
  else
    _ ← log Info "Starting metrics pusher" [component p; ("url", alloyUrl p)];
    _ ← update (set_isRunning true);
    mret true.

Definition start_after_await : M Sys event unit :=
  s ← get;
  let p := this s in
  id ← setInterval (pushIntervalMs p);
  _ ← update (set_intervalId (Some id));
  log Info "Metrics pusher started successfully" [component p].

Definition stop : M Sys event unit :=
  s ← get;
  let p := this s in
  if negb (isRunning p) then mret tt
  else
    _ ← match intervalId p with
        | Some id => _ ← clearInterval id; update (set_intervalId None)
        | None => mret tt
        end;
    _ ← update (set_isRunning false);
    log Info "Metrics pusher stopped" [component p].

Definition isActive (p : MetricsPusher) : bool := isRunning p.

(** The callback handed to [setInterval]:
    [this.pushMetrics().catch(error => this.logger.error(...))]. *)
Definition interval_callback (w : PushEnv) : M Sys event unit :=
  s ← get;
  try_catch (pushMetrics w)
    (fun error =>
       log Error "Error pushing metrics"
         [component (this s); ("error", error_message error)]).

(** What can happen to a pusher: calls of its public methods, made one
    after the other, and firings of an active timer. *)
Inductive op : Type :=
| Start (w : PushEnv)
| Stop
| PushMetrics (w : PushEnv)
| Tick (id : nat) (w : PushEnv).

Definition step (o : op) : M Sys event unit :=
  match o with
  | Start w => start w
  | Stop => stop
  | PushMetrics w => pushMetrics w
  | Tick id w =>
      s ← get;
      match timers s !! id with
      | Some _ => interval_callback w
      | None => mret tt
      end
  end.

Fixpoint run (ops : list op) : M Sys event unit :=
  match ops with
  | [] => mret tt
  | o :: ops' => _ ← step o; run ops'
  end.

(** A freshly constructed pusher in a runtime without timers. *)
Definition boot (p : MetricsPusher) : Sys := mkSys p ∅ 0.

End MetricsPusher.

(** ** The shared registry (packages/metrics-pusher/src/registry.ts) *)

Module Registry.
Import Effects.

(** The module variable [sharedRegistry]: [None] is [null], [Some r] the
    registry that was the [r]-th to be created; and the number of registries
    created so far. *)
Record State : Type := mkState {
  sharedRegistry : option nat;
  created : nat
}.

(** [new Registry()] *)
Inductive event : Type :=
| ENewRegistry.

Definition initial : State := mkState None 0.

Definition getRegistry : M State event nat :=
  s ← get;
  match sharedRegistry s with
  | Some registry => mret registry
  | None =>
      _ ← emit ENewRegistry;
      _ ← put (mkState (Some (created s)) (S (created s)));
      mret (created s)
  end.

Definition resetRegistry : M State event unit :=
  s ← get; put (mkState None (created s)).

(** Calls of the two functions, and the registries the calls of
    [getRegistry] among them return, in order. *)
Inductive op : Type :=
| GetRegistry
| ResetRegistry.

Fixpoint run (ops : list op) : M State event (list nat) :=
  match ops with
  | [] => mret []
  | GetRegistry :: ops' =>
      registry ← getRegistry;
      rest ← run ops';
      mret (registry :: rest)
  | ResetRegistry :: ops' =>
      _ ← resetRegistry;
      run ops'
  end.

End Registry.

(** ** The metrics route (packages/metrics-pusher/src/routes.ts) *)

Module MetricsRoutes.
Import Effects.

(** What the registry answers during one request: its content type and
    the text (or rejection) of [registry.metrics()]. *)
Record Scrape : Type := mkScrape {
  contentType : string;
  metrics : completion string
}.

(** Calls on the response, on the registry and on the logger. *)
Inductive event : Type :=
| ELog (entry : LogEntry)
| ERegistry (e : Registry.event)
| ESet (field value : string)
| EMetrics (registry : nat)
| EStatus (code : Z)
| EEnd (body : string).

(** A function of the registry module, called from this one. *)
Definition lift {A} (m : M Registry.State Registry.event A)
  : M Registry.State event A :=
  fun s => let '((s1, t), r) := m s in ((s1, map ERegistry t), r).

(** The handler that [createMetricsRouter(logger)] registers for GET [/]. *)
Definition createMetricsRouter (logger : option nat) (w : Scrape)
  : M Registry.State event unit :=
  let log := logger_or_console logger in
  try_catch
    (registry ← lift Registry.getRegistry;
     _ ← emit (ESet "Content-Type" (contentType w));
     _ ← emit (EMetrics registry);
     metrics ← settle (metrics w);
     emit (EEnd metrics))
    (fun error =>
       _ ← emit (ELog (mkLog log Error "Error generating metrics"
                         [("component", "MetricsRoutes");
                          ("error", error_message error)]));
       _ ← emit (EStatus 500);
       emit (EEnd "Error generating metrics")).

End MetricsRoutes.

(** ** Kafka consumer (packages/kafka-client/src/consumer.ts) *)

Module KafkaConsumer.
Import Effects.

Module Config.
(** [KafkaConfig] *)
Record t : Type := mk {
  serviceName : option string;
  brokers : option (list string);
  username : option string;
  password : option string;
  groupId : option string;
  ssl : option bool;
  saslMechanism : option string;
  clientId : option string;
  sessionTimeout : option Z;
  heartbeatInterval : option Z;
  logger : option nat
}.
End Config.

(** [ConsumerStats]; [lastProcessedAt] is a clock reading or [null]. *)
Record ConsumerStats : Type := mkStats {
  processedCount : nat;
  errorCount : nat;
  lastProcessedAt : option Z;
  stats_isRunning : bool
}.

(** The fields of [EachMessagePayload] the class reads. *)
Record KafkaMessage : Type := mkMessage {
  topic : string;
  partition : Z;
  offset : string
}.

(** The options handed to [new Kafka(...)] and to [kafka.consumer(...)]. *)
Record KafkaOptions : Type := mkKafkaOptions {
  opt_clientId : string;
  opt_brokers : list string;
  opt_ssl : bool;
  opt_mechanism : string;
  opt_username : string;
  opt_password : string
}.

Record ConsumerOptions : Type := mkConsumerOptions {
  opt_groupId : string;
  opt_sessionTimeout : Z;
  opt_heartbeatInterval : Z
}.

Record KafkaConsumer : Type := mkConsumer {
  serviceName : string;
  logger : LoggerRef;
  isRunning : bool;
  stats : ConsumerStats
}.

Inductive event : Type :=
| ELog (entry : LogEntry)
| ENewKafka (options : KafkaOptions)
| ENewConsumer (options : ConsumerOptions)
| EConnect
| EDisconnect
| ESubscribe (topic : string) (fromBeginning : bool)
| ERun
| EHandler (payload : KafkaMessage).

(** The constructor: the five checks, in order, then the two library
    objects.  Nothing is created when a check fails. *)
Definition new (config : Config.t) : M unit event KafkaConsumer :=
  if negb (truthy (Config.serviceName config)) then
    throw (ErrorObj "KafkaConfig.serviceName is required")
  else if negb (truthy (Config.brokers config))
          || Nat.eqb (length (default [] (Config.brokers config))) 0 then
    throw (ErrorObj "KafkaConfig.brokers is required")
  else if negb (truthy (Config.username config)) then
    throw (ErrorObj "KafkaConfig.username is required")
  else if negb (truthy (Config.password config)) then
    throw (ErrorObj "KafkaConfig.password is required")
  else if negb (truthy (Config.groupId config)) then
    throw (ErrorObj "KafkaConfig.groupId is required")
  else
    let name := default "" (Config.serviceName config) in
    _ ← emit (ENewKafka
                {| opt_clientId := or_else (Config.clientId config) name;
                   opt_brokers := default [] (Config.brokers config);
                   opt_ssl := not_false (Config.ssl config);
                   opt_mechanism := or_else (Config.saslMechanism config) "plain";
                   opt_username := default "" (Config.username config);
                   opt_password := default "" (Config.password config) |});
    _ ← emit (ENewConsumer
                {| opt_groupId := default "" (Config.groupId config);
                   opt_sessionTimeout := nullish (Config.sessionTimeout config) 30000%Z;
                   opt_heartbeatInterval := nullish (Config.heartbeatInterval config) 3000%Z |});
    mret {| serviceName := name;
            logger := logger_or_console (Config.logger config);
            isRunning := false;
            stats := mkStats 0 0 None false |}.

Definition component (c : KafkaConsumer) : string * string :=
  ("component", serviceName c +:+ "/KafkaConsumer").

Definition log (lvl : level) (msg : string) (meta : list (string * string))
  : M KafkaConsumer event unit :=
  c ← get; emit (ELog (mkLog (logger c) lvl msg meta)).

(** The instance with its statistics replaced. *)
Definition with_stats (c : KafkaConsumer) (st : ConsumerStats) : KafkaConsumer :=
  mkConsumer (serviceName c) (logger c) (isRunning c) st.

Definition update_stats (f : ConsumerStats -> ConsumerStats) : M KafkaConsumer event unit :=
  c ← get; put (with_stats c (f (stats c))).

Definition set_running (b : bool) : M KafkaConsumer event unit :=
  c ← get;
  put (mkConsumer (serviceName c) (logger c) b
         (mkStats (processedCount (stats c)) (errorCount (stats c))
            (lastProcessedAt (stats c)) b)).

(** [this.stats.processedCount++; this.stats.lastProcessedAt = new Date()] *)
Definition count_processed (now : Z) (s : ConsumerStats) : ConsumerStats :=
  mkStats (S (processedCount s)) (errorCount s) (Some now) (stats_isRunning s).

(** [this.stats.errorCount++; this.stats.lastProcessedAt = new Date()] *)
Definition count_error (now : Z) (s : ConsumerStats) : ConsumerStats :=
  mkStats (processedCount s) (S (errorCount s)) (Some now) (stats_isRunning s).

(** A message as the loop meets it: the payload, how the caller's handler
    ends on it, and the clock reading taken afterwards. *)
Record Delivery : Type := mkDelivery {
  payload : KafkaMessage;
  handler_outcome : completion unit;
  now : Z
}.

(** The [eachMessage] callback that [subscribe] registers. *)
Definition eachMessage (d : Delivery) : M KafkaConsumer event unit :=
  try_catch
    (_ ← emit (EHandler (payload d));
     _ ← settle (handler_outcome d);
     update_stats (count_processed (now d)))
    (fun error =>
       _ ← update_stats (count_error (now d));
       c ← get;
       log Error "Error processing message"
         [component c; ("topic", topic (payload d)); ("offset", offset (payload d));
          ("error", error_message error)]).

(** The message loop of the client library: it calls [eachMessage] on one
    message after the other and stops at the first call that throws. *)
Fixpoint message_loop (ds : list Delivery) : M KafkaConsumer event unit :=
  match ds with
  | [] => mret tt
  | d :: ds' => _ ← eachMessage d; message_loop ds'
  end.

(** [subscribe(topic, handler, fromBeginning)]; the two library calls
    settle as the environment decides. *)
Definition subscribe (topic : string) (fromBeginning : bool)
    (subscribed started : completion unit) : M KafkaConsumer event unit :=
  try_catch
    (_ ← emit (ESubscribe topic fromBeginning);
     _ ← settle subscribed;
     c ← get;
     _ ← log Info "Subscribed to topic" [component c; ("topic", topic)];
     _ ← emit ERun;
     _ ← settle started;
     _ ← set_running true;
     log Info "Consumer started successfully" [component c; ("topic", topic)])
    (fun error =>
       c ← get;
       _ ← log Error "Failed to subscribe to topic"
             [component c; ("topic", topic); ("error", error_message error)];
       throw error).

Definition getStats (c : KafkaConsumer) : ConsumerStats := stats c.

Definition isConsumerRunning (c : KafkaConsumer) : bool := isRunning c.

(** [connect()]; [connected] is how [consumer.connect()] settles. *)
Definition connect (connected : completion unit) : M KafkaConsumer event unit :=
  c ← get;
  try_catch
    (_ ← log Info "Connecting to Kafka..." [component c];
     _ ← emit EConnect;
     _ ← settle connected;
     log Info "Connected to Kafka successfully" [component c])
    (fun error =>
       _ ← log Error "Failed to connect to Kafka"
             [component c; ("error", error_message error)];
       throw error).

(** [disconnect()]; [disconnected] is how [consumer.disconnect()] settles. *)
Definition disconnect (disconnected : completion unit) : M KafkaConsumer event unit :=
  c ← get;
  if negb (isRunning c) then
    log Info "Consumer not running, nothing to disconnect" [component c]
  else
    try_catch
      (_ ← log Info "Disconnecting from Kafka..." [component c];
       _ ← emit EDisconnect;
       _ ← settle disconnected;
       _ ← set_running false;
       log Info "Disconnected from Kafka successfully" [component c])
      (fun error =>
         log Error "Error disconnecting from Kafka"
           [component c; ("error", error_message error)]).

(** What happens to a consumer: calls of its methods, made one after the
    other by a caller that catches their rejections, and calls of the
    [eachMessage] callback by the client library. *)
Inductive op : Type :=
| Connect (connected : completion unit)
| Subscribe (topic : string) (fromBeginning : bool) (subscribed started : completion unit)
| Deliver (d : Delivery)
| Disconnect (disconnected : completion unit).

Definition step (o : op) : M KafkaConsumer event unit :=
  match o with
  | Connect connected => connect connected
  | Subscribe topic fromBeginning subscribed started =>
      subscribe topic fromBeginning subscribed started
  | Deliver d => eachMessage d
  | Disconnect disconnected => disconnect disconnected
  end.

Fixpoint run (ops : list op) : M KafkaConsumer event unit :=
  match ops with
  | [] => mret tt
  | o :: ops' => _ ← attempt (step o); run ops'
  end.

End KafkaConsumer.

(** ** Postgres client (packages/postgres-client/src/client.ts) *)

Module PostgresClient.
Import Effects.

Module Config.
(** [PostgresConfig] *)
Record t : Type := mk {
  serviceName : option string;
  schemaName : option string;
  host : option string;
  port : option Z;
  database : option string;
  user : option string;
  password : option string;
  ssl : option bool;
  poolSize : option Z;
  idleTimeout : option Z;
  connectionTimeout : option Z;
  logger : option nat
}.
End Config.

(** The [PoolConfig] handed to [new Pool(...)].  [pool_port] is [None] when
    [parseInt] yields [NaN]; [pool_ssl] tells whether the [ssl] entry is the
    options object or [false]. *)
Record PoolConfig : Type := mkPoolConfig {
  pool_host : string;
  pool_port : option Z;
  pool_database : string;
  pool_user : string;
  pool_password : string;
  pool_ssl : bool;
  pool_max : Z;
  pool_idleTimeoutMillis : Z;
  pool_connectionTimeoutMillis : Z;
  pool_options : string
}.

(** A result row is an object, column name to value. *)
Definition Row : Type := gmap string string.

(** An object is truthy whatever it holds. *)
#[export] Instance truthy_Row : Truthy Row := fun _ => true.

Record QueryResult : Type := mkResult {
  rows : list Row;
  rowCount : nat
}.

Record PostgresClient : Type := mkClient {
  serviceName : string;
  schemaName : string;
  logger : LoggerRef;
  connected : bool
}.

Inductive event : Type :=
| ELog (entry : LogEntry)
| ENewPool (config : PoolConfig)
| EPoolQuery (sql : string) (params : option (list string))
| EPoolEnd.

(** [config.port || parseInt(process.env.PGPORT || '5432', 10)] *)
Definition resolve_port (port : option Z) (env : Env) : option Z :=
  if truthy port then port
  else JS.parseInt10 (or_else (env !! "PGPORT") "5432").

(** [process.env.PGSSLMODE === 'require'] *)
Definition sslmode_require (env : Env) : bool :=
  bool_decide (env !! "PGSSLMODE" = Some "require").

Definition poolConfig (config : Config.t) (env : Env) (schema : string) : PoolConfig :=
  {| pool_host := or_else (Config.host config) (or_else (env !! "PGHOST") "localhost");
     pool_port := resolve_port (Config.port config) env;
     pool_database := or_else (Config.database config)
                        (or_else (env !! "PGDATABASE") "railrepay");
     pool_user := or_else (Config.user config) (or_else (env !! "PGUSER") "postgres");
     pool_password := or_else (Config.password config)
                        (or_else (env !! "PGPASSWORD") "postgres");
     pool_ssl := nullish (Config.ssl config) (sslmode_require env);
     pool_max := nullish (Config.poolSize config) 20%Z;
     pool_idleTimeoutMillis := nullish (Config.idleTimeout config) 30000%Z;
     pool_connectionTimeoutMillis := nullish (Config.connectionTimeout config) 5000%Z;
     pool_options := "-c search_path=" +:+ schema +:+ ",public" |}.

(** The constructor: the two checks, then the pool.  The pool connects
    lazily; the two [pool.on] registrations have no effect of their own. *)
Definition new (config : Config.t) (env : Env) : M unit event PostgresClient :=
  if negb (truthy (Config.serviceName config)) then
    throw (ErrorObj "PostgresConfig.serviceName is required")
  else if negb (truthy (Config.schemaName config)) then
    throw (ErrorObj "PostgresConfig.schemaName is required")
  else
    let name := default "" (Config.serviceName config) in
    let schema := default "" (Config.schemaName config) in
    _ ← emit (ENewPool (poolConfig config env schema));
    mret {| serviceName := name;
            schemaName := schema;
            logger := logger_or_console (Config.logger config);
            connected := false |}.

Definition component (c : PostgresClient) : string * string :=
  ("component", serviceName c +:+ "/PostgresClient").

Definition log (lvl : level) (msg : string) (meta : list (string * string))
  : M PostgresClient event unit :=
  c ← get; emit (ELog (mkLog (logger c) lvl msg meta)).

(** [query(sql, params)]; [answer] is how [pool.query] settles. *)
Definition query (sql : string) (params : option (list string))
    (answer : completion QueryResult) : M PostgresClient event (list Row) :=
  c ← get;
  try_catch
    (_ ← emit (EPoolQuery sql params);
     result ← settle answer;
     _ ← log Debug "Executed query" [component c; ("query", JS.str_take 100 sql)];
     mret (rows result))
    (fun error =>
       _ ← log Error "Database query error"
             [component c; ("error", error_message error);
              ("query", JS.str_take 100 sql)];
       throw error).

(** [queryOne(sql, params)]: [rows[0] || null]; [None] is [null]. *)
Definition queryOne (sql : string) (params : option (list string))
    (answer : completion QueryResult) : M PostgresClient event (option Row) :=
  rows ← query sql params answer;
  mret (or_opt (rows !! 0%nat) None).

(** [healthCheck()] *)
Definition healthCheck (answer : completion QueryResult)
  : M PostgresClient event bool :=
  c ← get;
  try_catch
    (_ ← emit (EPoolQuery "SELECT 1" None);
     _ ← settle answer;
     mret true)
    (fun error =>
       _ ← log Error "Database health check failed"
             [component c; ("error", error_message error)];
       mret false).

Definition set_connected (b : bool) : M PostgresClient event unit :=
  c ← get; put (mkClient (serviceName c) (schemaName c) (logger c) b).

(** [connect()]; [config] is [this.config], the object the constructor was
    given, and [answer] is how the probe query settles. *)
Definition connect (config : Config.t) (env : Env) (answer : completion QueryResult)
  : M PostgresClient event unit :=
  c ← get;
  try_catch
    (_ ← emit (EPoolQuery "SELECT 1" None);
     _ ← settle answer;
     _ ← set_connected true;
     log Info "PostgreSQL connection pool initialized"
       [component c;
        ("host", or_else (Config.host config) (or_else (env !! "PGHOST") "localhost"));
        ("database", or_else (Config.database config)
                       (or_else (env !! "PGDATABASE") "railrepay"));
        ("schema", schemaName c)])
    (fun error =>
       _ ← log Error "Failed to connect to PostgreSQL"
             [component c; ("error", error_message error)];
       throw error).

(** [disconnect()]; [ended] is how [pool.end()] settles. *)
Definition disconnect (ended : completion unit) : M PostgresClient event unit :=
  c ← get;
  _ ← emit EPoolEnd;
  _ ← settle ended;
  _ ← set_connected false;
  log Info "PostgreSQL connection pool closed" [component c].

Definition isConnected (c : PostgresClient) : bool := connected c.

(** Calls of the methods, made one after the other by a caller that
    catches their rejections. *)
Inductive op : Type :=
| Connect (config : Config.t) (env : Env) (answer : completion QueryResult)
| Disconnect (ended : completion unit)
| Query (sql : string) (params : option (list string)) (answer : completion QueryResult)
| QueryOne (sql : string) (params : option (list string)) (answer : completion QueryResult)
| HealthCheck (answer : completion QueryResult).

Definition step (o : op) : M PostgresClient event unit :=
  match o with
  | Connect config env answer => connect config env answer
  | Disconnect ended => disconnect ended
  | Query sql params answer => _ ← query sql params answer; mret tt
  | QueryOne sql params answer => _ ← queryOne sql params answer; mret tt
  | HealthCheck answer => _ ← healthCheck answer; mret tt
  end.

Fixpoint run (ops : list op) : M PostgresClient event unit :=
  match ops with
  | [] => mret tt
  | o :: ops' => _ ← attempt (step o); run ops'
  end.

End PostgresClient.

(** ** Redis cache (packages/redis-cache/src: cache.ts, noop-cache.ts, index.ts) *)

Module RedisCache.
Import Effects.

Module Config.
(** [RedisConfig] *)
Record t : Type := mk {
  serviceName : option string;
  redisUrl : option string;
  defaultTTL : option Z;
  keyPrefix : option string;
  logger : option nat
}.
End Config.

(** A [RedisCache] right after construction: the resolved configuration, no
    client yet, not connected. *)
Record RedisCache : Type := mkCache {
  serviceName : string;
  redisUrl : string;
  defaultTTL : Z;
  keyPrefix : string;
  logger : LoggerRef;
  connected : bool
}.

Definition new (config : Config.t) (env : Env) : completion RedisCache :=
  match Config.serviceName config with
  | Some name =>
      if truthy name then
        Return {| serviceName := name;
                  redisUrl := or_else (Config.redisUrl config)
                                (or_else (env !! "REDIS_URL") "redis://localhost:6379");
                  defaultTTL := nullish (Config.defaultTTL config) 3600%Z;
                  keyPrefix := nullish (Config.keyPrefix config) "rr:";
                  logger := logger_or_console (Config.logger config);
                  connected := false |}
      else Throw (ErrorObj "RedisConfig.serviceName is required")
  | None => Throw (ErrorObj "RedisConfig.serviceName is required")
  end.

(** [getKey(key)] *)
Definition getKey (c : RedisCache) (key : string) : string := keyPrefix c +:+ key.

(** *** The methods

    The instance at run time: the object, its [client] field ([None] is
    [null], [Some h] the client that was the [h]-th to be created) and the
    number of clients created so far. *)
Record Sys : Type := mkSys {
  this : RedisCache;
  client : option nat;
  clients : nat
}.

Definition boot (c : RedisCache) : Sys := mkSys c None 0.

(** Calls on the logger, [createClient] and the commands sent through a
    client.  The serialized value of [setEx] is [None] when
    [JSON.stringify] yields [undefined]. *)
Inductive event : Type :=
| ELog (entry : LogEntry)
| ECreateClient (url : string)
| EClientConnect (h : nat)
| EQuit (h : nat)
| EGet (h : nat) (key : string)
| ESetEx (h : nat) (key : string) (ttl : Z) (value : option string)
| EDel (h : nat) (key : string)
| EExists (h : nat) (key : string)
| EPing (h : nat).

Definition component (c : RedisCache) : string * string :=
  ("component", serviceName c +:+ "/RedisCache").

Definition log (lvl : level) (msg : string) (meta : list (string * string))
  : M Sys event unit :=
  s ← Effects.get; emit (ELog (mkLog (logger (this s)) lvl msg meta)).

Definition set_connected (b : bool) : M Sys event unit :=
  s ← Effects.get;
  let c := this s in
  put (mkSys (mkCache (serviceName c) (redisUrl c) (defaultTTL c) (keyPrefix c)
                (logger c) b)
         (client s) (clients s)).

Definition set_client (h : option nat) : M Sys event unit :=
  s ← Effects.get; put (mkSys (this s) h (clients s)).

(** [createClient({ url })]; [created] is how the call ends.  The three
    [client.on] registrations that follow have no effect of their own. *)
Definition createClient (created : completion unit) : M Sys event nat :=
  s ← Effects.get;
  _ ← emit (ECreateClient (redisUrl (this s)));
  _ ← settle created;
  _ ← put (mkSys (this s) (client s) (S (clients s)));
  mret (clients s).

(** [connect()]; [opened] is how [client.connect()] settles. *)
Definition connect (created opened : completion unit) : M Sys event unit :=
  s ← Effects.get;
  let c := this s in
  try_catch
    (h ← createClient created;
     _ ← set_client (Some h);
     _ ← emit (EClientConnect h);
     _ ← settle opened;
     _ ← set_connected true;
     log Info "Redis cache connected" [component c; ("keyPrefix", keyPrefix c)])
    (fun error =>
       _ ← log Error "Failed to connect to Redis"
             [component c; ("error", error_message error)];
       _ ← set_client None;
       _ ← set_connected false;
       throw error).

(** [disconnect()]; [closed] is how [client.quit()] settles. *)
Definition disconnect (closed : completion unit) : M Sys event unit :=
  s ← Effects.get;
  let c := this s in
  match client s with
  | Some h =>
      try_catch
        (_ ← emit (EQuit h);
         _ ← settle closed;
         _ ← set_connected false;
         log Info "Redis cache disconnected" [component c])
        (fun error =>
           log Error "Error disconnecting from Redis"
             [component c; ("error", error_message error)])
  | None => mret tt
  end.

(** The three handlers [connect()] registers on the client. *)
Definition on_error (message : string) : M Sys event unit :=
  s ← Effects.get;
  _ ← log Error "Redis client error" [component (this s); ("error", message)];
  set_connected false.

Definition on_connect : M Sys event unit :=
  s ← Effects.get; log Debug "Redis client connected" [component (this s)].

Definition on_disconnect : M Sys event unit :=
  s ← Effects.get;
  _ ← log Warn "Redis client disconnected" [component (this s)];
  set_connected false.

Definition isConnected (s : Sys) : bool := connected (this s).

(** [healthCheck()]; [pinged] is how [client.ping()] settles. *)
Definition healthCheck (pinged : completion unit) : M Sys event bool :=
  s ← Effects.get;
  let c := this s in
  match client s with
  | Some h =>
      if connected c then
        try_catch
          (_ ← emit (EPing h);
           _ ← settle pinged;
           mret true)
          (fun error =>
             _ ← log Error "Redis health check failed"
                   [component c; ("error", error_message error)];
             mret false)
      else mret false
  | None => mret false
  end.

(** [delete(key)]; [deleted] is how [client.del] settles. *)
Definition delete (key : string) (deleted : completion Z) : M Sys event unit :=
  s ← Effects.get;
  let c := this s in
  match client s with
  | Some h =>
      if connected c then
        try_catch
          (_ ← emit (EDel h (getKey c key));
           _ ← settle deleted;
           log Debug "Deleted cache key" [component c; ("key", key)])
          (fun error =>
             log Error "Redis DEL error"
               [component c; ("error", error_message error); ("key", key)])
      else mret tt
  | None => mret tt
  end.

(** [exists(key)]; [answer] is how [client.exists] settles. *)
Definition exists_ (key : string) (answer : completion Z) : M Sys event bool :=
  s ← Effects.get;
  let c := this s in
  match client s with
  | Some h =>
      if connected c then
        try_catch
          (_ ← emit (EExists h (getKey c key));
           result ← settle answer;
           mret (Z.eqb result 1))
          (fun error =>
             _ ← log Error "Redis EXISTS error"
                   [component c; ("error", error_message error); ("key", key)];
             mret false)
      else mret false
  | None => mret false
  end.

Section Values.
(** The type of the cached values, with [JSON.stringify] and [JSON.parse]
    on them: [stringify] yields [None] for [undefined], [parse] yields
    [None] for [null], and either may throw. *)
Context {T : Type}.
Variable stringify : T -> completion (option string).
Variable parse : string -> completion (option T).

(** [get(key)]; [answer] is how [client.get] settles, [None] for [null]. *)
Definition get (key : string) (answer : completion (option string))
  : M Sys event (option T) :=
  s ← Effects.get;
  let c := this s in
  match client s with
  | Some h =>
      if connected c then
        try_catch
          (_ ← emit (EGet h (getKey c key));
           value ← settle answer;
           match value with
           | None => mret None
           | Some text => settle (parse text)
           end)
          (fun error =>
             _ ← log Error "Redis GET error"
                   [component c; ("error", error_message error); ("key", key)];
             mret None)
      else mret None
  | None => mret None
  end.

(** [set(key, value, ttl)]; [stored] is how [client.setEx] settles. *)
Definition set (key : string) (value : T) (ttl : option Z)
    (stored : completion unit) : M Sys event unit :=
  s ← Effects.get;
  let c := this s in
  match client s with
  | Some h =>
      if connected c then
        try_catch
          (serialized ← settle (stringify value);
           let effectiveTTL := nullish ttl (defaultTTL c) in
           _ ← emit (ESetEx h (getKey c key) effectiveTTL serialized);
           _ ← settle stored;
           log Debug "Cached value" [component c; ("key", key)])
          (fun error =>
             log Error "Redis SET error"
               [component c; ("error", error_message error); ("key", key)])
      else mret tt
  | None => mret tt
  end.

(** What happens to a cache: calls of its methods, made one after the
    other by a caller that catches their rejections, and events of the
    client. *)
Inductive op : Type :=
| Connect (created opened : completion unit)
| Disconnect (closed : completion unit)
| Get (key : string) (answer : completion (option string))
| Set_ (key : string) (value : T) (ttl : option Z) (stored : completion unit)
| Delete (key : string) (deleted : completion Z)
| Exists (key : string) (answer : completion Z)
| HealthCheck (pinged : completion unit)
| OnError (message : string)
| OnConnect
| OnDisconnect.

Definition step (o : op) : M Sys event unit :=
  match o with
  | Connect created opened => connect created opened
  | Disconnect closed => disconnect closed
  | Get key answer => _ ← get key answer; mret tt
  | Set_ key value ttl stored => set key value ttl stored
  | Delete key deleted => delete key deleted
  | Exists key answer => _ ← exists_ key answer; mret tt
  | HealthCheck pinged => _ ← healthCheck pinged; mret tt
  | OnError message => on_error message
  | OnConnect => on_connect
  | OnDisconnect => on_disconnect
  end.

Fixpoint run (ops : list op) : M Sys event unit :=
  match ops with
  | [] => mret tt
  | o :: ops' => _ ← attempt (step o); run ops'
  end.

End Values.
Arguments op : clear implicits.

End RedisCache.

Module NoOpCache.
Import Effects.

(** The class has no fields. *)
Inductive NoOpCache : Type := mkNoOp.

(** No method calls anything outside the class. *)
Definition event : Type := Empty_set.

Section Methods.
(** The type of the cached values. *)
Context {V : Type}.

Definition connect : M NoOpCache event unit := mret tt.
Definition disconnect : M NoOpCache event unit := mret tt.
(** [None] is [null]. *)
Definition get (_key : string) : M NoOpCache event (option V) := mret None.
Definition set (_key : string) (_value : V) (_ttl : option Z)
  : M NoOpCache event unit := mret tt.
Definition delete (_key : string) : M NoOpCache event unit := mret tt.
Definition exists_ (_key : string) : M NoOpCache event bool := mret false.
Definition isConnected : M NoOpCache event bool := mret false.
Definition healthCheck : M NoOpCache event bool := mret false.

(** A call of one of the eight methods of [CacheClient] and what it
    answers. *)
Inductive call : Type :=
| Connect
| Disconnect
| Get (key : string)
| Set_ (key : string) (value : V) (ttl : option Z)
| Delete (key : string)
| Exists (key : string)
| IsConnected
| HealthCheck.

Inductive answer : Type :=
| Void
| Value (v : option V)
| Boolean (b : bool).

Definition perform (c : call) : M NoOpCache event answer :=
  match c with
  | Connect => _ ← connect; mret Void
  | Disconnect => _ ← disconnect; mret Void
  | Get k => v ← get k; mret (Value v)
  | Set_ k v ttl => _ ← set k v ttl; mret Void
  | Delete k => _ ← delete k; mret Void
  | Exists k => b ← exists_ k; mret (Boolean b)
  | IsConnected => b ← isConnected; mret (Boolean b)
  | HealthCheck => b ← healthCheck; mret (Boolean b)
  end.

(** A sequence of calls on one instance; it stops at a call that throws. *)
Fixpoint perform_all (cs : list call) : M NoOpCache event (list answer) :=
  match cs with
  | [] => mret []
  | c :: cs' =>
      a ← perform c;
      rest ← perform_all cs';
      mret (a :: rest)
  end.

End Methods.
Arguments call : clear implicits.
Arguments answer : clear implicits.

End NoOpCache.

Module RedisFactory.
Import Effects.

Inductive CacheClient : Type :=
| Redis (c : RedisCache.RedisCache)
| NoOp (c : NoOpCache.NoOpCache).

Inductive event : Type :=
| EConsoleLog (text : string)
| EConsoleWarn (text : string).

(** [`${config.serviceName}`] *)
Definition show_name (config : RedisCache.Config.t) : string :=
  default "undefined" (RedisCache.Config.serviceName config).

(** [{ ...config, redisUrl }] *)
Definition with_redisUrl (config : RedisCache.Config.t) (url : string)
  : RedisCache.Config.t :=
  RedisCache.Config.mk (RedisCache.Config.serviceName config) (Some url)
    (RedisCache.Config.defaultTTL config) (RedisCache.Config.keyPrefix config)
    (RedisCache.Config.logger config).

(** [process.env.REDIS_CACHE_ENABLED === 'true'] *)
Definition cacheEnabled (env : Env) : bool :=
  bool_decide (env !! "REDIS_CACHE_ENABLED" = Some "true").

(** [config.redisUrl || process.env.REDIS_URL] *)
Definition resolved_url (config : RedisCache.Config.t) (env : Env) : option string :=
  or_opt (RedisCache.Config.redisUrl config) (env !! "REDIS_URL").

Definition createRedisCache (config : RedisCache.Config.t) (env : Env)
  : M unit event CacheClient :=
  let redisUrl := resolved_url config env in
  if negb (cacheEnabled env) then
    _ ← emit (EConsoleLog ("[" +:+ show_name config
                +:+ "] Redis caching disabled (REDIS_CACHE_ENABLED=false)"));
    mret (NoOp NoOpCache.mkNoOp)
  else
    match redisUrl with
    | Some url =>
        if truthy url then
          c ← settle (RedisCache.new (with_redisUrl config url) env);
          mret (Redis c)
        else
          _ ← emit (EConsoleWarn ("[" +:+ show_name config
                      +:+ "] REDIS_URL not set - caching disabled"));
          mret (NoOp NoOpCache.mkNoOp)
    | None =>
        _ ← emit (EConsoleWarn ("[" +:+ show_name config
                    +:+ "] REDIS_URL not set - caching disabled"));
        mret (NoOp NoOpCache.mkNoOp)
    end.

End RedisFactory.

(** ** Logger factory (packages/winston-logger/src/logger.ts) *)

Module WinstonLogger.
Import Effects.

Module Config.
(** [LoggerConfig] *)
Record t : Type := mk {
  serviceName : option string;
  level : option string;
  lokiHost : option string;
  lokiEnabled : option bool;
  lokiBasicAuth : option string;
  environment : option string
}.
End Config.

Record LokiOptions : Type := mkLoki {
  loki_host : string;
  loki_basicAuth : option string;
  loki_app : string;
  loki_environment : string
}.

Inductive transport : Type :=
| Console (level : string)
| Loki (options : LokiOptions).

(** What [winston.createLogger] is given. *)
Record Logger : Type := mkLogger {
  level : string;
  app : string;
  environment : string;
  transports : list transport
}.

Inductive event : Type :=
| ENewLokiTransport (options : LokiOptions)
| EConsoleWarn (text : string)
| ECreateLogger (logger : Logger).

(** The defaults of the destructuring pattern; a default applies when the
    property is [undefined]. *)
Definition resolve_level (config : Config.t) (env : Env) : string :=
  nullish (Config.level config) (or_else (env !! "LOG_LEVEL") "info").

Definition resolve_lokiHost (config : Config.t) (env : Env) : string :=
  nullish (Config.lokiHost config)
    (or_else (env !! "LOKI_HOST") "http://localhost:3100").

Definition resolve_lokiEnabled (config : Config.t) (env : Env) : bool :=
  nullish (Config.lokiEnabled config)
    (bool_decide (env !! "LOKI_ENABLED" = Some "true")).

Definition resolve_lokiBasicAuth (config : Config.t) (env : Env) : option string :=
  match Config.lokiBasicAuth config with
  | Some a => Some a
  | None => env !! "LOKI_BASIC_AUTH"
  end.

Definition resolve_environment (config : Config.t) (env : Env) : string :=
  nullish (Config.environment config)
    (or_else (env !! "ENVIRONMENT") (or_else (env !! "NODE_ENV") "development")).

(** [createLogger(config)]; [loki] is how [new LokiTransport(...)] ends. *)
Definition createLogger (config : Config.t) (env : Env) (loki : completion unit)
  : M unit event Logger :=
  let level := resolve_level config env in
  let lokiHost := resolve_lokiHost config env in
  let lokiEnabled := resolve_lokiEnabled config env in
  let lokiBasicAuth := resolve_lokiBasicAuth config env in
  let environment := resolve_environment config env in
  match Config.serviceName config with
  | Some serviceName =>
      if truthy serviceName then
        let options := mkLoki lokiHost lokiBasicAuth serviceName environment in
        transports ←
          (if lokiEnabled && negb (bool_decide (env !! "NODE_ENV" = Some "test")) then
             try_catch
               (_ ← emit (ENewLokiTransport options);
                _ ← settle loki;
                mret [Console level; Loki options])
               (fun _ =>
                  _ ← emit (EConsoleWarn
                              ("[" +:+ serviceName
                               +:+ "] Failed to initialize Loki transport, using console only"));
                  mret [Console level])
           else mret [Console level]);
        let logger := mkLogger level serviceName environment transports in
        _ ← emit (ECreateLogger logger);
        mret logger
      else throw (ErrorObj "LoggerConfig.serviceName is required")
  | None => throw (ErrorObj "LoggerConfig.serviceName is required")
  end.

End WinstonLogger.

(** ** OpenAPI validator (packages/openapi-validator/src/middleware.ts) *)

Module OpenAPIValidator.
Import Effects.

(** An entry of [ignorePaths]: a string, or a [RegExp] with its source. *)
Inductive IgnorePath : Type :=
| PathString (s : string)
| PathRegExp (source : string).

Module Config.
(** [OpenAPIConfig]; it has no [serviceName]. *)
Record t : Type := mk {
  schemaPath : option string;
  validateRequests : option bool;
  validateResponses : option bool;
  ignorePaths : option (list IgnorePath);
  logger : option nat
}.
End Config.

(** The options handed to [OpenApiValidator.middleware]; [opt_ignorePaths]
    is the source of the combined pattern, when there is one. *)
Record Options : Type := mkOptions {
  opt_apiSpec : string;
  opt_validateRequests : bool;
  opt_validateResponses : bool;
  opt_ignorePaths : option string
}.

(** The characters of the class [.*+?^${}()|[\]\\]. *)
Definition is_special (c : ascii) : bool :=
  existsb (Ascii.eqb c)
    ["."; "*"; "+"; "?"; "^"; "$"; "{"; "}"; "("; ")"; "|"; "["; "]"; "\"]%char.

(** [p.replace(/[.*+?^${}()|[\]\\]/g, '\\$&')] *)
Fixpoint escape (p : string) : string :=
  match p with
  | EmptyString => ""
  | String c p' =>
      if is_special c then String "\" (String c (escape p'))
      else String c (escape p')
  end.

Definition pattern_of (p : IgnorePath) : string :=
  match p with
  | PathString s => escape s
  | PathRegExp source => source
  end.

(** [parts.join('|')] *)
Fixpoint join_bar (parts : list string) : string :=
  match parts with
  | [] => ""
  | [p] => p
  | p :: ps => p +:+ "|" +:+ join_bar ps
  end.

Inductive event : Type :=
| ELog (entry : LogEntry)
| EMiddleware (options : Options)
| EStatus (code : JS.value)
| EJson (body : JS.value)
| ENext (err : JS.value).

Definition createOpenAPIMiddleware (config : Config.t) (env : Env)
  : M unit event Options :=
  match Config.schemaPath config with
  | Some schemaPath =>
      if truthy schemaPath then
        let logger := logger_or_console (Config.logger config) in
        let validateRequests := not_false (Config.validateRequests config) in
        let validateResponses :=
          nullish (Config.validateResponses config)
            (bool_decide (env !! "NODE_ENV" = Some "development")) in
        let ignorePaths := or_else (Config.ignorePaths config) [] in
        _ ← emit (ELog (mkLog logger Info "Initializing OpenAPI validator"
                          [("component", "OpenAPIValidator");
                           ("schemaPath", schemaPath)]));
        let options :=
          mkOptions schemaPath validateRequests validateResponses
            (if Nat.ltb 0 (length ignorePaths)
             then Some ("^(" +:+ join_bar (map pattern_of ignorePaths) +:+ ")")
             else None) in
        _ ← emit (EMiddleware options);
        mret options
      else throw (ErrorObj "OpenAPIConfig.schemaPath is required")
  | None => throw (ErrorObj "OpenAPIConfig.schemaPath is required")
  end.





End OpenAPIValidator.

(** ** The pattern syntax, for alternations of literal texts *)

Module PatternSyntax.
Import OpenAPIValidator.

(** How the pattern syntax reads the source of an alternation of literal
    texts: a backslash makes the special character after it literal, a bare
    [|] separates two alternatives, and every character that is not special
    stands for itself.  A source with any other bare special character, or
    with a backslash before anything else, is not such an alternation. *)
Fixpoint literals (source : string) : option (list string) :=
  match source with
  | EmptyString => Some [""]
  | String "\" (String c rest) =>
      if is_special c then
        match literals rest with
        | Some (alt :: alts) => Some (String c alt :: alts)
        | _ => None
        end
      else None
  | String c rest =>
      if Ascii.eqb c "|" then cons "" <$> literals rest
      else if is_special c then None
      else
        match literals rest with
        | Some (alt :: alts) => Some (String c alt :: alts)
        | _ => None
        end
  end.

End PatternSyntax.

(** ** Vocabulary of the specification

    The definitions of this part do not come from the sources: they spell
    out the words the specification uses, so that the statements below can
    compare them with the embedded code. *)

Module Spec.
Import JS Effects.

(** *** Exposition-format lines *)

(** A comment line starts with [#]. *)
Definition is_comment (line : string) : bool :=
  match line with String "#" _ => true | _ => false end.

(** A blank line holds white space only. *)
Definition is_blank (line : string) : bool := all_chars is_space line.

(** The leading token of a line read as a metric name: the longest run of
    name characters the line starts with, when its first character may
    start a name (a letter, [_] or [:]). *)
Definition metric_name (line : string) : option string :=
  match line with
  | String c _ =>
      if MetricsPusher.name_start c
      then Some (fst (span MetricsPusher.name_char line))
      else None
  | EmptyString => None
  end.

(** [value_at s]: [s] is white space, a run of value characters and then
    either nothing or white space and a run of digits (the timestamp) up to
    its end; the run of value characters is the value token. *)
Definition value_at (s : string) : option string :=
  let '(ws, r1) := span is_space s in
  let '(tok, r2) := span MetricsPusher.value_char r1 in
  if truthy_str ws && truthy_str tok then
    match r2 with
    | EmptyString => Some tok
    | String _ _ =>
        let '(ws2, r3) := span is_space r2 in
        let '(ds, r4) := span is_digit r3 in
        if truthy_str ws2 && truthy_str ds && negb (truthy_str r4)
        then Some tok else None
    end
  else None.

(** The trailing value token of a line: the token at the first place of
    the line, from the left, where [value_at] fits. *)
Fixpoint value_token (line : string) : option string :=
  match value_at line with
  | Some tok => Some tok
  | None =>
      match line with
      | String _ rest => value_token rest
      | EmptyString => None
      end
  end.

(** The sample a line stands for: none for a comment, a blank line, a line
    without a metric name or value token, or a token that does not parse as
    a number. *)
Definition sample (line : string) : option (string * jsnum) :=
  if is_comment line || is_blank line then None
  else
    match metric_name line, value_token line with
    | Some name, Some tok =>
        match parseFloat tok with
        | NaN => None
        | v => Some (name, v)
        end
    | _, _ => None
    end.

(** The value of the last line, in order, whose sample has the name
    [name]. *)
Fixpoint last_sample (name : string) (lines : list string) : option jsnum :=
  match lines with
  | [] => None
  | line :: rest =>
      match last_sample name rest with
      | Some v => Some v
      | None =>
          match sample line with
          | Some (n, v) => if decide (n = name) then Some v else None
          | None => None
          end
      end
  end.

(** *** Traces of the metrics pusher *)

Definition is_forward (e : MetricsPusher.event) : bool :=
  match e with MetricsPusher.ERemoteWrite _ _ _ => true | _ => false end.

Definition is_scrape (e : MetricsPusher.event) : bool :=
  match e with MetricsPusher.ERegistryMetrics => true | _ => false end.

(** The log calls of a trace, as level and message. *)
Definition logs (t : list MetricsPusher.event) : list (level * string) :=
  omap (fun e => match e with
                 | MetricsPusher.ELog l => Some (log_level l, log_message l)
                 | _ => None
                 end) t.

(** The number of forwarding calls of a trace. *)
Definition forwards (t : list MetricsPusher.event) : nat :=
  length (List.filter is_forward t).

(** The number of reads of the registry, one per push that gets past the
    endpoint check. *)
Definition scrapes (t : list MetricsPusher.event) : nat :=
  length (List.filter is_scrape t).

(** The two states of the pusher's state machine. *)
Inductive pusher_state : Type := Idle | Running.

(** Running: the flag is set and the interval timer of the instance is
    scheduled with the configured period, and it is the only timer; idle:
    the flag is clear and nothing is scheduled. *)
Definition in_state (s : MetricsPusher.Sys) (st : pusher_state) : Prop :=
  let p := MetricsPusher.this s in
  match st with
  | Running =>
      MetricsPusher.isRunning p = true
      ∧ ∃ id, MetricsPusher.intervalId p = Some id
              ∧ MetricsPusher.timers s = {[ id := MetricsPusher.pushIntervalMs p ]}
  | Idle =>
      MetricsPusher.isRunning p = false
      ∧ MetricsPusher.intervalId p = None
      ∧ MetricsPusher.timers s = ∅
  end.

(** *** The message loop of the Kafka consumer *)

(** The messages a trace hands to the caller's handler, in order. *)
Definition handler_calls (t : list KafkaConsumer.event) : list KafkaConsumer.KafkaMessage :=
  omap (fun e => match e with
                 | KafkaConsumer.EHandler m => Some m
                 | _ => None
                 end) t.

(** The deliveries on which the handler throws, and those on which it
    returns. *)
Definition failures (ds : list KafkaConsumer.Delivery) : nat :=
  length (List.filter (fun d => negb (returned (KafkaConsumer.handler_outcome d))) ds).

Definition successes (ds : list KafkaConsumer.Delivery) : nat :=
  length (List.filter (fun d => returned (KafkaConsumer.handler_outcome d)) ds).

(** *** Precedence of configuration sources

    "An explicitly supplied config value is used first; if absent, the
    named environment variable; if that is also absent, the literal
    default." *)
Definition precedence {A} (explicit from_env : option A) (literal : A) : A :=
  match explicit with
  | Some v => v
  | None =>
      match from_env with
      | Some e => e
      | None => literal
      end
  end.

(** The same order, where a source counts as given only when its value is
    truthy (a non-empty string, a non-zero number). *)
Definition first_truthy {A} `{Truthy A} (explicit from_env : option A) (literal : A) : A :=
  or_else explicit (or_else from_env literal).

(** The same order, where the explicit value counts when it is not
    [undefined] and the environment value when it is truthy. *)
Definition defined_then_truthy {A} `{Truthy A} (explicit from_env : option A)
    (literal : A) : A :=
  match explicit with
  | Some v => v
  | None => or_else from_env literal
  end.

(** A source as the [||] chains see it: one that holds an empty string or a
    zero counts as absent. *)
Definition given {A} `{Truthy A} (source : option A) : option A :=
  if truthy source then source else None.

(** A source that is absent, or present with a truthy value: not an empty
    string, not zero. *)
Definition usable {A} `{Truthy A} (source : option A) : Prop :=
  source = None ∨ truthy source = true.

(** *** The no-op cache

    "Every operation completes without error and always reports
    miss/false": what each call answers. *)
Definition noop_answer {V} (c : NoOpCache.call V) : NoOpCache.answer V :=
  match c with
  | NoOpCache.Get _ => NoOpCache.Value None
  | NoOpCache.Exists _ => NoOpCache.Boolean false
  | NoOpCache.IsConnected => NoOpCache.Boolean false
  | NoOpCache.HealthCheck => NoOpCache.Boolean false
  | NoOpCache.Connect | NoOpCache.Disconnect
  | NoOpCache.Set_ _ _ _ | NoOpCache.Delete _ => NoOpCache.Void
  end.

(** *** The validation error response *)




(** *** The cache factory

    "A Redis URL is resolvable (from config.redisUrl or the REDIS_URL
    environment variable)". *)
Definition url_resolvable (config : RedisCache.Config.t) (env : Env) : Prop :=
  ∃ url, url ≠ ""
         ∧ (RedisCache.Config.redisUrl config = Some url ∨ env !! "REDIS_URL" = Some url).

End Spec.

(** ** The six components side by side *)

Module Components.
Import Effects.

Inductive component : Type :=
| Kafka
| Postgres
| Redis
| Logger
| Pusher
| OpenAPI.

Definition config_of (c : component) : Type :=
  match c with
  | Kafka => KafkaConsumer.Config.t
  | Postgres => PostgresClient.Config.t
  | Redis => RedisCache.Config.t
  | Logger => WinstonLogger.Config.t
  | Pusher => MetricsPusher.Config.t
  | OpenAPI => OpenAPIValidator.Config.t
  end.

(** How a construction ends: the number of calls it made into a client
    library or a logger, and what it threw, if it threw. *)
Definition outcome {S E A} (r : (S * list E) * completion A) : nat * option thrown :=
  (length (trace_of r),
   match result_of r with Return _ => None | Throw e => Some e end).

(** Constructing a component from its configuration object: the class
    constructor, or the factory function where there is no class.  [loki]
    is how the constructor of the Loki transport would end. *)
Definition construct (c : component) : config_of c -> Env -> completion unit
    -> nat * option thrown :=
  match c with
  | Kafka => fun config _ _ => outcome (KafkaConsumer.new config tt)
  | Postgres => fun config env _ => outcome (PostgresClient.new config env tt)
  | Redis => fun config env _ =>
      outcome (settle (S := unit) (E := Empty_set) (RedisCache.new config env) tt)
  | Logger => fun config env loki =>
      outcome (WinstonLogger.createLogger config env loki tt)
  | Pusher => fun config env _ =>
      outcome (settle (S := unit) (E := Empty_set) (MetricsPusher.new config env) tt)
  | OpenAPI => fun config env _ =>
      outcome (OpenAPIValidator.createOpenAPIMiddleware config env tt)
  end.

(** Whether the configuration object has the property [field].  A property
    the configuration type of the component does not declare is never
    there. *)
Definition supplied (c : component) : config_of c -> string -> bool :=
  match c with
  | Kafka => fun config field =>
      if decide (field = "serviceName") then bool_decide (is_Some (KafkaConsumer.Config.serviceName config))
      else if decide (field = "brokers") then bool_decide (is_Some (KafkaConsumer.Config.brokers config))
      else if decide (field = "username") then bool_decide (is_Some (KafkaConsumer.Config.username config))
      else if decide (field = "password") then bool_decide (is_Some (KafkaConsumer.Config.password config))
      else if decide (field = "groupId") then bool_decide (is_Some (KafkaConsumer.Config.groupId config))
      else false
  | Postgres => fun config field =>
      if decide (field = "serviceName") then bool_decide (is_Some (PostgresClient.Config.serviceName config))
      else if decide (field = "schemaName") then bool_decide (is_Some (PostgresClient.Config.schemaName config))
      else false
  | Redis => fun config field =>
      if decide (field = "serviceName") then bool_decide (is_Some (RedisCache.Config.serviceName config))
      else false
  | Logger => fun config field =>
      if decide (field = "serviceName") then bool_decide (is_Some (WinstonLogger.Config.serviceName config))
      else false
  | Pusher => fun config field =>
      if decide (field = "serviceName") then bool_decide (is_Some (MetricsPusher.Config.serviceName config))
      else false
  | OpenAPI => fun config field =>
      if decide (field = "schemaPath") then bool_decide (is_Some (OpenAPIValidator.Config.schemaPath config))
      else false
  end.

(** The fields each constructor checks, in the order of its checks. *)
Definition required (c : component) : list string :=
  match c with
  | Kafka => ["serviceName"; "brokers"; "username"; "password"; "groupId"]
  | Postgres => ["serviceName"; "schemaName"]
  | Redis => ["serviceName"]
  | Logger => ["serviceName"]
  | Pusher => ["serviceName"]
  | OpenAPI => ["schemaPath"]
  end.

(** The required fields in the words of the specification: "serviceName
    everywhere; additionally brokers, username, password, groupId for the
    Kafka consumer; schemaName for the Postgres client; schemaPath for the
    OpenAPI middleware". *)
Definition spec_required (c : component) : list string :=
  "serviceName" ::
  match c with
  | Kafka => ["brokers"; "username"; "password"; "groupId"]
  | Postgres => ["schemaName"]
  | OpenAPI => ["schemaPath"]
  | Redis | Logger | Pusher => []
  end.

End Components.

(** ** Vocabulary for reading inputs and traces

    Shapes of exposition lines, and what a trace or a sequence of calls
    holds, in the words the further properties of the sources use. *)

Module Reading.
Import JS Effects.

(** *** Exposition-format lines *)

(** A metric name: a letter, [_] or [:], then letters, digits, [_], [:]. *)
Definition valid_name (name : string) : bool :=
  match name with
  | String c rest =>
      MetricsPusher.name_start c && all_chars MetricsPusher.name_char rest
  | EmptyString => false
  end.

(** A non-empty run of white space. *)
Definition blanks (s : string) : bool := truthy_str s && all_chars is_space s.

(** A non-empty run of digits. *)
Definition digits (s : string) : bool := truthy_str s && all_chars is_digit s.

(** A non-empty run of the characters a value is written with. *)
Definition value_text (s : string) : bool :=
  truthy_str s && all_chars MetricsPusher.value_char s.

(** The label block of a sample line: none, or braces around any text. *)
Definition label_block (s : string) : Prop :=
  s = "" ∨ ∃ body, s = "{" +:+ body +:+ "}".

(** The timestamp of a sample line: none, or white space and digits. *)
Definition timestamp (s : string) : Prop :=
  s = "" ∨ ∃ ws ds, s = ws +:+ ds ∧ blanks ws = true ∧ digits ds = true.

(** A text that does not go on with a character of the class [p]. *)
Definition stops (p : ascii -> bool) (s : string) : Prop :=
  match s with
  | String c _ => p c = false
  | EmptyString => True
  end.

(** A text without a line feed. *)
Definition one_line (s : string) : bool :=
  all_chars (fun c => negb (Nat.eqb (code c) 10)) s.

(** *** The Kafka consumer *)

(** The messages the client library delivers during a sequence of calls,
    in order. *)
Definition deliveries (ops : list KafkaConsumer.op) : list KafkaConsumer.Delivery :=
  omap (fun o => match o with
                 | KafkaConsumer.Deliver d => Some d
                 | _ => None
                 end) ops.

(** The clock reading taken at the last of them. *)
Definition last_clock (ds : list KafkaConsumer.Delivery) : option Z :=
  KafkaConsumer.now <$> last ds.

(** Whether a [subscribe] has gone through and no [disconnect] has gone
    through since. *)
Definition subscribed (ops : list KafkaConsumer.op) : bool :=
  foldl (fun b o => match o with
                    | KafkaConsumer.Subscribe _ _ (Return _) (Return _) => true
                    | KafkaConsumer.Disconnect (Return _) => false
                    | _ => b
                    end) false ops.

(** The calls of [consumer.disconnect()] in a trace. *)
Definition client_disconnects (t : list KafkaConsumer.event) : nat :=
  length (List.filter (fun e => match e with
                                | KafkaConsumer.EDisconnect => true
                                | _ => false
                                end) t).

(** The log calls of a trace. *)
Definition consumer_logs (t : list KafkaConsumer.event) : list (level * string) :=
  omap (fun e => match e with
                 | KafkaConsumer.ELog l => Some (log_level l, log_message l)
                 | _ => None
                 end) t.

(** Whether every [subscribe] among the calls has failed. *)
Definition never_subscribed (ops : list KafkaConsumer.op) : bool :=
  forallb (fun o => match o with
                    | KafkaConsumer.Subscribe _ _ (Return _) (Return _) => false
                    | _ => true
                    end) ops.

(** *** The Postgres client *)

(** Whether a [connect] has gone through and no [disconnect] has gone
    through since, for a client whose flag was [connected] before. *)
Definition pool_connected (ops : list PostgresClient.op) (connected : bool) : bool :=
  foldl (fun b o => match o with
                    | PostgresClient.Connect _ _ (Return _) => true
                    | PostgresClient.Disconnect (Return _) => false
                    | _ => b
                    end) connected ops.

(** The log calls of a trace. *)
Definition pool_logs (t : list PostgresClient.event) : list LogEntry :=
  omap (fun e => match e with
                 | PostgresClient.ELog l => Some l
                 | _ => None
                 end) t.

(** How a call ends that hands on what another call settles with. *)
Definition settled {A B} (f : A -> B) (c : completion A) : completion B :=
  match c with
  | Return a => Return (f a)
  | Throw e => Throw e
  end.

(** *** The Redis cache *)

(** The calls of a trace that leave for the client library. *)
Definition is_command (e : RedisCache.event) : bool :=
  match e with RedisCache.ELog _ => false | _ => true end.

Definition commands (t : list RedisCache.event) : list RedisCache.event :=
  List.filter is_command t.

Definition is_quit (e : RedisCache.event) : bool :=
  match e with RedisCache.EQuit _ => true | _ => false end.

(** Nothing but [quit] among the commands. *)
Definition only_quits (t : list RedisCache.event) : bool :=
  forallb is_quit (commands t).

(** The log calls of a trace, as level and message. *)
Definition cache_logs (t : list RedisCache.event) : list (level * string) :=
  omap (fun e => match e with
                 | RedisCache.ELog l => Some (log_level l, log_message l)
                 | _ => None
                 end) t.

Definition is_connect {T} (o : RedisCache.op T) : bool :=
  match o with RedisCache.Connect _ _ => true | _ => false end.

(** No call of [connect()] among the calls. *)
Definition without_connect {T} (ops : list (RedisCache.op T)) : bool :=
  forallb (fun o => negb (is_connect o)) ops.

End Reading.

(** ** Sample inputs

    Concrete configurations, environments and events on which the
    statements below are exercised. *)

Module Samples.
Import Effects.

(** A pusher for the service [svc] with an endpoint and no interval of its
    own, an empty registry, and a remote end that accepts. *)
Definition pusher_config : MetricsPusher.Config.t :=
  MetricsPusher.Config.mk (Some "svc")
    (Some "http://alloy:9091/api/v1/metrics/write") None None None.

Definition pusher : MetricsPusher.MetricsPusher :=
  MetricsPusher.mkPusher None 15000 "http://alloy:9091/api/v1/metrics/write"
    "svc" "development" false ConsoleLogger.

Definition quiet : MetricsPusher.PushEnv :=
  MetricsPusher.mkPushEnv (Return "") (Return tt).

(** A registry with one sample and a remote end that refuses. *)
Definition refused : MetricsPusher.PushEnv :=
  MetricsPusher.mkPushEnv (Return "requests_total 42")
    (Throw (ErrorObj "connect ECONNREFUSED")).

(** A subscribed consumer, a message on which the handler throws and one on
    which it returns. *)
Definition consumer : KafkaConsumer.KafkaConsumer :=
  KafkaConsumer.mkConsumer "svc" ConsoleLogger true
    (KafkaConsumer.mkStats 0 0 None true).

Definition poisoned : KafkaConsumer.Delivery :=
  KafkaConsumer.mkDelivery (KafkaConsumer.mkMessage "orders" 0 "41")
    (Throw (ErrorObj "boom")) 1000.

Definition healthy : KafkaConsumer.Delivery :=
  KafkaConsumer.mkDelivery (KafkaConsumer.mkMessage "orders" 0 "42")
    (Return tt) 2000.

(** A Kafka configuration that lacks [groupId] only. *)
Definition kafka_without_groupId : KafkaConsumer.Config.t :=
  KafkaConsumer.Config.mk (Some "svc") (Some ["kafka:9092"]) (Some "user")
    (Some "pass") None None None None None None None.


(** A cache configuration and an environment that enables caching. *)
Definition cache_config : RedisCache.Config.t :=
  RedisCache.Config.mk (Some "svc") None None None None.

Definition cache_env : Env :=
  <[ "REDIS_CACHE_ENABLED" := "true" ]> {[ "REDIS_URL" := "redis://cache:6379" ]}.

(** A Postgres configuration without connection settings, and an
    environment that names the host. *)
Definition postgres_config : PostgresClient.Config.t :=
  PostgresClient.Config.mk (Some "svc") (Some "app") None None None None None
    None None None None None.

Definition postgres_env : Env := {[ "PGHOST" := "db.internal" ]}.

(** A complete Kafka configuration and the consumer it constructs. *)
Definition kafka_config : KafkaConsumer.Config.t :=
  KafkaConsumer.Config.mk (Some "svc") (Some ["kafka:9092"]) (Some "user")
    (Some "pass") (Some "orders-group") None None None None None None.

Definition fresh_consumer : KafkaConsumer.KafkaConsumer :=
  KafkaConsumer.mkConsumer "svc" ConsoleLogger false
    (KafkaConsumer.mkStats 0 0 None false).

(** A cache of booleans: the two values as JSON writes and reads them. *)
Definition stringify_bool (b : bool) : completion (option string) :=
  Return (Some (if b then "true" else "false")).

Definition parse_bool (text : string) : completion (option bool) :=
  if String.eqb text "true" then Return (Some true)
  else if String.eqb text "false" then Return (Some false)
  else if String.eqb text "null" then Return None
  else Throw (ErrorObj "Unexpected token").

(** The cache [cache_config] constructs in an empty environment, before
    and after a [connect()] that goes through. *)
Definition cache : RedisCache.RedisCache :=
  RedisCache.mkCache "svc" "redis://localhost:6379" 3600 "rr:" ConsoleLogger false.

Definition connected_cache : RedisCache.Sys :=
  RedisCache.mkSys
    (RedisCache.mkCache "svc" "redis://localhost:6379" 3600 "rr:" ConsoleLogger true)
    (Some 0%nat) 1.

(** A logger configuration that turns Loki on. *)
Definition logger_config : WinstonLogger.Config.t :=
  WinstonLogger.Config.mk (Some "svc") None None (Some true) None None.

(** A validator configuration that ignores two paths. *)
Definition openapi_config : OpenAPIValidator.Config.t :=
  OpenAPIValidator.Config.mk (Some "./openapi.yaml") None None
    (Some [OpenAPIValidator.PathString "/health";
           OpenAPIValidator.PathString "/metrics(v2)"]) None.

End Samples.

(** * Properties *)

(** Runs a computation of the monad [M]: unfolds its operations and the
    small helpers the components build on them, and leaves the methods
    themselves folded. *)
Ltac run_monad :=
  cbv [mbind mret Effects.M_bind Effects.M_ret Effects.bind Effects.ret
       Effects.get Effects.put Effects.emit Effects.settle Effects.throw
       Effects.try_catch Effects.trace_of Effects.state_of Effects.result_of
       MetricsPusher.log MetricsPusher.update MetricsPusher.setInterval
       MetricsPusher.clearInterval
       KafkaConsumer.log KafkaConsumer.update_stats KafkaConsumer.set_running
       PostgresClient.log Components.outcome].

(** ** Strings *)

Module StringFacts.
Import JS.

Lemma append_cons c a b : String c a +:+ b = String c (a +:+ b).
Proof. reflexivity. Qed.

Lemma append_empty b : "" +:+ b = b.
Proof. reflexivity. Qed.

Lemma span_app p s : fst (span p s) +:+ snd (span p s) = s.
Proof.
  induction s as [|c s IH]; simpl; [reflexivity|].
  destruct (p c); simpl; [|reflexivity].
  destruct (span p s) as [a b]; simpl in *.
  by rewrite append_cons, IH.
Qed.

Lemma span_all p s : all_chars p (fst (span p s)) = true.
Proof.
  induction s as [|c s IH]; simpl; [reflexivity|].
  destruct (p c) eqn:Hc; simpl; [|reflexivity].
  destruct (span p s) as [a b]; simpl in *. by rewrite Hc, IH.
Qed.

(** What follows the longest run does not start with a character of the class. *)
Lemma span_stop p s c r : snd (span p s) = String c r → p c = false.
Proof.
  induction s as [|x s IH]; simpl; [discriminate|].
  destruct (p x) eqn:Hx; simpl.
  - destruct (span p s) as [a b]; simpl in *. exact IH.
  - intros [= -> ->]. exact Hx.
Qed.

Lemma str_take_app a b : str_take (String.length a) (a +:+ b) = a.
Proof.
  induction a as [|c a IH]; [by destruct b|].
  rewrite append_cons. simpl. by rewrite IH.
Qed.

Lemma str_take_all s : str_take (String.length s) s = s.
Proof. induction s as [|c s IH]; simpl; [done|]. by rewrite IH. Qed.

Lemma str_take_span p s : str_take (String.length (fst (span p s))) s = fst (span p s).
Proof. rewrite <- (span_app p s) at 2. apply str_take_app. Qed.

Lemma trimStart_blank s : all_chars is_space (trimStart s) = all_chars is_space s.
Proof.
  induction s as [|c s IH]; simpl; [done|].
  destruct (is_space c) eqn:Hc; simpl; [done|]. by rewrite Hc.
Qed.

Lemma trimEnd_empty s : truthy_str (trimEnd s) = negb (all_chars is_space s).
Proof.
  induction s as [|c s IH]; simpl; [done|].
  destruct (trimEnd s) eqn:Ht; simpl in *.
  - destruct (is_space c); simpl; [|done].
    by destruct (all_chars is_space s).
  - destruct (all_chars is_space s); [done|]. by rewrite andb_false_r.
Qed.

(** [!line.trim()] holds exactly for the lines made of white space. *)
Lemma trim_blank s : negb (truthy_str (trim s)) = all_chars is_space s.
Proof.
  unfold trim. rewrite trimEnd_empty, negb_involutive. apply trimStart_blank.
Qed.

Lemma startsWith_hash s : startsWith "#" s = Spec.is_comment s.
Proof.
  destruct s as [|c s]; simpl; [done|].
  rewrite andb_true_r.
  destruct (Ascii.eqb_spec "#" c) as [<-|Hne]; [done|].
  destruct c as [[] [] [] [] [] [] [] []]; try done. 
Qed.

End StringFacts.

(** ** Greedy repetition *)

Module RegexFacts.
Import JS Regex StringFacts.

Lemma star_loop_greedy p (k : cont) :
  (∀ pos x s c, p x = true → k pos (String x s) c = None) →
  ∀ pos s c,
    star_loop p k pos s c
    = k (pos + String.length (fst (span p s))) (snd (span p s)) c.
Proof.
  intros Hk pos s. revert pos.
  induction s as [|x s IH]; intros pos c; simpl.
  - by rewrite Nat.add_0_r.
  - destruct (p x) eqn:Hx; simpl.
    + rewrite IH. destruct (span p s) as [a b]; simpl.
      rewrite Nat.add_succ_r.
      destruct (k (S (pos + String.length a)) b c) eqn:Hr; [done|].
      by apply Hk.
    + by rewrite Nat.add_0_r.
Qed.

Lemma star_loop_longest p (k : cont) pos s c r :
  k (pos + String.length (fst (span p s))) (snd (span p s)) c = Some r →
  star_loop p k pos s c = Some r.
Proof.
  revert pos. induction s as [|x s IH]; intros pos; simpl.
  - by rewrite Nat.add_0_r.
  - destruct (p x) eqn:Hx; simpl.
    + destruct (span p s) as [a b] eqn:Hs; simpl in *.
      rewrite Nat.add_succ_r. intros Hr.
      by rewrite (IH (S pos) Hr).
    + by rewrite Nat.add_0_r.
Qed.

Lemma plus_greedy p (k : cont) :
  (∀ pos x s c, p x = true → k pos (String x s) c = None) →
  ∀ pos s c,
    rmatch (Plus p) pos s c k
    = if truthy_str (fst (span p s))
      then k (pos + String.length (fst (span p s))) (snd (span p s)) c
      else None.
Proof.
  intros Hk pos s c. unfold Plus. simpl.
  destruct s as [|x s]; simpl; [done|].
  destruct (p x) eqn:Hx; simpl; [|done].
  rewrite (star_loop_greedy p k Hk).
  destruct (span p s) as [a b]; simpl. by rewrite Nat.add_succ_r.
Qed.

End RegexFacts.

(** ** The two patterns of the metrics parser *)

Module PatternFacts.
Import JS Regex MetricsPusher StringFacts RegexFacts.

Lemma name_start_char c : name_start c = true → name_char c = true.
Proof.
  unfold name_start, name_char. intros H.
  repeat (apply orb_prop in H as [H|H]); rewrite H; simpl;
    rewrite ?orb_true_r; reflexivity.
Qed.

Lemma space_not_value c : is_space c = true → value_char c = false.
Proof. destruct c as [[] [] [] [] [] [] [] []]; vm_compute; congruence. Qed.

Lemma value_not_space c : value_char c = true → is_space c = false.
Proof. destruct c as [[] [] [] [] [] [] [] []]; vm_compute; congruence. Qed.

Lemma space_not_digit c : is_space c = true → is_digit c = false.
Proof. destruct c as [[] [] [] [] [] [] [] []]; vm_compute; congruence. Qed.

(** Away from the start of the input the anchored pattern never matches. *)
Lemma name_re_anchored pos s : search (Grp 0 name_re) (S pos) s = None.
Proof.
  revert pos. induction s as [|x s IH]; intros pos; simpl; [done|].
  apply IH.
Qed.

(** The name pattern, searched from the start of the line. *)
Lemma name_re_search line :
  (λ m, group m 1) <$> search (Grp 0 name_re) 0 line = Spec.metric_name line.
Proof.
  unfold Spec.metric_name.
  destruct line as [|x s]; [done|].
  cbn [search]. 
  destruct (name_start x) eqn:Hx.
  - assert (Hm : rmatch (Grp 0 name_re) 0 (String x s) ∅ (λ _ _ c, Some c)
             = Some (<[0%nat := String x (fst (span name_char s))]>
                      (<[1%nat := String x (fst (span name_char s))]> ∅))).
    { simpl. rewrite Hx.
      apply star_loop_longest. simpl.
      by rewrite str_take_span. }
    rewrite Hm. simpl. rewrite (name_start_char _ Hx).
    destruct (span name_char s) as [a b]; simpl.
    unfold group. by rewrite lookup_insert_ne, lookup_insert_eq.
  - assert (Hm : rmatch (Grp 0 name_re) 0 (String x s) ∅ (λ _ _ c, Some c) = None).
    { simpl. by rewrite Hx. }
    by rewrite Hm, name_re_anchored.
Qed.

(** X2. [nameMatch[1]] is the leading metric name of the line: the longest
    run of name characters at its start, when the first character is a
    letter, [_] or [:]; there is no match otherwise. *)
Lemma nameMatch_spec line :
  (λ m, group m 1) <$> str_match line name_re = Spec.metric_name line.
Proof. unfold str_match. apply name_re_search. Qed.

End PatternFacts.

Module ValueFacts.
Import JS Regex MetricsPusher StringFacts RegexFacts PatternFacts.

#[local] Arguments Plus : simpl never.

Lemma valueMatch_at pos s :
  (λ m, group m 1) <$> rmatch (Grp 0 value_re) pos s ∅ (λ _ _ c, Some c)
  = Spec.value_at s.
Proof.
  unfold value_re, Spec.value_at. cbn [rmatch].
  rewrite plus_greedy.
  2:{ intros p x s' c Hx. cbn [rmatch]. unfold Plus. cbn [rmatch].
      by rewrite (space_not_value _ Hx). }
  destruct (span is_space s) as [ws r1]; cbn [fst snd].
  destruct (truthy_str ws); [|by destruct (span value_char r1)].
  cbn [rmatch]. rewrite plus_greedy.
  2:{ intros p x s' c Hx. cbn [rmatch]. unfold Plus. cbn [rmatch].
      by rewrite (value_not_space _ Hx). }
  pose proof (str_take_span value_char r1) as Htok.
  destruct (span value_char r1) as [tok r2]; cbn [fst snd] in *.
  destruct (truthy_str tok); [|done].
  cbn [andb]. cbn [rmatch].
  rewrite plus_greedy.
  2:{ intros p x s' c Hx. unfold Plus. cbn [rmatch].
      by rewrite (space_not_digit _ Hx). }
  replace (pos + String.length ws + String.length tok - (pos + String.length ws))
    with (String.length tok) by lia.
  rewrite Htok.
  destruct r2 as [|y r2'].
  { cbn. unfold group. by rewrite lookup_insert_ne, lookup_insert_eq. }
  destruct (span is_space (String y r2')) as [ws2 r3]; cbn [fst snd].
  destruct (truthy_str ws2); [|by destruct (span is_digit r3)].
  rewrite plus_greedy.
  2:{ intros p x s' c Hx. done. }
  destruct (span is_digit r3) as [ds r4]; cbn [fst snd].
  destruct (truthy_str ds); [|done].
  cbn [andb]. destruct r4; cbn.
  - unfold group. by rewrite lookup_insert_ne, lookup_insert_eq.
  - done.
Qed.

Lemma valueMatch_search pos line :
  (λ m, group m 1) <$> search (Grp 0 value_re) pos line = Spec.value_token line.
Proof.
  revert pos. induction line as [|x s IH]; intros pos.
  - cbn [search Spec.value_token].
    rewrite <- (valueMatch_at pos "").
    destruct (rmatch (Grp 0 value_re) pos "" ∅ (λ _ _ c, Some c)); reflexivity.
  - cbn [search Spec.value_token].
    rewrite <- (valueMatch_at pos (String x s)).
    destruct (rmatch (Grp 0 value_re) pos (String x s) ∅ (λ _ _ c, Some c));
      [reflexivity|].
    apply IH.
Qed.

(** X3. [valueMatch[1]] is the value token at the first place of the line,
    from the left, that consists of white space, a run of the characters
    [0-9.eE+-] and, optionally, white space and digits, up to the end of
    the line; there is no match when no place does. *)
Lemma valueMatch_spec line :
  (λ m, group m 1) <$> str_match line value_re = Spec.value_token line.
Proof. apply valueMatch_search. Qed.

End ValueFacts.

(** ** The metrics parser *)

Module ParseFacts.
Import JS Regex MetricsPusher Effects StringFacts RegexFacts PatternFacts ValueFacts.

(** The loop body adds the sample of the line, if the line has one. *)
Lemma parse_line_sample metrics line :
  parse_line metrics line
  = match Spec.sample line with
    | Some (name, v) => obj_set metrics name v
    | None => metrics
    end.
Proof.
  unfold parse_line, Spec.sample, Spec.is_blank.
  rewrite startsWith_hash, trim_blank.
  destruct (Spec.is_comment line || all_chars is_space line); [done|].
  rewrite <- name_re_search, <- (valueMatch_search 0).
  fold (str_match line name_re). fold (str_match line value_re).
  destruct (str_match line name_re) as [nm|]; [|done].
  destruct (str_match line value_re) as [vm|]; [|done].
  simpl. by destruct (parseFloat (group vm 1)).
Qed.

Lemma obj_set_lookup {V} (obj : gmap string V) key value name :
  name ≠ "__proto__" →
  obj_set obj key value !! name
  = if decide (key = name) then Some value else obj !! name.
Proof.
  intros Hn. unfold obj_set.
  destruct (decide (key = "__proto__")) as [->|Hk].
  - by rewrite decide_False.
  - apply lookup_insert.
Qed.

Lemma obj_set_proto {V} (obj : gmap string V) key value :
  obj_set obj key value !! "__proto__" = obj !! "__proto__".
Proof.
  unfold obj_set. destruct (decide (key = "__proto__")) as [->|Hk]; [done|].
  by rewrite lookup_insert_ne.
Qed.

Lemma foldl_parse_line_lookup lines metrics name :
  name ≠ "__proto__" →
  foldl parse_line metrics lines !! name
  = match Spec.last_sample name lines with
    | Some v => Some v
    | None => metrics !! name
    end.
Proof.
  intros Hn. revert metrics.
  induction lines as [|line rest IH]; intros metrics; simpl; [done|].
  rewrite IH. destruct (Spec.last_sample name rest); [done|].
  rewrite parse_line_sample.
  destruct (Spec.sample line) as [[n v]|]; [|done].
  rewrite obj_set_lookup by done.
  by destruct (decide (n = name)).
Qed.

Lemma foldl_parse_line_proto lines metrics :
  foldl parse_line metrics lines !! "__proto__" = metrics !! "__proto__".
Proof.
  revert metrics. induction lines as [|line rest IH]; intros metrics; simpl; [done|].
  rewrite IH, parse_line_sample.
  destruct (Spec.sample line) as [[n v]|]; [|done].
  apply obj_set_proto.
Qed.

(** X1. Every metric name but one maps to the value of the last line that
    has a sample of that name, and to nothing when no line has; the name
    [__proto__] maps to nothing whatever the lines say. *)
Theorem parsePrometheusMetrics_lookup metricsString name :
  parsePrometheusMetrics metricsString !! name
  = if decide (name = "__proto__") then None
    else Spec.last_sample name (split_lines metricsString).
Proof.
  unfold parsePrometheusMetrics.
  destruct (decide (name = "__proto__")) as [->|Hn].
  - by rewrite foldl_parse_line_proto.
  - rewrite foldl_parse_line_lookup by done.
    by destruct (Spec.last_sample name (split_lines metricsString)).
Qed.






(** The same text with the name [up] yields its entry. *)
Example ordinary_line_is_kept :
  parsePrometheusMetrics "up 1" = {[ "up" := Fin 1 ]}.
Proof. vm_compute. reflexivity. Qed.

(** Two series of one metric collide: the later line wins. *)
Example later_line_wins :
  parsePrometheusMetrics ("a{l=x} 1" +:+ nl +:+ "# c" +:+ nl +:+ "a{l=y} 2 1700")
  = {[ "a" := Fin 2 ]}.
Proof. vm_compute. reflexivity. Qed.

(** A sample whose value is not numeric but which carries a timestamp is
    recorded with the timestamp as its value: the timestamp is then the
    first trailing numeric token of the line. *)
Example timestamp_taken_for_value :
  parsePrometheusMetrics "a NaN 1700" = {[ "a" := Fin 1700 ]}.
Proof. vm_compute. reflexivity. Qed.

End ParseFacts.

(** ** One push cycle *)

Module PusherFacts.
Import JS MetricsPusher Effects.

(** One push, case by case. *)
Lemma pushMetrics_unfold w s :
  pushMetrics w s
  = let p := this s in
    if negb (truthy (alloyUrl p)) then ((s, []), Return tt)
    else
      match registry w with
      | Throw e =>
          ((s, [ERegistryMetrics;
                ELog (mkLog (logger p) Error "Failed to push metrics"
                        [component p; ("error", error_message e)])]), Return tt)
      | Return text =>
          let metrics := parsePrometheusMetrics text in
          if Nat.eqb (keys_length metrics) 0 then
            ((s, [ERegistryMetrics;
                  ELog (mkLog (logger p) Warn "No metrics to push" [component p])]),
             Return tt)
          else
            let call := ERemoteWrite metrics (alloyUrl p)
                          [("service", serviceName p); ("environment", environment p)] in
            match remote w with
            | Return _ =>
                ((s, [ERegistryMetrics; call;
                      ELog (mkLog (logger p) Debug "Pushed metrics successfully"
                              [component p])]), Return tt)
            | Throw e =>
                ((s, [ERegistryMetrics; call;
                      ELog (mkLog (logger p) Error "Failed to push metrics"
                              [component p; ("error", error_message e)])]), Return tt)
            end
      end.
Proof.
  unfold pushMetrics. run_monad. cbv zeta.
  destruct (negb (truthy (alloyUrl (this s)))); [done|].
  destruct (registry w) as [text|e]; [|done].
  destruct (Nat.eqb (keys_length (parsePrometheusMetrics text)) 0); [done|].
  destruct (remote w) as [[]|e]; done.
Qed.


Lemma keys_length_zero {V} (obj : gmap string V) :
  Nat.eqb (keys_length obj) 0 = true ↔ obj = ∅.
Proof.
  unfold keys_length. rewrite Nat.eqb_eq. apply map_size_empty_iff.
Qed.

(** A push settles with [undefined] and leaves the instance as it was. *)
Lemma pushMetrics_returns w s :
  pushMetrics w s = ((s, trace_of (pushMetrics w s)), Return tt).
Proof.
  rewrite pushMetrics_unfold. cbv zeta.
  destruct (negb (truthy (alloyUrl (this s)))); [done|].
  destruct (registry w) as [text|e0]; [|done].
  destruct (Nat.eqb (keys_length (parsePrometheusMetrics text)) 0); [done|].
  by destruct (remote w) as [[]|e1].
Qed.

(** C2. One push never throws to its caller, whatever the endpoint, the
    registry and the remote end: it returns normally and leaves the instance
    as it was.  When the registry text yields no sample, no forwarding call
    is made and, on a run that gets past the endpoint check, the warning "No
    metrics to push" is logged and nothing else.  When the forwarding call
    fails, the failure is logged under "Failed to push metrics" with its
    message, right after the call, and is not passed on; so is a failure of
    the registry. *)
Theorem pushMetrics_never_throws (s : Sys) (w : PushEnv) :
  result_of (pushMetrics w s) = Return tt
  ∧ state_of (pushMetrics w s) = s
  ∧ (∀ text,
       registry w = Return text →
       parsePrometheusMetrics text = ∅ →
       Spec.forwards (trace_of (pushMetrics w s)) = 0%nat
       ∧ (truthy (alloyUrl (this s)) = true →
          Spec.logs (trace_of (pushMetrics w s)) = [(Warn, "No metrics to push")]))
  ∧ (∀ text e,
       truthy (alloyUrl (this s)) = true →
       registry w = Return text →
       parsePrometheusMetrics text ≠ ∅ →
       remote w = Throw e →
       trace_of (pushMetrics w s)
       = [ERegistryMetrics;
          ERemoteWrite (parsePrometheusMetrics text) (alloyUrl (this s))
            [("service", serviceName (this s));
             ("environment", environment (this s))];
          ELog (mkLog (logger (this s)) Error "Failed to push metrics"
                  [component (this s); ("error", error_message e)])])
  ∧ (∀ e,
       truthy (alloyUrl (this s)) = true →
       registry w = Throw e →
       trace_of (pushMetrics w s)
       = [ERegistryMetrics;
          ELog (mkLog (logger (this s)) Error "Failed to push metrics"
                  [component (this s); ("error", error_message e)])]).
Proof.
  rewrite pushMetrics_unfold. cbv zeta.
  destruct (truthy (alloyUrl (this s))) eqn:Hurl; cbn [negb].
  2:{ split; [done|]. split; [done|]. split; [|split; intros; congruence].
      intros text _ _. split; [done|]. intros Ht. congruence. }
  destruct (registry w) as [text|e0] eqn:Hreg.
  2:{ split; [done|]. split; [done|]. split; [intros; congruence|].
      split; [intros; congruence|]. intros e _ [= <-]. done. }
  pose proof (keys_length_zero (parsePrometheusMetrics text)) as Hz.
  destruct (Nat.eqb (keys_length (parsePrometheusMetrics text)) 0) eqn:Hempty.
  { split; [done|]. split; [done|]. split; [by intros text' _ _|].
    split; [|intros; congruence].
    intros text' e _ [= <-] Hne. destruct Hne. by apply Hz. }
  assert (Hne : parsePrometheusMetrics text ≠ ∅).
  { intros Hnone. apply Hz in Hnone. discriminate Hnone. }
  destruct (remote w) as [[]|e1] eqn:Hrem.
  - split; [done|]. split; [done|]. split; [by intros text' [= <-] Hnone|].
    split; intros; congruence.
  - split; [done|]. split; [done|]. split; [by intros text' [= <-] Hnone|].
    split; [|intros; congruence].
    intros text' e _ [= <-] _ [= <-]. reflexivity.
Qed.

(** One push of a registry that holds [requests_total 42] forwards the
    sample set with that entry under the two labels of the instance. *)
Example push_requests_total :
  trace_of (pushMetrics (mkPushEnv (Return "requests_total 42") (Return tt))
              (boot Samples.pusher))
  = [ERegistryMetrics;
     ERemoteWrite {[ "requests_total" := Fin 42 ]}
       "http://alloy:9091/api/v1/metrics/write"
       [("service", "svc"); ("environment", "development")];
     ELog (mkLog ConsoleLogger Debug "Pushed metrics successfully"
             [("component", "svc/MetricsPusher")])].
Proof. vm_compute. reflexivity. Qed.

End PusherFacts.

(** ** The pusher's life cycle *)

Module LifecycleFacts.
Import JS MetricsPusher Effects PusherFacts.

(** [start()], case by case. *)
Lemma start_unfold w s :
  start w s
  = let p := this s in
    if isRunning p then
      ((s, [ELog (mkLog (logger p) Warn "Metrics pusher already running" [component p])]),
       Return tt)
    else if negb (truthy (alloyUrl p)) then
      ((s, [ELog (mkLog (logger p) Warn
                    "Alloy URL not configured - metrics push disabled" [component p])]),
       Return tt)
    else
      let s1 := mkSys (set_isRunning true p) (timers s) (next_timer s) in
      let id := next_timer s in
      ((mkSys (set_intervalId (Some id) (set_isRunning true p))
          (<[id := pushIntervalMs p]> (timers s)) (S id),
        ELog (mkLog (logger p) Info "Starting metrics pusher"
                [component p; ("url", alloyUrl p)])
        :: trace_of (pushMetrics w s1)
        ++ [ELog (mkLog (logger p) Info "Metrics pusher started successfully"
                    [component p])]),
       Return tt).
Proof.
  unfold start. run_monad. cbv zeta.
  destruct (isRunning (this s)); [done|].
  destruct (negb (truthy (alloyUrl (this s)))); [done|].
  cbn [this timers next_timer].
  rewrite pushMetrics_returns. cbn [this timers next_timer].
  cbn [set_isRunning set_intervalId logger pushIntervalMs].
  rewrite app_nil_r. reflexivity.
Qed.

(** [stop()], case by case. *)
Lemma stop_unfold s :
  stop s
  = let p := this s in
    if negb (isRunning p) then ((s, []), Return tt)
    else
      ((mkSys (set_isRunning false (set_intervalId None p))
          (match intervalId p with
           | Some id => delete id (timers s)
           | None => timers s
           end) (next_timer s),
        [ELog (mkLog (logger p) Info "Metrics pusher stopped" [component p])]),
       Return tt).
Proof.
  unfold stop. run_monad. cbv zeta.
  destruct (negb (isRunning (this s))); [done|].
  destruct s as [[i ms url name env r lg] ts nt]; simpl.
  destruct i; reflexivity.
Qed.


Lemma pushMetrics_scrapes w s :
  Spec.scrapes (trace_of (pushMetrics w s))
  = if truthy (alloyUrl (this s)) then 1%nat else 0%nat.
Proof.
  rewrite pushMetrics_unfold. cbv zeta.
  destruct (truthy (alloyUrl (this s))); simpl; [|done].
  destruct (registry w); [|done].
  destruct (Nat.eqb _ 0); [done|].
  by destruct (remote w) as [[]|].
Qed.

(** The callback of the timer is one push; it cannot throw either. *)
Lemma interval_callback_push w s :
  interval_callback w s = ((s, trace_of (pushMetrics w s)), Return tt).
Proof.
  unfold interval_callback. run_monad.
  rewrite pushMetrics_returns. simpl. by rewrite pushMetrics_returns.
Qed.

Lemma new_idle config env p :
  new config env = Return p →
  Spec.in_state (boot p) Spec.Idle
  ∧ pushIntervalMs p = (default 15 (Config.pushInterval config) * 1000)%Z.
Proof.
  unfold new. destruct (Config.serviceName config) as [name|]; [|done].
  destruct (truthy name); [|done].
  intros [= <-]. by repeat split.
Qed.

Lemma start_when_running w s :
  Spec.in_state s Spec.Running →
  start w s
  = ((s, [ELog (mkLog (logger (this s)) Warn "Metrics pusher already running"
                  [component (this s)])]), Return tt).
Proof. intros [Hr _]. rewrite start_unfold. cbv zeta. by rewrite Hr. Qed.

Lemma start_without_url w s :
  Spec.in_state s Spec.Idle →
  truthy (alloyUrl (this s)) = false →
  start w s
  = ((s, [ELog (mkLog (logger (this s)) Warn
                  "Alloy URL not configured - metrics push disabled"
                  [component (this s)])]), Return tt).
Proof.
  intros [Hr _] Hurl. rewrite start_unfold. cbv zeta. by rewrite Hr, Hurl.
Qed.

Lemma start_when_idle w s :
  Spec.in_state s Spec.Idle →
  truthy (alloyUrl (this s)) = true →
  result_of (start w s) = Return tt
  ∧ Spec.in_state (state_of (start w s)) Spec.Running
  ∧ pushIntervalMs (this (state_of (start w s))) = pushIntervalMs (this s)
  ∧ Spec.scrapes (trace_of (start w s)) = 1%nat
  ∧ ∃ s1 starting started,
      isRunning (this s1) = true ∧ timers s1 = ∅
      ∧ trace_of (start w s)
        = ELog starting :: trace_of (pushMetrics w s1) ++ [ELog started].
Proof.
  intros (Hr & Hi & Ht) Hurl. rewrite start_unfold. cbv zeta.
  rewrite Hr, Hurl. cbn [negb].
  set (s1 := mkSys (set_isRunning true (this s)) (timers s) (next_timer s)).
  assert (Hpush : Spec.scrapes (trace_of (pushMetrics w s1)) = 1%nat).
  { rewrite pushMetrics_scrapes. subst s1. cbn [this set_isRunning alloyUrl].
    by rewrite Hurl. }
  remember (trace_of (pushMetrics w s1)) as tp eqn:Htp.
  unfold result_of, state_of, trace_of. cbn [fst snd].
  split; [done|]. split.
  { split; [done|]. exists (next_timer s). split; [done|].
    cbn. by rewrite Ht. }
  split; [done|]. split.
  { unfold Spec.scrapes in *. cbn [List.filter Spec.is_scrape].
    rewrite List.filter_app, List.length_app, Hpush. done. }
  exists s1. eexists _, _. split; [done|]. split; [by subst s1|].
  rewrite Htp. reflexivity.
Qed.

Lemma stop_when_running s :
  Spec.in_state s Spec.Running →
  result_of (stop s) = Return tt
  ∧ Spec.in_state (state_of (stop s)) Spec.Idle
  ∧ Spec.logs (trace_of (stop s)) = [(Info, "Metrics pusher stopped")].
Proof.
  intros (Hr & id & Hi & Ht). rewrite stop_unfold. cbv zeta.
  rewrite Hr, Hi, Ht. cbn.
  repeat split. apply delete_singleton_eq.
Qed.

Lemma stop_when_idle s :
  Spec.in_state s Spec.Idle → stop s = ((s, []), Return tt).
Proof. intros [Hr _]. rewrite stop_unfold. cbv zeta. by rewrite Hr. Qed.

Lemma isActive_running s :
  Spec.in_state s Spec.Idle ∨ Spec.in_state s Spec.Running →
  isActive (this s) = true ↔ Spec.in_state s Spec.Running.
Proof.
  unfold isActive. intros [[Hr _]|Hrun].
  - split; [congruence|]. intros [Hr' _]. congruence.
  - split; [done|]. by intros [Hr _].
Qed.

Lemma tick_when_idle id w s :
  Spec.in_state s Spec.Idle → step (Tick id w) s = ((s, []), Return tt).
Proof.
  intros (_ & _ & Ht). cbn [step]. run_monad. by rewrite Ht, lookup_empty.
Qed.

Lemma tick_when_running id w s :
  Spec.in_state s Spec.Running →
  intervalId (this s) = Some id →
  step (Tick id w) s = ((s, trace_of (pushMetrics w s)), Return tt).
Proof.
  intros (_ & id' & Hi & Ht) Hid. rewrite Hi in Hid. injection Hid as ->.
  cbn [step]. run_monad. rewrite Ht, lookup_singleton_eq.
  rewrite interval_callback_push. reflexivity.
Qed.

(** Whatever is done to a pusher that is idle or running, it ends idle or
    running, and nothing throws. *)
Lemma step_preserves o s :
  Spec.in_state s Spec.Idle ∨ Spec.in_state s Spec.Running →
  result_of (step o s) = Return tt
  ∧ (Spec.in_state (state_of (step o s)) Spec.Idle
     ∨ Spec.in_state (state_of (step o s)) Spec.Running).
Proof.
  intros Hs. destruct o as [w| |w|id w]; cbn [step].
  - destruct Hs as [Hidle|Hrun].
    + destruct (truthy (alloyUrl (this s))) eqn:Hurl.
      * destruct (start_when_idle w s Hidle Hurl) as (Hr & Hst & _). eauto.
      * rewrite (start_without_url w s Hidle Hurl). eauto.
    + rewrite (start_when_running w s Hrun). eauto.
  - destruct Hs as [Hidle|Hrun].
    + rewrite (stop_when_idle s Hidle). eauto.
    + destruct (stop_when_running s Hrun) as (Hr & Hst & _). eauto.
  - rewrite pushMetrics_returns. eauto.
  - run_monad. destruct (timers s !! id); [|eauto].
    rewrite interval_callback_push. eauto.
Qed.

Lemma run_preserves ops s :
  Spec.in_state s Spec.Idle ∨ Spec.in_state s Spec.Running →
  result_of (run ops s) = Return tt
  ∧ (Spec.in_state (state_of (run ops s)) Spec.Idle
     ∨ Spec.in_state (state_of (run ops s)) Spec.Running).
Proof.
  revert s. induction ops as [|o ops IH]; intros s Hs; cbn [run].
  - eauto.
  - destruct (step_preserves o s Hs) as [Hr Hst].
    unfold result_of, state_of in *. run_monad.
    destruct (step o s) as [[s1 t1] r1]. cbn [fst snd] in *. subst r1.
    specialize (IH s1 Hst).
    destruct (run ops s1) as [[s2 t2] r2]. cbn [fst snd] in *. eauto.
Qed.


(** X4. As long as its methods are called one after the other, each call
    made when the one before has settled, the pusher is a two-state
    machine.  A constructed pusher is idle
    and its period is the configured number of seconds, 15 by default,
    times 1000.  Whatever sequence of calls and timer firings follows, the
    pusher is idle or running and [isActive()] is true exactly when it is
    running.  [start()] on a running pusher changes nothing and pushes
    nothing; on an idle pusher without endpoint it logs a warning and stays
    idle; on an idle pusher with an endpoint it pushes once, with the flag
    set and before any timer exists, and ends running with one timer of the
    configured period.  [stop()] on a running pusher clears the timer and
    ends idle; on an idle pusher it does nothing, so it is idempotent.  A
    firing of the timer of a running pusher is one push; nothing fires on
    an idle pusher. *)
Theorem pusher_state_machine :
  (∀ config env p,
     new config env = Return p →
     Spec.in_state (boot p) Spec.Idle
     ∧ pushIntervalMs p = (default 15 (Config.pushInterval config) * 1000)%Z)
  ∧ (∀ config env p ops,
       new config env = Return p →
       result_of (run ops (boot p)) = Return tt
       ∧ (Spec.in_state (state_of (run ops (boot p))) Spec.Idle
          ∨ Spec.in_state (state_of (run ops (boot p))) Spec.Running)
       ∧ (isActive (this (state_of (run ops (boot p)))) = true
          ↔ Spec.in_state (state_of (run ops (boot p))) Spec.Running))
  ∧ (∀ s w,
       Spec.in_state s Spec.Running →
       result_of (start w s) = Return tt
       ∧ state_of (start w s) = s
       ∧ Spec.scrapes (trace_of (start w s)) = 0%nat
       ∧ Spec.logs (trace_of (start w s)) = [(Warn, "Metrics pusher already running")])
  ∧ (∀ s w,
       Spec.in_state s Spec.Idle →
       truthy (alloyUrl (this s)) = false →
       result_of (start w s) = Return tt
       ∧ state_of (start w s) = s
       ∧ Spec.scrapes (trace_of (start w s)) = 0%nat
       ∧ Spec.logs (trace_of (start w s))
         = [(Warn, "Alloy URL not configured - metrics push disabled")])
  ∧ (∀ s w,
       Spec.in_state s Spec.Idle →
       truthy (alloyUrl (this s)) = true →
       result_of (start w s) = Return tt
       ∧ Spec.in_state (state_of (start w s)) Spec.Running
       ∧ pushIntervalMs (this (state_of (start w s))) = pushIntervalMs (this s)
       ∧ Spec.scrapes (trace_of (start w s)) = 1%nat
       ∧ ∃ s1 starting started,
           isRunning (this s1) = true ∧ timers s1 = ∅
           ∧ trace_of (start w s)
             = ELog starting :: trace_of (pushMetrics w s1) ++ [ELog started])
  ∧ (∀ s,
       Spec.in_state s Spec.Running →
       result_of (stop s) = Return tt
       ∧ Spec.in_state (state_of (stop s)) Spec.Idle)
  ∧ (∀ s, Spec.in_state s Spec.Idle → stop s = ((s, []), Return tt))
  ∧ (∀ s id w,
       Spec.in_state s Spec.Running →
       intervalId (this s) = Some id →
       step (Tick id w) s = ((s, trace_of (pushMetrics w s)), Return tt))
  ∧ (∀ s id w,
       Spec.in_state s Spec.Idle → step (Tick id w) s = ((s, []), Return tt)).
Proof.
  split; [exact new_idle|].
  split.
  { intros config env p ops Hnew.
    destruct (new_idle config env p Hnew) as [Hidle _].
    destruct (run_preserves ops (boot p) (or_introl Hidle)) as [Hr Hst].
    split; [done|]. split; [done|]. by apply isActive_running. }
  split.
  { intros s w Hrun. by rewrite (start_when_running w s Hrun). }
  split.
  { intros s w Hidle Hurl. by rewrite (start_without_url w s Hidle Hurl). }
  split; [exact (λ s w, start_when_idle w s)|].
  split.
  { intros s Hrun. destruct (stop_when_running s Hrun) as (? & ? & _). done. }
  split; [exact stop_when_idle|].
  split.
  { intros s id w. apply tick_when_running. }
  intros s id w. apply tick_when_idle.
Qed.

Lemma pusher_state_machine_witness :
  new Samples.pusher_config ∅ = Return Samples.pusher
  ∧ pushIntervalMs Samples.pusher = 15000%Z
  ∧ Spec.in_state (state_of (start Samples.quiet (boot Samples.pusher))) Spec.Running
  ∧ Spec.in_state (state_of (stop (state_of (start Samples.quiet (boot Samples.pusher))))) Spec.Idle.
Proof.
  destruct pusher_state_machine as (Hnew & _ & _ & _ & Hstart & Hstop & _).
  assert (Hc : new Samples.pusher_config ∅ = Return Samples.pusher) by reflexivity.
  destruct (Hnew Samples.pusher_config ∅ Samples.pusher Hc) as [Hidle Hms].
  destruct (Hstart (boot Samples.pusher) Samples.quiet Hidle eq_refl) as (_ & Hrun & _).
  destruct (Hstop _ Hrun) as [_ Hidle'].
  split; [exact Hc|]. split; [reflexivity|]. split; [exact Hrun|exact Hidle'].
Defined.

(** [start()] is its two halves around the push. *)
Lemma start_split w s :
  start w s
  = bind start_until_await
      (λ go : bool,
         if go then bind (pushMetrics w) (λ _, start_after_await) else ret tt) s.
Proof.
  unfold start, start_until_await, start_after_await. run_monad. cbv zeta.
  destruct (isRunning (this s)); [done|].
  destruct (negb (truthy (alloyUrl (this s)))); [done|].
  cbn [this timers next_timer].
  rewrite pushMetrics_returns. cbn [this timers next_timer app].
  cbn [set_isRunning set_intervalId logger pushIntervalMs serviceName component].
  rewrite ?app_nil_r. reflexivity.
Qed.

(** A [stop()] that runs while [start()] is still waiting for its first
    push does not stop the pusher for good: when the push has settled,
    [start()] goes on and schedules the timer all the same.  The pusher then
    reports that it is not active while its timer is scheduled, and a later
    [stop()] does nothing, so the timer is never cleared. *)
Lemma stop_during_start_leaves_timer (s : Sys) (w : PushEnv) :
  Spec.in_state s Spec.Idle →
  truthy (alloyUrl (this s)) = true →
  let suspended := state_of (start_until_await s) in
  let stopped := state_of (stop suspended) in
  let resumed := state_of (start_after_await (state_of (pushMetrics w stopped))) in
  result_of (start_until_await s) = Return true
  ∧ isActive (this suspended) = true
  ∧ isActive (this resumed) = false
  ∧ timers resumed = {[ next_timer s := pushIntervalMs (this s) ]}
  ∧ stop resumed = ((resumed, []), Return tt).
Proof.
  intros (Hr & Hi & Ht) Hurl.
  destruct s as [[i ms url name envn r lg] ts nt].
  cbn in Hr, Hi, Ht, Hurl. subst r i ts. cbv zeta.
  assert (Hs : start_until_await (mkSys (mkPusher None ms url name envn false lg) ∅ nt)
               = ((mkSys (mkPusher None ms url name envn true lg) ∅ nt,
                   [ELog (mkLog lg Info "Starting metrics pusher"
                            [("component", name +:+ "/MetricsPusher"); ("url", url)])]),
                  Return true)).
  { unfold start_until_await. run_monad. cbn. by rewrite Hurl. }
  rewrite Hs. unfold state_of, result_of. cbn [fst snd].
  rewrite stop_unfold. cbv zeta.
  cbn [this isRunning negb intervalId timers next_timer fst snd].
  rewrite pushMetrics_returns. cbn [fst snd].
  unfold start_after_await. run_monad. cbn.
  split; [done|]. split; [done|]. split; [done|]. split; [done|].
  rewrite stop_unfold. done.
Qed.

(** C3. The two-state machine does not survive a [stop()] that is called
    while [start()] is still awaiting its first push.  On the sample pusher:
    [start()] sets the flag and is suspended; [stop()] clears the flag and
    finds no timer to clear; the push settles and [start()] schedules the
    timer.  From then on [isActive()] is false although the timer is
    scheduled with the period of 15000 ms, a further [stop()] does nothing,
    and every firing of the timer still pushes. *)
Theorem stop_while_starting_keeps_timer :
  let suspended := state_of (start_until_await (boot Samples.pusher)) in
  let stopped := state_of (stop suspended) in
  let resumed :=
    state_of (start_after_await (state_of (pushMetrics Samples.quiet stopped))) in
  isActive (this suspended) = true
  ∧ isActive (this stopped) = false
  ∧ timers stopped = ∅
  ∧ isActive (this resumed) = false
  ∧ timers resumed = {[ 0%nat := 15000%Z ]}
  ∧ stop resumed = ((resumed, []), Return tt)
  ∧ Spec.scrapes (trace_of (step (Tick 0 Samples.quiet) resumed)) = 1%nat.
Proof.
  cbv zeta. split; [reflexivity|]. split; [reflexivity|]. split; [reflexivity|].
  split; [reflexivity|]. split; [reflexivity|]. split; [reflexivity|].
  vm_compute. reflexivity.
Qed.

End LifecycleFacts.

(** ** The Kafka message loop *)

Module ConsumerFacts.
Import KafkaConsumer Effects.

(** [eachMessage], case by case: it returns either way. *)
Lemma eachMessage_unfold d c :
  eachMessage d c
  = match handler_outcome d with
    | Return _ =>
        ((with_stats c (count_processed (now d) (stats c)),
          [EHandler (payload d)]), Return tt)
    | Throw e =>
        ((with_stats c (count_error (now d) (stats c)),
          [EHandler (payload d);
           ELog (mkLog (logger c) Error "Error processing message"
                   [component (with_stats c (count_error (now d) (stats c)));
                    ("topic", topic (payload d)); ("offset", offset (payload d));
                    ("error", error_message e)])]), Return tt)
    end.
Proof.
  unfold eachMessage. run_monad.
  destruct (handler_outcome d) as [[]|e]; reflexivity.
Qed.

Lemma eachMessage_returns d c : result_of (eachMessage d c) = Return tt.
Proof. rewrite eachMessage_unfold. by destruct (handler_outcome d). Qed.

Lemma eachMessage_calls d c :
  Spec.handler_calls (trace_of (eachMessage d c)) = [payload d].
Proof. rewrite eachMessage_unfold. by destruct (handler_outcome d). Qed.

Lemma eachMessage_running d c :
  isRunning (state_of (eachMessage d c)) = isRunning c.
Proof. rewrite eachMessage_unfold. by destruct (handler_outcome d). Qed.

Lemma eachMessage_counts d c :
  processedCount (stats (state_of (eachMessage d c)))
  = (processedCount (stats c) + Spec.successes [d])%nat
  ∧ errorCount (stats (state_of (eachMessage d c)))
    = (errorCount (stats c) + Spec.failures [d])%nat.
Proof.
  rewrite eachMessage_unfold. unfold Spec.successes, Spec.failures.
  destruct (handler_outcome d) eqn:Hd; cbn; rewrite Hd; cbn; lia.
Qed.

Lemma message_loop_cons d ds c :
  message_loop (d :: ds) c
  = ((state_of (message_loop ds (state_of (eachMessage d c))),
      trace_of (eachMessage d c)
      ++ trace_of (message_loop ds (state_of (eachMessage d c)))),
     result_of (message_loop ds (state_of (eachMessage d c)))).
Proof.
  cbn [message_loop]. pose proof (eachMessage_returns d c) as Hr.
  unfold result_of, state_of, trace_of in *. run_monad.
  destruct (eachMessage d c) as [[c1 t1] r1]. cbn [fst snd] in *. subst r1.
  by destruct (message_loop ds c1) as [[c2 t2] r2].
Qed.

(** The loop, by induction on the messages delivered. *)
Lemma message_loop_counts ds c :
  result_of (message_loop ds c) = Return tt
  ∧ Spec.handler_calls (trace_of (message_loop ds c)) = map payload ds
  ∧ isRunning (state_of (message_loop ds c)) = isRunning c
  ∧ processedCount (stats (state_of (message_loop ds c)))
    = (processedCount (stats c) + Spec.successes ds)%nat
  ∧ errorCount (stats (state_of (message_loop ds c)))
    = (errorCount (stats c) + Spec.failures ds)%nat.
Proof.
  revert c. induction ds as [|d ds IH]; intros c.
  - cbn. repeat split; lia.
  - rewrite message_loop_cons.
    destruct (IH (state_of (eachMessage d c))) as (Hr & Hc & Hrun & Hp & He).
    destruct (eachMessage_counts d c) as [Hp1 He1].
    unfold result_of, state_of, trace_of in *. cbn [fst snd].
    split; [done|]. split.
    { unfold Spec.handler_calls in *. rewrite omap_app, Hc.
      pose proof (eachMessage_calls d c) as Hd.
      unfold Spec.handler_calls, trace_of in Hd. by rewrite Hd. }
    split. { rewrite Hrun. apply eachMessage_running. }
    unfold Spec.successes, Spec.failures in *. cbn [List.filter] in *.
    rewrite Hp, He, Hp1, He1.
    destruct (handler_outcome d); cbn; lia.
Qed.

(** X5. The loop never halts on a handler failure: every message reaches
    the handler, in order, and the two counters grow by the numbers of
    successes and failures. *)
Lemma message_loop_spec ds c :
  result_of (message_loop ds c) = Return tt
  ∧ Spec.handler_calls (trace_of (message_loop ds c)) = map payload ds
  ∧ isRunning (state_of (message_loop ds c)) = isRunning c
  ∧ processedCount (stats (state_of (message_loop ds c)))
    = (processedCount (stats c) + Spec.successes ds)%nat
  ∧ errorCount (stats (state_of (message_loop ds c)))
    = (errorCount (stats c) + Spec.failures ds)%nat.
Proof. exact (message_loop_counts ds c). Qed.

(** C4. When the caller's handler throws on a message M, whatever came
    before: the callback returns normally (nothing is rethrown into the
    loop), the error counter grows by exactly one, the processed counter
    stays, the failure is logged at error level, the running flag is
    untouched, and the loop goes on: every message after M still reaches the
    handler. *)
Theorem handler_failure_is_counted (c : KafkaConsumer)
    (before after : list Delivery) (m : Delivery) (e : thrown) :
  handler_outcome m = Throw e →
  let c0 := state_of (message_loop before c) in
  result_of (eachMessage m c0) = Return tt
  ∧ errorCount (stats (state_of (eachMessage m c0))) = S (errorCount (stats c0))
  ∧ processedCount (stats (state_of (eachMessage m c0))) = processedCount (stats c0)
  ∧ isRunning (state_of (eachMessage m c0)) = isRunning c0
  ∧ (∃ entry,
       trace_of (eachMessage m c0) = [EHandler (payload m); ELog entry]
       ∧ log_level entry = Error
       ∧ log_message entry = "Error processing message")
  ∧ result_of (message_loop (before ++ m :: after) c) = Return tt
  ∧ Spec.handler_calls (trace_of (message_loop (before ++ m :: after) c))
    = map payload before ++ payload m :: map payload after.
Proof.
  intros Hm c0.
  split; [apply eachMessage_returns|].
  rewrite eachMessage_unfold, Hm.
  split; [done|]. split; [done|]. split; [done|].
  split; [by eexists|].
  destruct (message_loop_counts (before ++ m :: after) c) as (Hr & Hc & _).
  split; [done|]. by rewrite Hc, map_app.
Qed.

End ConsumerFacts.

(** ** Postgres and the no-op cache *)

Module PostgresFacts.
Import PostgresClient Effects.

Lemma query_answered sql params result c :
  result_of (query sql params (Return result) c) = Return (rows result).
Proof. unfold query. run_monad. reflexivity. Qed.

Lemma query_failed sql params e c :
  result_of (query sql params (Throw e) c) = Throw e.
Proof. unfold query. run_monad. reflexivity. Qed.

(** C7. Whatever the statement and its parameters, [queryOne] on a result
    without rows returns [null] and does not throw, and on a result with at
    least one row returns the first row. *)
Theorem queryOne_first_row_or_null (c : PostgresClient) (sql : string)
    (params : option (list string)) (n : nat) :
  result_of (queryOne sql params (Return (mkResult [] n)) c) = Return None
  ∧ ∀ row rest,
      result_of (queryOne sql params (Return (mkResult (row :: rest) n)) c)
      = Return (Some row).
Proof.
  assert (H : ∀ result,
             result_of (queryOne sql params (Return result) c)
             = Return (or_opt (rows result !! 0%nat) None)).
  { intros result. pose proof (query_answered sql params result c) as Hq.
    unfold queryOne, result_of in *. run_monad.
    destruct (query sql params (Return result) c) as [[c1 t1] r1].
    cbn [snd] in Hq. by subst r1. }
  split; [by rewrite H|]. intros row rest. by rewrite H.
Qed.

(** X6. The health check never throws and tells how the probe went.  It
    sends [SELECT 1] to the pool once; when the pool answers it returns
    [true] and logs nothing; when the pool fails it makes one log call, at
    error level, with the message [Database health check failed], the
    component and the message of the error, and then returns [false].  The
    instance is left as it was. *)
Lemma healthCheck_never_throws (answer : completion QueryResult) (c : PostgresClient) :
  result_of (healthCheck answer c) = Return (returned answer)
  ∧ state_of (healthCheck answer c) = c
  ∧ trace_of (healthCheck answer c)
    = EPoolQuery "SELECT 1" None
      :: match answer with
         | Return _ => []
         | Throw e =>
             [ELog (mkLog (logger c) Error "Database health check failed"
                      [component c; ("error", error_message e)])]
         end.
Proof.
  unfold healthCheck, log. run_monad.
  destruct answer as [result|e]; repeat split; reflexivity.
Qed.

End PostgresFacts.

Module NoOpFacts.
Import NoOpCache Effects.

Lemma perform_answer {V} (call : call V) (c : NoOpCache) :
  perform call c = ((c, []), Return (Spec.noop_answer call)).
Proof. destruct call; reflexivity. Qed.

Lemma perform_all_answers {V} (history : list (call V)) (c : NoOpCache) :
  perform_all history c = ((c, []), Return (map Spec.noop_answer history)).
Proof.
  induction history as [|call history IH]; [reflexivity|].
  cbn [perform_all map]. cbv [mbind M_bind bind mret M_ret ret].
  by rewrite perform_answer, IH.
Qed.

(** C9. After any sequence of calls on a no-op cache, each of which returned
    what the specification says, every call of every method returns
    normally: [get] answers [null], [exists], [isConnected] and
    [healthCheck] answer [false], whatever the key, value or TTL; a [set] of
    the same key beforehand changes nothing. *)
Theorem noop_cache_always_misses {V} (history : list (call V)) (c : NoOpCache)
    (key : string) (value : V) (ttl : option Z) :
  result_of (perform_all history c) = Return (map Spec.noop_answer history)
  ∧ (let c' := state_of (perform_all history c) in
     result_of (connect c') = Return tt
     ∧ result_of (disconnect c') = Return tt
     ∧ result_of (NoOpCache.get (V := V) key c') = Return None
     ∧ result_of (NoOpCache.set key value ttl c') = Return tt
     ∧ result_of (NoOpCache.delete key c') = Return tt
     ∧ result_of (exists_ key c') = Return false
     ∧ result_of (isConnected c') = Return false
     ∧ result_of (healthCheck c') = Return false)
  ∧ result_of (perform_all (history ++ [Set_ key value ttl; Get key; Exists key]) c)
    = Return (map Spec.noop_answer history ++ [Void; Value None; Boolean false]).
Proof.
  rewrite !perform_all_answers. split; [reflexivity|]. split.
  - cbv zeta. repeat split.
  - by rewrite map_app.
Qed.

End NoOpFacts.

(** ** The cache factory *)

Module FactoryFacts.
Import RedisFactory Effects.

Lemma truthy_str_nonempty (s : string) : truthy s = true ↔ s ≠ "".
Proof. destruct s; cbn; split; congruence. Qed.

(** The URL the factory resolves is truthy exactly when a URL is
    resolvable in the sense of the specification, and then it is the
    configured one if there is one and the one of the environment
    otherwise. *)
Lemma resolved_url_resolvable config env :
  truthy (resolved_url config env) = true ↔ Spec.url_resolvable config env.
Proof.
  unfold resolved_url, or_opt, Spec.url_resolvable.
  destruct (RedisCache.Config.redisUrl config) as [u|] eqn:Hu; cbn.
  - destruct (truthy u) eqn:Htu; cbn.
    + rewrite Htu. split; [|done]. intros _. exists u.
      split; [by apply truthy_str_nonempty|by left].
    + destruct (env !! "REDIS_URL") as [v|] eqn:Hv; cbn.
      * split.
        -- intros Hv'. exists v. split; [by apply truthy_str_nonempty|by right].
        -- intros (url & Hne & [[= <-]|[= <-]]).
           ++ apply truthy_str_nonempty in Hne. cbn in *. congruence.
           ++ by apply truthy_str_nonempty.
      * split; [done|]. intros (url & Hne & [[= <-]|?]); [|done].
        apply truthy_str_nonempty in Hne. cbn in *. congruence.
  - destruct (env !! "REDIS_URL") as [v|] eqn:Hv; cbn.
    + split.
      * intros Hv'. exists v. split; [by apply truthy_str_nonempty|by right].
      * intros (url & Hne & [?|[= <-]]); [done|]. by apply truthy_str_nonempty.
    + split; [done|]. by intros (url & Hne & [?|?]).
Qed.

Lemma cacheEnabled_true env :
  cacheEnabled env = true ↔ env !! "REDIS_CACHE_ENABLED" = Some "true".
Proof. unfold cacheEnabled. apply bool_decide_eq_true. Qed.

(** The factory, case by case. *)
Lemma createRedisCache_unfold config env :
  result_of (createRedisCache config env tt)
  = if cacheEnabled env && truthy (resolved_url config env) then
      match RedisCache.new
              (with_redisUrl config (default "" (resolved_url config env))) env with
      | Return c => Return (Redis c)
      | Throw e => Throw e
      end
    else Return (NoOp NoOpCache.mkNoOp).
Proof.
  unfold createRedisCache. run_monad.
  destruct (cacheEnabled env); cbn; [|done].
  destruct (resolved_url config env) as [url|]; cbn; [|done].
  destruct (truthy url); cbn; [|done].
  by destruct (RedisCache.new (with_redisUrl config url) env).
Qed.

(** C10. The factory returns a no-op cache unless [REDIS_CACHE_ENABLED] is
    exactly ["true"] and a Redis URL is resolvable; it returns a Redis cache
    only when both hold, and then whenever the service name is given; in
    particular without [REDIS_CACHE_ENABLED] the result is the no-op cache
    whatever URL is configured. *)
Theorem createRedisCache_gate (config : RedisCache.Config.t) (env : Env) :
  (¬ (env !! "REDIS_CACHE_ENABLED" = Some "true" ∧ Spec.url_resolvable config env) →
   result_of (createRedisCache config env tt) = Return (NoOp NoOpCache.mkNoOp))
  ∧ (∀ c,
       result_of (createRedisCache config env tt) = Return (Redis c) →
       env !! "REDIS_CACHE_ENABLED" = Some "true" ∧ Spec.url_resolvable config env)
  ∧ (env !! "REDIS_CACHE_ENABLED" = Some "true" →
     Spec.url_resolvable config env →
     truthy (RedisCache.Config.serviceName config) = true →
     ∃ c, result_of (createRedisCache config env tt) = Return (Redis c)
          ∧ Some (RedisCache.redisUrl c) = resolved_url config env)
  ∧ (env !! "REDIS_CACHE_ENABLED" = None →
     result_of (createRedisCache config env tt) = Return (NoOp NoOpCache.mkNoOp)).
Proof.
  rewrite createRedisCache_unfold.
  pose proof (cacheEnabled_true env) as Hen.
  pose proof (resolved_url_resolvable config env) as Hurl.
  destruct (cacheEnabled env) eqn:Hc; cbn [andb].
  2:{ assert (Hoff : env !! "REDIS_CACHE_ENABLED" ≠ Some "true").
      { intros H. apply Hen in H. discriminate H. }
      split; [done|]. split; [done|]. split; [done|]. done. }
  assert (Hon : env !! "REDIS_CACHE_ENABLED" = Some "true") by by apply Hen.
  destruct (truthy (resolved_url config env)) eqn:Hu.
  2:{ assert (Hno : ¬ Spec.url_resolvable config env).
      { intros H. apply Hurl in H. discriminate H. }
      split; [done|]. split; [done|]. split; [done|]. congruence. }
  assert (Hyes : Spec.url_resolvable config env) by by apply Hurl.
  split; [intros []; done|]. split; [done|]. split; [|congruence].
  intros _ _ Hname.
  destruct (resolved_url config env) as [url|] eqn:Hr; [|done].
  cbn [default]. unfold RedisCache.new, with_redisUrl. cbn.
  destruct (RedisCache.Config.serviceName config) as [name|]; [|done].
  cbn in Hname. rewrite Hname. eexists. split; [reflexivity|].
  cbn. unfold or_else. cbn in Hu. cbn. by rewrite Hu.
Qed.

(** The factory itself checks no field: with caching disabled it returns the
    no-op cache for a configuration without [serviceName], which it prints
    as [undefined]. *)
Example factory_without_serviceName :
  createRedisCache (RedisCache.Config.mk None None None None None) ∅ tt
  = ((tt, [EConsoleLog "[undefined] Redis caching disabled (REDIS_CACHE_ENABLED=false)"]),
     Return (NoOp NoOpCache.mkNoOp)).
Proof. vm_compute. reflexivity. Qed.

End FactoryFacts.

(** ** The OpenAPI error handler *)

Module ErrorHandlerFacts.
Import JS OpenAPIValidator Effects.








End ErrorHandlerFacts.

(** ** Required fields *)

Module ConstructionFacts.
Import Components Effects.

Lemma not_supplied {A} (o : option A) : bool_decide (is_Some o) = false → o = None.
Proof.
  intros H. apply bool_decide_eq_false in H. destruct o; [|done].
  exfalso. apply H. by eexists.
Qed.

(** The claim as stated fails for the OpenAPI middleware: its configuration
    has no [serviceName], and a configuration with a schema path and
    nothing else is accepted: the factory logs, builds the middleware and
    returns. *)
Lemma openapi_needs_no_serviceName :
  let config := OpenAPIValidator.Config.mk (Some "./openapi.yaml") None None None None in
  In "serviceName" (spec_required OpenAPI)
  ∧ supplied OpenAPI config "serviceName" = false
  ∧ construct OpenAPI config ∅ (Return tt) = (2%nat, None).
Proof. cbv zeta. split; [by left|]. split; reflexivity. Qed.

(** C5, amended. Constructing a component from a configuration object that
    lacks a field its constructor requires throws an [Error] before the
    constructor has called anything outside: [serviceName] for the Kafka
    consumer, the Postgres client, the Redis cache, the logger and the
    metrics pusher; also [brokers], [username], [password] and [groupId] for
    the Kafka consumer; also [schemaName] for the Postgres client; and
    [schemaPath] alone for the OpenAPI middleware. *)
Theorem required_fields_fail_fast (c : component) (config : config_of c)
    (env : Env) (loki : completion unit) (field : string) :
  In field (required c) →
  supplied c config field = false →
  ∃ message, construct c config env loki = (0%nat, Some (ErrorObj message)).
Proof.
  intros Hin Hmissing.
  destruct c; cbn [required In] in Hin; cbn [construct config_of] in *;
    repeat (destruct Hin as [<-|Hin]; [|]); try contradiction;
    cbn in Hmissing; apply not_supplied in Hmissing.
  - unfold KafkaConsumer.new. rewrite Hmissing. run_monad. cbn. eauto.
  - unfold KafkaConsumer.new. rewrite Hmissing. run_monad. cbn.
    destruct (negb (truthy (KafkaConsumer.Config.serviceName config))); cbn; eauto.
  - unfold KafkaConsumer.new. rewrite Hmissing. run_monad. cbn.
    destruct (negb (truthy (KafkaConsumer.Config.serviceName config))); cbn; eauto.
    destruct (negb (truthy (KafkaConsumer.Config.brokers config)) || _); cbn; eauto.
  - unfold KafkaConsumer.new. rewrite Hmissing. run_monad. cbn.
    destruct (negb (truthy (KafkaConsumer.Config.serviceName config))); cbn; eauto.
    destruct (negb (truthy (KafkaConsumer.Config.brokers config)) || _); cbn; eauto.
    destruct (negb (truthy (KafkaConsumer.Config.username config))); cbn; eauto.
  - unfold KafkaConsumer.new. rewrite Hmissing. run_monad. cbn.
    destruct (negb (truthy (KafkaConsumer.Config.serviceName config))); cbn; eauto.
    destruct (negb (truthy (KafkaConsumer.Config.brokers config)) || _); cbn; eauto.
    destruct (negb (truthy (KafkaConsumer.Config.username config))); cbn; eauto.
    destruct (negb (truthy (KafkaConsumer.Config.password config))); cbn; eauto.
  - unfold PostgresClient.new. rewrite Hmissing. run_monad. cbn. eauto.
  - unfold PostgresClient.new. rewrite Hmissing. run_monad. cbn.
    destruct (negb (truthy (PostgresClient.Config.serviceName config))); cbn; eauto.
  - unfold RedisCache.new. rewrite Hmissing. run_monad. cbn. eauto.
  - unfold WinstonLogger.createLogger. rewrite Hmissing. run_monad. cbn. eauto.
  - unfold MetricsPusher.new. rewrite Hmissing. run_monad. cbn. eauto.
  - unfold OpenAPIValidator.createOpenAPIMiddleware. rewrite Hmissing.
    run_monad. cbn. eauto.
Qed.

(** With every required field given, construction goes through: the Kafka
    consumer creates its client and its consumer, the OpenAPI factory logs
    and builds the middleware. *)
Example complete_configurations_construct :
  construct Kafka
    (KafkaConsumer.Config.mk (Some "svc") (Some ["kafka:9092"]) (Some "user")
       (Some "pass") (Some "group") None None None None None None)
    ∅ (Return tt) = (2%nat, None)
  ∧ construct Postgres Samples.postgres_config ∅ (Return tt) = (1%nat, None)
  ∧ construct Pusher Samples.pusher_config ∅ (Return tt) = (0%nat, None).
Proof. repeat split. Qed.

End ConstructionFacts.

(** ** Configuration sources *)

Module PrecedenceFacts.
Import Effects.

(** The [||] chain is the precedence order of the specification over the
    sources that hold a truthy value. *)
Lemma or_else_precedence {A} `{Truthy A} (explicit from_env : option A) (literal : A) :
  or_else explicit (or_else from_env literal)
  = Spec.precedence (Spec.given explicit) (Spec.given from_env) literal.
Proof.
  unfold or_else, Spec.precedence, Spec.given.
  destruct explicit as [x|]; cbn.
  - destruct (truthy x); [done|]. destruct from_env as [v|]; cbn; [|done].
    by destruct (truthy v).
  - destruct from_env as [v|]; cbn; [|done]. by destruct (truthy v).
Qed.

(** A destructuring default keeps any explicit value. *)
Lemma nullish_precedence {A} `{Truthy A} (explicit from_env : option A) (literal : A) :
  nullish explicit (or_else from_env literal)
  = Spec.precedence explicit (Spec.given from_env) literal.
Proof.
  unfold nullish, or_else, Spec.precedence, Spec.given.
  destruct explicit as [x|]; cbn; [done|].
  destruct from_env as [v|]; cbn; [|done]. by destruct (truthy v).
Qed.

(** A source without an empty or zero value is taken as it is. *)
Lemma given_usable {A} `{Truthy A} (source : option A) :
  Spec.usable source → Spec.given source = source.
Proof. unfold Spec.usable, Spec.given. by intros [ -> | -> ]. Qed.

(** The claim as stated fails.  An explicitly supplied empty [host] is not
    used: the environment variable wins.  The pusher's [pushInterval] has
    no environment variable at all: unset, it is 15 seconds whatever the
    environment holds.  The logger's [environment] reads [ENVIRONMENT]
    before [NODE_ENV]. *)
Lemma precedence_counterexample :
  let config :=
    PostgresClient.Config.mk (Some "svc") (Some "app") (Some "") None None None
      None None None None None None in
  let env : Env := {[ "PGHOST" := "db.internal" ]} in
  (Spec.precedence (PostgresClient.Config.host config) (env !! "PGHOST") "localhost" = ""
   ∧ PostgresClient.pool_host (PostgresClient.poolConfig config env "app") = "db.internal")
  ∧ (∀ env' : Env,
       MetricsPusher.pushIntervalMs
         <$> (match MetricsPusher.new
                      (MetricsPusher.Config.mk (Some "svc") None None None None) env' with
              | Return p => Some p
              | Throw _ => None
              end) = Some 15000%Z)
  ∧ WinstonLogger.resolve_environment
      (WinstonLogger.Config.mk (Some "svc") None None None None None)
      (<[ "ENVIRONMENT" := "staging" ]> {[ "NODE_ENV" := "production" ]})
    = "staging".
Proof.
  cbv zeta. split; [split; reflexivity|]. split; [|reflexivity].
  intros env'. reflexivity.
Qed.

(** C8, amended. How each optional configuration field resolves, field by
    field.  Read by a [||] chain, configuration value, then environment
    variable, then literal, a source holding an empty string or a zero
    counting as absent: the Postgres client's [host], [port] (the variable
    is read with [parseInt]), [database], [user] and [password], the
    pusher's [alloyUrl] and [environment], the Redis cache's [redisUrl].
    Read by a destructuring default, the configuration value counting
    whenever it is defined (an empty one too), then the non-empty
    environment variable, then the literal: the logger's [level] and
    [lokiHost], and its [environment], which reads [ENVIRONMENT] before
    [NODE_ENV].  The configuration value when defined, else a test of an
    environment variable: the Postgres client's [ssl]
    ([PGSSLMODE === 'require']), the logger's [lokiEnabled]
    ([LOKI_ENABLED === 'true']), the validator's [validateResponses]
    ([NODE_ENV === 'development']).  The logger's [lokiBasicAuth] is the
    configuration value when defined, else [LOKI_BASIC_AUTH] as it is, with
    no literal behind it.  Without an environment variable, the
    configuration value when defined, else the literal: the Postgres
    client's [poolSize], [idleTimeout] and [connectionTimeout], the pusher's
    [pushInterval], the Redis cache's [defaultTTL] and [keyPrefix], the
    Kafka consumer's [ssl], [sessionTimeout] and [heartbeatInterval], the
    validator's [validateRequests] and [ignorePaths].  Without an
    environment variable and by [||]: the Kafka consumer's [saslMechanism]
    (else ['plain']) and [clientId] (else the service name).  Every [logger]
    field is the injected logger, else the console logger. *)
Theorem config_precedence :
  (∀ config env schema,
     let pool := PostgresClient.poolConfig config env schema in
     PostgresClient.pool_host pool
     = Spec.precedence (Spec.given (PostgresClient.Config.host config))
         (Spec.given (env !! "PGHOST")) "localhost"
     ∧ PostgresClient.pool_port pool
       = Spec.precedence (Some <$> Spec.given (PostgresClient.Config.port config))
           (JS.parseInt10 <$> Spec.given (env !! "PGPORT")) (Some 5432%Z)
     ∧ PostgresClient.pool_database pool
       = Spec.precedence (Spec.given (PostgresClient.Config.database config))
           (Spec.given (env !! "PGDATABASE")) "railrepay"
     ∧ PostgresClient.pool_user pool
       = Spec.precedence (Spec.given (PostgresClient.Config.user config))
           (Spec.given (env !! "PGUSER")) "postgres"
     ∧ PostgresClient.pool_password pool
       = Spec.precedence (Spec.given (PostgresClient.Config.password config))
           (Spec.given (env !! "PGPASSWORD")) "postgres"
     ∧ PostgresClient.pool_max pool = default 20%Z (PostgresClient.Config.poolSize config)
     ∧ PostgresClient.pool_idleTimeoutMillis pool
       = default 30000%Z (PostgresClient.Config.idleTimeout config)
     ∧ PostgresClient.pool_connectionTimeoutMillis pool
       = default 5000%Z (PostgresClient.Config.connectionTimeout config)
     ∧ PostgresClient.pool_ssl pool
       = Spec.precedence (PostgresClient.Config.ssl config) None
           (bool_decide (env !! "PGSSLMODE" = Some "require")))
  ∧ (∀ config env p,
       MetricsPusher.new config env = Return p →
       MetricsPusher.alloyUrl p
       = Spec.precedence (Spec.given (MetricsPusher.Config.alloyUrl config))
           (Spec.given (env !! "ALLOY_PUSH_URL")) ""
       ∧ MetricsPusher.environment p
         = Spec.precedence (Spec.given (MetricsPusher.Config.environment config))
             (Spec.given (env !! "NODE_ENV")) "development"
       ∧ MetricsPusher.pushIntervalMs p
         = (default 15 (MetricsPusher.Config.pushInterval config) * 1000)%Z
       ∧ MetricsPusher.logger p
         = default ConsoleLogger (Injected <$> MetricsPusher.Config.logger config))
  ∧ (∀ config env c,
       RedisCache.new config env = Return c →
       RedisCache.redisUrl c
       = Spec.precedence (Spec.given (RedisCache.Config.redisUrl config))
           (Spec.given (env !! "REDIS_URL")) "redis://localhost:6379"
       ∧ RedisCache.defaultTTL c = default 3600%Z (RedisCache.Config.defaultTTL config)
       ∧ RedisCache.keyPrefix c = default "rr:" (RedisCache.Config.keyPrefix config)
       ∧ RedisCache.logger c
         = default ConsoleLogger (Injected <$> RedisCache.Config.logger config))
  ∧ (∀ config env,
       WinstonLogger.resolve_level config env
       = Spec.precedence (WinstonLogger.Config.level config)
           (Spec.given (env !! "LOG_LEVEL")) "info"
       ∧ WinstonLogger.resolve_lokiHost config env
         = Spec.precedence (WinstonLogger.Config.lokiHost config)
             (Spec.given (env !! "LOKI_HOST")) "http://localhost:3100"
       ∧ WinstonLogger.resolve_environment config env
         = Spec.precedence (WinstonLogger.Config.environment config)
             (Spec.given (env !! "ENVIRONMENT"))
             (Spec.precedence (Spec.given (env !! "NODE_ENV")) None "development")
       ∧ WinstonLogger.resolve_lokiEnabled config env
         = Spec.precedence (WinstonLogger.Config.lokiEnabled config) None
             (bool_decide (env !! "LOKI_ENABLED" = Some "true"))
       ∧ WinstonLogger.resolve_lokiBasicAuth config env
         = Spec.precedence (Some <$> WinstonLogger.Config.lokiBasicAuth config)
             (Some <$> env !! "LOKI_BASIC_AUTH") None)
  ∧ (∀ config env c,
       result_of (PostgresClient.new config env tt) = Return c →
       PostgresClient.logger c
       = default ConsoleLogger (Injected <$> PostgresClient.Config.logger config))
  ∧ (∀ config c,
       result_of (KafkaConsumer.new config tt) = Return c →
       ∃ kafka consumer,
         trace_of (KafkaConsumer.new config tt)
         = [KafkaConsumer.ENewKafka kafka; KafkaConsumer.ENewConsumer consumer]
         ∧ KafkaConsumer.opt_ssl kafka = default true (KafkaConsumer.Config.ssl config)
         ∧ KafkaConsumer.opt_mechanism kafka
           = Spec.precedence (Spec.given (KafkaConsumer.Config.saslMechanism config))
               None "plain"
         ∧ KafkaConsumer.opt_clientId kafka
           = Spec.precedence (Spec.given (KafkaConsumer.Config.clientId config))
               None (KafkaConsumer.serviceName c)
         ∧ KafkaConsumer.opt_sessionTimeout consumer
           = default 30000%Z (KafkaConsumer.Config.sessionTimeout config)
         ∧ KafkaConsumer.opt_heartbeatInterval consumer
           = default 3000%Z (KafkaConsumer.Config.heartbeatInterval config)
         ∧ KafkaConsumer.logger c
           = default ConsoleLogger (Injected <$> KafkaConsumer.Config.logger config))
  ∧ (∀ config env options,
       result_of (OpenAPIValidator.createOpenAPIMiddleware config env tt) = Return options →
       ∃ entry,
         trace_of (OpenAPIValidator.createOpenAPIMiddleware config env tt)
         = [OpenAPIValidator.ELog entry; OpenAPIValidator.EMiddleware options]
         ∧ log_to entry
           = default ConsoleLogger (Injected <$> OpenAPIValidator.Config.logger config)
         ∧ OpenAPIValidator.opt_validateRequests options
           = default true (OpenAPIValidator.Config.validateRequests config)
         ∧ OpenAPIValidator.opt_validateResponses options
           = Spec.precedence (OpenAPIValidator.Config.validateResponses config) None
               (bool_decide (env !! "NODE_ENV" = Some "development"))
         ∧ OpenAPIValidator.opt_ignorePaths options
           = match default [] (OpenAPIValidator.Config.ignorePaths config) with
             | [] => None
             | paths =>
                 Some ("^(" +:+ OpenAPIValidator.join_bar
                                  (map OpenAPIValidator.pattern_of paths) +:+ ")")
             end).
Proof.
  split.
  { intros config env schema pool. subst pool. cbn.
    repeat split; try apply or_else_precedence.
    unfold PostgresClient.resolve_port, Spec.given.
    destruct (truthy (PostgresClient.Config.port config)) eqn:Hp.
    - by destruct (PostgresClient.Config.port config).
    - cbn. unfold or_else. destruct (env !! "PGPORT") as [v|]; cbn; [|done].
      by destruct (truthy v). }
  split.
  { intros config env p. unfold MetricsPusher.new.
    destruct (MetricsPusher.Config.serviceName config) as [name|]; [|done].
    destruct (truthy name); [|done]. intros [= <-]. cbn.
    repeat split; try apply or_else_precedence.
    by destruct (MetricsPusher.Config.logger config). }
  split.
  { intros config env c. unfold RedisCache.new.
    destruct (RedisCache.Config.serviceName config) as [name|]; [|done].
    destruct (truthy name); [|done]. intros [= <-]. cbn.
    repeat split; try apply or_else_precedence.
    by destruct (RedisCache.Config.logger config). }
  split.
  { intros config env. split; [apply nullish_precedence|].
    split; [apply nullish_precedence|].
    split.
    { unfold WinstonLogger.resolve_environment.
      rewrite nullish_precedence. f_equal.
      unfold or_else, Spec.precedence, Spec.given.
      destruct (env !! "NODE_ENV") as [v|]; cbn; [|done]. by destruct (truthy v). }
    split.
    - unfold WinstonLogger.resolve_lokiEnabled.
      by destruct (WinstonLogger.Config.lokiEnabled config).
    - unfold WinstonLogger.resolve_lokiBasicAuth.
      destruct (WinstonLogger.Config.lokiBasicAuth config); [done|].
      by destruct (env !! "LOKI_BASIC_AUTH"). }
  split.
  { intros config env c. unfold PostgresClient.new.
    destruct (negb (truthy (PostgresClient.Config.serviceName config))); [done|].
    destruct (negb (truthy (PostgresClient.Config.schemaName config))); [done|].
    intros [= <-]. cbn. by destruct (PostgresClient.Config.logger config). }
  split.
  { intros config c. unfold KafkaConsumer.new.
    destruct (negb (truthy (KafkaConsumer.Config.serviceName config))); [done|].
    destruct (_ || _); [done|].
    destruct (negb (truthy (KafkaConsumer.Config.username config))); [done|].
    destruct (negb (truthy (KafkaConsumer.Config.password config))); [done|].
    destruct (negb (truthy (KafkaConsumer.Config.groupId config))); [done|].
    intros [= <-]. eexists _, _. split; [reflexivity|]. cbn.
    split; [by destruct (KafkaConsumer.Config.ssl config) as [[]|]|].
    split; [apply (or_else_precedence _ None)|].
    split; [apply (or_else_precedence _ None)|].
    split; [done|]. split; [done|].
    by destruct (KafkaConsumer.Config.logger config). }
  intros config env options. unfold OpenAPIValidator.createOpenAPIMiddleware.
  destruct (OpenAPIValidator.Config.schemaPath config) as [path|]; [|done].
  destruct (truthy path); [|done].
  intros [= <-]. eexists. split; [reflexivity|]. cbn.
  split; [by destruct (OpenAPIValidator.Config.logger config)|].
  split; [by destruct (OpenAPIValidator.Config.validateRequests config) as [[]|]|].
  split; [by destruct (OpenAPIValidator.Config.validateResponses config)|].
  by destruct (OpenAPIValidator.Config.ignorePaths config) as [[|p ps]|].
Qed.

End PrecedenceFacts.

(** ** The statements at work on sample inputs *)

Module Witnesses.
Import Effects Samples.

(** With an empty registry the sample pusher warns and forwards nothing;
    with one sample and a remote end that refuses, the failure is logged
    and the push still returns. *)
Lemma pushMetrics_never_throws_witness :
  Spec.logs (trace_of (MetricsPusher.pushMetrics quiet (MetricsPusher.boot pusher)))
  = [(Warn, "No metrics to push")]
  ∧ Spec.logs (trace_of (MetricsPusher.pushMetrics refused (MetricsPusher.boot pusher)))
    = [(Error, "Failed to push metrics")]
  ∧ result_of (MetricsPusher.pushMetrics refused (MetricsPusher.boot pusher)) = Return tt.
Proof.
  destruct (PusherFacts.pushMetrics_never_throws (MetricsPusher.boot pusher) quiet)
    as (_ & _ & Hempty & _).
  destruct (Hempty "" eq_refl eq_refl) as [_ Hwarn].
  destruct (PusherFacts.pushMetrics_never_throws (MetricsPusher.boot pusher) refused)
    as (Hret & _ & _ & Hfail & _).
  assert (Hsome : MetricsPusher.parsePrometheusMetrics "requests_total 42" ≠ ∅).
  { intros Hnone. apply (f_equal (λ m, m !! "requests_total")) in Hnone.
    vm_compute in Hnone. discriminate Hnone. }
  split; [exact (Hwarn eq_refl)|]. split; [|exact Hret].
  rewrite (Hfail "requests_total 42" (ErrorObj "connect ECONNREFUSED")
             eq_refl eq_refl Hsome eq_refl).
  reflexivity.
Defined.

(** One message that succeeds, one on which the handler throws, one more
    that succeeds: the failure counts once and the third message is still
    handled. *)
Lemma handler_failure_is_counted_witness :
  KafkaConsumer.handler_outcome poisoned = Throw (ErrorObj "boom")
  ∧ KafkaConsumer.errorCount
      (KafkaConsumer.stats
         (state_of (KafkaConsumer.eachMessage poisoned
                      (state_of (KafkaConsumer.message_loop [healthy] consumer)))))
    = 1%nat
  ∧ Spec.handler_calls
      (trace_of (KafkaConsumer.message_loop [healthy; poisoned; healthy] consumer))
    = [KafkaConsumer.payload healthy; KafkaConsumer.payload poisoned;
       KafkaConsumer.payload healthy].
Proof.
  pose proof (ConsumerFacts.handler_failure_is_counted consumer [healthy] [healthy]
                poisoned (ErrorObj "boom") eq_refl) as H.
  cbv zeta in H. destruct H as (_ & Herr & _ & _ & _ & _ & Hcalls).
  split; [reflexivity|]. split; [exact Herr|exact Hcalls].
Defined.

(** A Kafka configuration without [groupId] is refused before any client
    object exists. *)
Lemma required_fields_fail_fast_witness :
  In "groupId" (Components.required Components.Kafka)
  ∧ Components.supplied Components.Kafka kafka_without_groupId "groupId" = false
  ∧ ∃ message,
      Components.construct Components.Kafka kafka_without_groupId ∅ (Return tt)
      = (0%nat, Some (ErrorObj message)).
Proof.
  assert (Hin : In "groupId" (Components.required Components.Kafka)).
  { cbn. tauto. }
  split; [exact Hin|]. split; [reflexivity|].
  exact (ConstructionFacts.required_fields_fail_fast Components.Kafka
           kafka_without_groupId ∅ (Return tt) "groupId" Hin eq_refl).
Defined.


(** With caching enabled and a URL in the environment the factory builds a
    Redis cache for that URL. *)
Lemma createRedisCache_gate_witness :
  ∃ c, result_of (RedisFactory.createRedisCache cache_config cache_env tt)
       = Return (RedisFactory.Redis c)
       ∧ RedisCache.redisUrl c = "redis://cache:6379".
Proof.
  destruct (FactoryFacts.createRedisCache_gate cache_config cache_env)
    as (_ & _ & Hredis & _).
  assert (Hurl : Spec.url_resolvable cache_config cache_env).
  { exists "redis://cache:6379". split; [discriminate|]. right. reflexivity. }
  destruct (Hredis eq_refl Hurl eq_refl) as (c & Hc & Hu).
  exists c. split; [exact Hc|]. by injection Hu.
Defined.

(** Without a configured host the Postgres client takes [PGHOST]. *)
Lemma config_precedence_witness :
  PostgresClient.pool_host
    (PostgresClient.poolConfig postgres_config postgres_env "app")
  = "db.internal".
Proof.
  destruct PrecedenceFacts.config_precedence as (Hpg & _).
  destruct (Hpg postgres_config postgres_env "app") as (Hhost & _).
  rewrite Hhost. reflexivity.
Defined.

End Witnesses.

(** * Further properties of the sources

    What the remaining functions of the packages do over all inputs: the
    shape of the lines the parser accepts, the life cycles of the Kafka
    consumer, the Postgres client and the Redis cache, the shared registry
    and its route, the transports of the logger and the pattern the
    validator builds from the paths to ignore. *)

Ltac run_effects :=
  cbv [mbind mret Effects.M_bind Effects.M_ret Effects.bind Effects.ret
       Effects.get Effects.put Effects.emit Effects.settle Effects.throw
       Effects.try_catch Effects.attempt
       Effects.trace_of Effects.state_of Effects.result_of].

(** Closes the cases of a step of the cache: the flag, the client and the
    configuration, read off the unfolded step. *)
Ltac close_step :=
  cbn; repeat split; intros; cbn in *;
  repeat match goal with
         | H : ?x = _ |- context [?x] => rewrite H
         | H : ?P, H' : ?P → _ |- _ => specialize (H' H)
         end;
  try done; try congruence; eauto.

Module EffectFacts.
Import Effects.

Lemma attempt_spec {S E A} (m : M S E A) (s : S) :
  attempt m s = ((state_of (m s), trace_of (m s)), Return tt).
Proof.
  run_effects. destruct (m s) as [[s1 t1] [a|e]]; cbn; by rewrite app_nil_r.
Qed.

Lemma state_of_mk {S E A} (s : S) (t : list E) (r : completion A) :
  state_of ((s, t), r) = s.
Proof. reflexivity. Qed.

Lemma trace_of_mk {S E A} (s : S) (t : list E) (r : completion A) :
  trace_of ((s, t), r) = t.
Proof. reflexivity. Qed.

Lemma result_of_mk {S E A} (s : S) (t : list E) (r : completion A) :
  result_of ((s, t), r) = r.
Proof. reflexivity. Qed.

End EffectFacts.

(** ** What a push forwards *)

Module ForwardFacts.
Import JS MetricsPusher Effects PusherFacts ParseFacts.

(** X7. What one push forwards: when the endpoint is set, the registry
    answers with a text and the text holds at least one sample, the push
    makes exactly the calls [registry.metrics()], one remote write of the
    parsed samples to the endpoint under the two labels of the instance,
    and one log call, at debug level when the write went through and at
    error level when it failed.  And whatever push makes a remote write,
    the write goes to the endpoint of the instance, which is not empty,
    under exactly those two labels, and carries a non-empty set of samples
    parsed from the text the registry answered with. *)
Theorem forwarded_samples_come_from_the_registry s w :
  (∀ text,
     truthy (alloyUrl (this s)) = true →
     registry w = Return text →
     parsePrometheusMetrics text ≠ ∅ →
     ∃ entry,
       trace_of (pushMetrics w s)
       = [ERegistryMetrics;
          ERemoteWrite (parsePrometheusMetrics text) (alloyUrl (this s))
            [("service", serviceName (this s)); ("environment", environment (this s))];
          ELog entry]
       ∧ log_level entry = (if returned (remote w) then Debug else Error))
  ∧ (∀ metrics url labels,
       ERemoteWrite metrics url labels ∈ trace_of (pushMetrics w s) →
       url = alloyUrl (this s) ∧ url ≠ ""
       ∧ labels = [("service", serviceName (this s));
                   ("environment", environment (this s))]
       ∧ metrics ≠ ∅
       ∧ ∃ text, registry w = Return text ∧ metrics = parsePrometheusMetrics text).
Proof.
  rewrite pushMetrics_unfold. cbv zeta. split.
  - intros text Hurl Hreg Hne. rewrite Hurl, Hreg. cbn [negb].
    pose proof (keys_length_zero (parsePrometheusMetrics text)) as Hz.
    destruct (Nat.eqb (keys_length (parsePrometheusMetrics text)) 0).
    { destruct Hne. by apply Hz. }
    destruct (remote w) as [[]|e]; eexists; done.
  - intros metrics url labels.
    destruct (alloyUrl (this s)) as [|c u] eqn:Hurl; cbn.
    { intros Hin. by apply elem_of_nil in Hin. }
    destruct (registry w) as [text|e] eqn:Hreg.
    2:{ intros Hin. repeat (apply elem_of_cons in Hin as [Hin|Hin]; [done|]).
        by apply elem_of_nil in Hin. }
    pose proof (keys_length_zero (parsePrometheusMetrics text)) as Hz.
    destruct (Nat.eqb (keys_length (parsePrometheusMetrics text)) 0) eqn:Hk.
    { intros Hin. repeat (apply elem_of_cons in Hin as [Hin|Hin]; [done|]).
      by apply elem_of_nil in Hin. }
    assert (Hne : parsePrometheusMetrics text ≠ ∅).
    { intros Hnone. apply Hz in Hnone. discriminate Hnone. }
    destruct (remote w) as [[]|e]; intros Hin;
      repeat (apply elem_of_cons in Hin as [Hin|Hin];
              [first [discriminate Hin | injection Hin as -> -> ->]|]);
      try (by apply elem_of_nil in Hin);
      (split; [done|]); (split; [done|]); (split; [done|]); (split; [done|]);
      by exists text.
Qed.

Lemma forwarded_samples_come_from_the_registry_witness :
  Spec.forwards
    (trace_of (pushMetrics (mkPushEnv (Return "requests_total 42") (Return tt))
                 (boot Samples.pusher))) = 1%nat.
Proof.
  pose (w := mkPushEnv (Return "requests_total 42") (Return tt)).
  assert (Hne : parsePrometheusMetrics "requests_total 42" ≠ ∅)
    by (vm_compute; discriminate).
  destruct (proj1 (forwarded_samples_come_from_the_registry (boot Samples.pusher) w)
              "requests_total 42" eq_refl eq_refl Hne) as (entry & Ht & _).
  fold w. rewrite Ht. reflexivity.
Defined.

End ForwardFacts.

(** ** The shape of the lines the parser reads *)

Module ParserShape.
Import JS Regex MetricsPusher Effects StringFacts PatternFacts ParseFacts.

Lemma split_lines_cons s : ∃ l ls, split_lines s = l :: ls.
Proof.
  induction s as [|c s (l & ls & IH)]; simpl; [by eexists _, _|].
  destruct (Nat.eqb (code c) 10); [by eexists _, _|].
  rewrite IH. by eexists _, _.
Qed.

Lemma split_lines_app a b :
  split_lines (a +:+ nl +:+ b) = split_lines a ++ split_lines b.
Proof.
  induction a as [|c a IH].
  - reflexivity.
  - rewrite append_cons. cbn [split_lines]. rewrite IH.
    destruct (Nat.eqb (code c) 10); [reflexivity|].
    by destruct (split_lines_cons a) as (l & ls & ->).
Qed.

Lemma obj_set_union {V} (m1 m2 : gmap string V) key value :
  obj_set (m1 ∪ m2) key value = obj_set m1 key value ∪ m2.
Proof.
  unfold obj_set. destruct (decide (key = "__proto__")); [done|].
  by rewrite insert_union_l.
Qed.

Lemma parse_line_union m1 m2 line :
  parse_line (m1 ∪ m2) line = parse_line m1 line ∪ m2.
Proof.
  rewrite !parse_line_sample.
  destruct (Spec.sample line) as [[n v]|]; [apply obj_set_union|done].
Qed.

Lemma foldl_parse_line_union lines m1 m2 :
  foldl parse_line (m1 ∪ m2) lines = foldl parse_line m1 lines ∪ m2.
Proof.
  revert m1. induction lines as [|l ls IH]; intros m1; [done|].
  cbn [foldl]. by rewrite parse_line_union, IH.
Qed.

Lemma parse_app a b :
  parsePrometheusMetrics (a +:+ nl +:+ b)
  = parsePrometheusMetrics b ∪ parsePrometheusMetrics a.
Proof.
  unfold parsePrometheusMetrics.
  rewrite split_lines_app, foldl_app.
  rewrite <- (left_id_L ∅ (∪) (foldl parse_line ∅ (split_lines a))) at 1.
  apply foldl_parse_line_union.
Qed.

Lemma metric_name_valid line name :
  Spec.metric_name line = Some name → Reading.valid_name name = true.
Proof.
  unfold Spec.metric_name. destruct line as [|c r]; [done|].
  destruct (name_start c) eqn:Hc; [|done].
  intros [= <-]. cbn [span]. rewrite (name_start_char _ Hc).
  pose proof (span_all name_char r) as Hall.
  destruct (span name_char r) as [a b]. cbn [fst] in *.
  unfold Reading.valid_name. by rewrite Hc, Hall.
Qed.

Lemma sample_well_formed line name v :
  Spec.sample line = Some (name, v) →
  Reading.valid_name name = true ∧ isNaN v = false.
Proof.
  unfold Spec.sample.
  destruct (Spec.is_comment line || Spec.is_blank line); [done|].
  destruct (Spec.metric_name line) as [n|] eqn:Hn; [|done].
  destruct (Spec.value_token line) as [tok|]; [|done].
  destruct (parseFloat tok) eqn:Hv; [done| |]; intros [= <- <-];
    (split; [by eapply metric_name_valid|done]).
Qed.

Lemma last_sample_elem name lines v :
  Spec.last_sample name lines = Some v →
  ∃ line, line ∈ lines ∧ Spec.sample line = Some (name, v).
Proof.
  induction lines as [|l ls IH]; simpl; [done|].
  destruct (Spec.last_sample name ls) as [v'|].
  - intros [= <-]. destruct (IH eq_refl) as (line & Hin & Hs).
    exists line. split; [by right|done].
  - destruct (Spec.sample l) as [[n w]|] eqn:Hs; [|done].
    destruct (decide (n = name)) as [->|]; [|done].
    intros [= <-]. exists l. split; [by left|done].
Qed.

(** X8. The parser invents nothing.  Every entry of the object it returns
    has a name other than [__proto__] that is a well-formed metric name and
    a value that is not [NaN], and it comes from a line of the input: a line
    on which the loop body sets exactly that entry. *)
Theorem parsed_entries_are_samples metricsString name v :
  parsePrometheusMetrics metricsString !! name = Some v →
  name ≠ "__proto__"
  ∧ Reading.valid_name name = true
  ∧ isNaN v = false
  ∧ ∃ line, line ∈ split_lines metricsString
            ∧ ∀ metrics, parse_line metrics line = <[name := v]> metrics.
Proof.
  unfold parsePrometheusMetrics. intros Hl.
  assert (Hn : name ≠ "__proto__").
  { intros ->. by rewrite foldl_parse_line_proto in Hl. }
  rewrite foldl_parse_line_lookup in Hl by done.
  destruct (Spec.last_sample name (split_lines metricsString)) as [w|] eqn:Hlast;
    [|done].
  injection Hl as ->.
  destruct (last_sample_elem _ _ _ Hlast) as (line & Hin & Hs).
  destruct (sample_well_formed _ _ _ Hs) as [Hvalid Hnan].
  split; [done|]. split; [done|]. split; [done|]. exists line. split; [done|].
  intros metrics. rewrite parse_line_sample, Hs. unfold obj_set.
  by rewrite decide_False.
Qed.

Lemma parsed_entries_are_samples_witness :
  parsePrometheusMetrics "up 1" !! "up" = Some (Fin 1)
  ∧ Reading.valid_name "up" = true.
Proof.
  assert (H : parsePrometheusMetrics "up 1" !! "up" = Some (Fin 1))
    by (vm_compute; reflexivity).
  split; [exact H|].
  exact (proj1 (proj2 (parsed_entries_are_samples "up 1" "up" (Fin 1) H))).
Defined.

(** X9. Parsing composes over concatenation.  The empty text has no
    samples, and the samples of two texts joined by a line feed are those
    of the second text together with those of the first one that the
    second does not redefine. *)
Theorem parse_concatenation a b :
  parsePrometheusMetrics "" = ∅
  ∧ parsePrometheusMetrics (a +:+ nl +:+ b)
    = parsePrometheusMetrics b ∪ parsePrometheusMetrics a.
Proof. split; [reflexivity|apply parse_app]. Qed.

Lemma split_lines_one c : Reading.one_line c = true → split_lines c = [c].
Proof.
  unfold Reading.one_line. induction c as [|x c IH]; [done|]. simpl.
  intros [Hx Hc]%andb_true_iff. apply negb_true_iff in Hx.
  by rewrite Hx, (IH Hc).
Qed.

Lemma parse_silent_line c :
  Reading.one_line c = true →
  Spec.is_comment c || Spec.is_blank c = true →
  parsePrometheusMetrics c = ∅.
Proof.
  intros Hone Hc. unfold parsePrometheusMetrics.
  rewrite (split_lines_one _ Hone). cbn [foldl].
  rewrite parse_line_sample. unfold Spec.sample. by rewrite Hc.
Qed.

(** X10. Comment lines and blank lines count for nothing, wherever they
    stand: a line that starts with [#] or trims to nothing can be
    put between two texts, before a text or after it without changing the
    object the parser returns. *)
Theorem comments_are_ignored a c b :
  Reading.one_line c = true →
  startsWith "#" c || negb (truthy_str (trim c)) = true →
  parsePrometheusMetrics (a +:+ nl +:+ c +:+ nl +:+ b)
  = parsePrometheusMetrics (a +:+ nl +:+ b)
  ∧ parsePrometheusMetrics (c +:+ nl +:+ b) = parsePrometheusMetrics b
  ∧ parsePrometheusMetrics (a +:+ nl +:+ c) = parsePrometheusMetrics a.
Proof.
  intros Hone Hc. rewrite startsWith_hash, trim_blank in Hc.
  pose proof (parse_silent_line c Hone Hc) as Hnone.
  rewrite !parse_app, Hnone.
  by rewrite (right_id_L ∅ (∪)), (left_id_L ∅ (∪)).
Qed.

Lemma comments_are_ignored_witness :
  parsePrometheusMetrics ("up 1" +:+ nl +:+ "# TYPE up gauge" +:+ nl +:+ "down 0")
  = parsePrometheusMetrics ("up 1" +:+ nl +:+ "down 0").
Proof.
  exact (proj1 (comments_are_ignored "up 1" "# TYPE up gauge" "down 0"
                  eq_refl eq_refl)).
Defined.

Lemma append_assoc3 (a b c : string) : (a +:+ b) +:+ c = a +:+ (b +:+ c).
Proof. induction a as [|x a IH]; [done|]. by rewrite !append_cons, IH. Qed.

Lemma append_nil_r (a : string) : a +:+ "" = a.
Proof. induction a as [|x a IH]; [done|]. by rewrite append_cons, IH. Qed.

Lemma span_run p a b :
  all_chars p a = true → Reading.stops p b → span p (a +:+ b) = (a, b).
Proof.
  intros Ha Hb. induction a as [|x a IH].
  - destruct b as [|c b]; [done|]. simpl in *. by rewrite Hb.
  - simpl in Ha. apply andb_true_iff in Ha as [Hx Ha].
    rewrite append_cons. cbn [span]. rewrite Hx, (IH Ha). done.
Qed.

Lemma all_chars_app p a b : all_chars p (a +:+ b) = all_chars p a && all_chars p b.
Proof.
  induction a as [|x a IH]; [done|].
  rewrite append_cons. simpl. by rewrite IH, andb_assoc.
Qed.

Lemma all_chars_impl (p q : ascii → bool) a :
  (∀ c, p c = true → q c = true) → all_chars p a = true → all_chars q a = true.
Proof.
  intros Hpq. induction a as [|x a IH]; [done|]. simpl.
  intros [Hx Ha]%andb_true_iff. by rewrite (Hpq _ Hx), IH.
Qed.

Lemma value_at_chars s tok :
  Spec.value_at s = Some tok →
  all_chars (λ c, is_space c || value_char c) s = true.
Proof.
  unfold Spec.value_at.
  pose proof (span_app is_space s) as H1. pose proof (span_all is_space s) as A1.
  destruct (span is_space s) as [ws r1]. cbn [fst snd] in *.
  pose proof (span_app value_char r1) as H2. pose proof (span_all value_char r1) as A2.
  destruct (span value_char r1) as [tk r2]. cbn [fst snd] in *.
  destruct (truthy_str ws && truthy_str tk); [|done].
  pose proof all_chars_app as Happ. pose proof all_chars_impl as Hmono.
  assert (S1 : all_chars (λ c, is_space c || value_char c) ws = true).
  { eapply Hmono; [|exact A1]. intros c ->. done. }
  assert (S2 : all_chars (λ c, is_space c || value_char c) tk = true).
  { eapply Hmono; [|exact A2]. intros c ->. by rewrite orb_true_r. }
  destruct r2 as [|y r2'].
  - intros _. subst r1 s. rewrite append_nil_r. by rewrite Happ, S1, S2.
  - pose proof (span_app is_space (String y r2')) as H3.
    pose proof (span_all is_space (String y r2')) as A3.
    destruct (span is_space (String y r2')) as [ws2 r3]. cbn [fst snd] in *.
    pose proof (span_app is_digit r3) as H4. pose proof (span_all is_digit r3) as A4.
    destruct (span is_digit r3) as [ds r4]. cbn [fst snd] in *.
    destruct r4; cbn; [|by rewrite !andb_false_r].
    destruct (truthy_str ws2 && truthy_str ds); [|done]. intros _.
    rewrite append_nil_r in H4. subst ds.
    rewrite <- H1, <- H2, <- H3. rewrite !Happ, S1, S2.
    assert (S3 : all_chars (λ c, is_space c || value_char c) ws2 = true).
    { eapply Hmono; [|exact A3]. intros c ->. done. }
    assert (S4 : all_chars (λ c, is_space c || value_char c) r3 = true).
    { eapply Hmono; [|exact A4]. intros c Hc. unfold value_char. by rewrite Hc, orb_true_r. }
    by rewrite S3, S4.
Qed.

(** The search for the value passes over a stretch that ends in a
    character that is neither white space nor part of a value. *)
Lemma value_token_skip p c s :
  is_space c = false → value_char c = false →
  Spec.value_token (p +:+ String c s) = Spec.value_token s.
Proof.
  intros Hs Hv.
  assert (Hnone : ∀ q, Spec.value_at (q +:+ String c s) = None).
  { intros q. destruct (Spec.value_at (q +:+ String c s)) as [tok|] eqn:Hat; [|done].
    apply value_at_chars in Hat. rewrite all_chars_app in Hat.
    simpl in Hat. rewrite Hs, Hv in Hat. simpl in Hat.
    by rewrite andb_false_r in Hat. }
  induction p as [|x p IH].
  - pose proof (Hnone "") as H0.
    change ("" +:+ String c s) with (String c s) in *.
    cbn [Spec.value_token]. by rewrite H0.
  - rewrite append_cons. cbn [Spec.value_token].
    rewrite <- append_cons, (Hnone (String x p)). exact IH.
Qed.

Lemma value_at_needs_space x r : is_space x = false → Spec.value_at (String x r) = None.
Proof.
  intros Hx.
  assert (Hsp : span is_space (String x r) = ("", String x r)) by (simpl; by rewrite Hx).
  unfold Spec.value_at. rewrite Hsp.
  by destruct (span value_char (String x r)).
Qed.

(** It passes over a stretch without white space too. *)
Lemma value_token_solid p s :
  all_chars (λ c, negb (is_space c)) p = true →
  Spec.value_token (p +:+ s) = Spec.value_token s.
Proof.
  induction p as [|x p IH]; [done|]. simpl.
  intros [Hx Hp]%andb_true_iff. rewrite ?append_cons.
  apply negb_true_iff in Hx.
  cbn [Spec.value_token]. rewrite (value_at_needs_space _ _ Hx). by apply IH.
Qed.

(** Where the value stands: white space, the value text and the optional
    timestamp, up to the end of the line. *)
Lemma value_at_tail ws tok stamp :
  Reading.blanks ws = true → Reading.value_text tok = true → Reading.timestamp stamp →
  Spec.value_at (ws +:+ tok +:+ stamp) = Some tok.
Proof.
  intros [Hws Aws]%andb_true_iff [Htok Atok]%andb_true_iff Hstamp.
  unfold Spec.value_at.
  assert (Hstop : Reading.stops value_char stamp).
  { destruct Hstamp as [->|(ws2 & ds & -> & [H1 H2]%andb_true_iff & _)]; [done|].
    destruct ws2 as [|c ws2]; [done|]. simpl in *.
    apply andb_true_iff in H2 as [Hc _]. by apply space_not_value. }
  rewrite (span_run is_space ws (tok +:+ stamp)); [|done|].
  2:{ destruct tok as [|c tok]; [done|]. simpl in *.
      apply andb_true_iff in Atok as [Hc _]. by apply value_not_space. }
  rewrite (span_run value_char tok stamp) by done.
  rewrite Hws, Htok. cbn [andb].
  destruct Hstamp as [->|(ws2 & ds & -> & [H1 H2]%andb_true_iff & [H3 H4]%andb_true_iff)];
    [done|].
  destruct (ws2 +:+ ds) as [|y r] eqn:Hr; [done|]. rewrite <- Hr.
  rewrite (span_run is_space ws2 ds); [|done|].
  2:{ destruct ds as [|c ds]; [done|]. simpl in *.
      apply andb_true_iff in H4 as [Hc _].
      destruct (is_space c) eqn:Hsp; [|done]. by rewrite (space_not_digit _ Hsp) in Hc. }
  rewrite <- (append_nil_r ds) at 1.
  rewrite (span_run is_digit ds "") by done.
  by rewrite H1, H3.
Qed.

Lemma name_not_space c : name_char c = true → is_space c = false.
Proof. destruct c as [[] [] [] [] [] [] [] []]; vm_compute; congruence. Qed.

Lemma value_token_tail ws tok stamp :
  Reading.blanks ws = true → Reading.value_text tok = true → Reading.timestamp stamp →
  Spec.value_token (ws +:+ tok +:+ stamp) = Some tok.
Proof.
  intros Hws Htok Hstamp.
  pose proof (value_at_tail ws tok stamp Hws Htok Hstamp) as Hat.
  destruct (ws +:+ tok +:+ stamp); cbn [Spec.value_token]; by rewrite Hat.
Qed.

(** X11. Labels are discarded whatever they hold.  A line that is a
    metric name, an optional label block in braces (any text, white space,
    digits and quotes included), white space, a value written with the
    characters [0-9.eE+-] and an optional timestamp adds the entry of the
    name with the number the value text parses to, and leaves the object as
    it was when the value text parses to no number; neither the labels nor
    the timestamp leave a trace in the entry. *)
Theorem labels_are_discarded metrics name labels ws tok stamp :
  Reading.valid_name name = true →
  Reading.label_block labels →
  Reading.blanks ws = true →
  Reading.value_text tok = true →
  Reading.timestamp stamp →
  parse_line metrics (name +:+ labels +:+ ws +:+ tok +:+ stamp)
  = if isNaN (parseFloat tok) then metrics
    else obj_set metrics name (parseFloat tok).
Proof.
  intros Hname Hlabels Hws Htok Hstamp.
  rewrite parse_line_sample.
  destruct name as [|c r]; [done|].
  apply andb_true_iff in Hname as [Hc Hr].
  pose proof (name_start_char _ Hc) as Hc'.
  set (rest := labels +:+ ws +:+ tok +:+ stamp).
  assert (Hstop : Reading.stops name_char rest).
  { subst rest. destruct Hlabels as [->|(body & ->)].
    - destruct ws as [|x ws]; [done|]. apply andb_true_iff in Hws as [_ Hx].
      simpl in Hx. apply andb_true_iff in Hx as [Hx _]. simpl.
      destruct (name_char x) eqn:Hn; [|done]. by rewrite (name_not_space _ Hn) in Hx.
    - reflexivity. }
  assert (Hval : Spec.value_token (String c r +:+ rest) = Some tok).
  { subst rest. destruct Hlabels as [->|(body & ->)].
    - change ("" +:+ ws +:+ tok +:+ stamp) with (ws +:+ tok +:+ stamp).
      rewrite value_token_solid; [by apply value_token_tail|].
      apply (all_chars_impl name_char); [intros x Hx; by rewrite (name_not_space _ Hx)|].
      simpl. by rewrite Hc', Hr.
    - rewrite !append_assoc3. rewrite <- (append_assoc3 (String c r) "{").
      rewrite <- (append_assoc3 _ body).
      change ("}" +:+ ws +:+ tok +:+ stamp) with (String "}" (ws +:+ tok +:+ stamp)).
      rewrite value_token_skip by reflexivity.
      by apply value_token_tail. }
  unfold Spec.sample. rewrite Hval.
  rewrite append_cons.
  assert (Hcom : Spec.is_comment (String c (r +:+ rest)) = false).
  { simpl. destruct c as [[] [] [] [] [] [] [] []]; try reflexivity.
    vm_compute in Hc. discriminate Hc. }
  assert (Hbl : Spec.is_blank (String c (r +:+ rest)) = false).
  { unfold Spec.is_blank. simpl. by rewrite (name_not_space _ Hc'). }
  rewrite Hcom, Hbl. cbn [orb].
  unfold Spec.metric_name. rewrite Hc.
  rewrite <- append_cons.
  rewrite (span_run name_char (String c r) rest); [|simpl; by rewrite Hc', Hr|done].
  cbn [fst]. by destruct (parseFloat tok).
Qed.

Lemma labels_are_discarded_witness :
  parse_line ∅
    ("http_requests_total" +:+ "{path=/a b,code=200}" +:+ " " +:+ "1027"
     +:+ " 1700000000000")
  = {[ "http_requests_total" := Fin 1027 ]}.
Proof.
  rewrite (labels_are_discarded ∅ "http_requests_total" "{path=/a b,code=200}"
             " " "1027" " 1700000000000").
  - reflexivity.
  - reflexivity.
  - right. by exists "path=/a b,code=200".
  - reflexivity.
  - reflexivity.
  - right. by exists " ", "1700000000000".
Defined.

End ParserShape.

(** ** The shared registry and the route that serves it *)

Module RegistryFacts.
Import Effects Registry.

Lemma getRegistry_unfold s :
  getRegistry s
  = match sharedRegistry s with
    | Some registry => ((s, []), Return registry)
    | None => ((mkState (Some (created s)) (S (created s)), [ENewRegistry]),
               Return (created s))
    end.
Proof. unfold getRegistry. run_effects. by destruct (sharedRegistry s). Qed.

Lemma run_get ops s :
  run (GetRegistry :: ops) s
  = let '((s1, t1), _) := getRegistry s in
    let r := default (created s) (sharedRegistry s) in
    match run ops s1 with
    | ((s2, t2), Return l) => ((s2, t1 ++ t2), Return (r :: l))
    | ((s2, t2), Throw e) => ((s2, t1 ++ t2), Throw e)
    end.
Proof.
  cbn [run]. rewrite getRegistry_unfold.
  destruct (sharedRegistry s) as [r|] eqn:Hs; run_effects.
  - rewrite getRegistry_unfold, Hs.
    destruct (run ops s) as [[s2 t2] [l|e]]; cbn; by rewrite ?app_nil_r.
  - rewrite getRegistry_unfold, Hs. cbn.
    destruct (run ops _) as [[s2 t2] [l|e]]; cbn; by rewrite ?app_nil_r.
Qed.

Lemma run_reset ops s :
  run (ResetRegistry :: ops) s = run ops (mkState None (created s)).
Proof.
  cbn [run]. unfold resetRegistry. run_effects.
  by destruct (run ops _) as [[s2 t2] [l|e]].
Qed.

(** Every registry a run hands out is the shared one it started with or
    one created during the run. *)
Lemma run_results ops : ∀ s,
  ∃ s' t l,
    run ops s = ((s', t), Return l)
    ∧ (created s ≤ created s')%nat
    ∧ (∀ r, sharedRegistry s' = Some r →
            sharedRegistry s = Some r ∨ (created s ≤ r < created s')%nat)
    ∧ ∀ x, x ∈ l → sharedRegistry s = Some x ∨ (created s ≤ x < created s')%nat.
Proof.
  induction ops as [|[] ops IH]; intros s.
  - exists s, [], []. split; [done|]. split; [done|]. split; [by left|].
    intros x Hx. by apply elem_of_nil in Hx.
  - rewrite run_get, getRegistry_unfold.
    destruct (sharedRegistry s) as [r|] eqn:Hs.
    + destruct (IH s) as (s' & t & l & -> & Hle & Hsh & Hl).
      exists s', t, (r :: l). rewrite Hs in *. split; [done|]. split; [done|].
      split; [done|]. intros x [->|Hx]%elem_of_cons; [by left|by apply Hl].
    + destruct (IH (mkState (Some (created s)) (S (created s))))
        as (s' & t & l & -> & Hle & Hsh & Hl). cbn in *.
      exists s', (ENewRegistry :: t), (created s :: l).
      split; [done|]. split; [lia|].
      split.
      { intros r Hr. right. destruct (Hsh r Hr) as [[= <-]|?]; lia. }
      intros x [->|Hx]%elem_of_cons; [right; lia|].
      right. destruct (Hl x Hx) as [[= <-]|?]; lia.
  - rewrite run_reset.
    destruct (IH (mkState None (created s))) as (s' & t & l & -> & Hle & Hsh & Hl).
    cbn in *. exists s', t, l. split; [done|]. split; [done|].
    split.
    { intros r Hr. right. by destruct (Hsh r Hr). }
    intros x Hx. right. by destruct (Hl x Hx).
Qed.

Lemma run_app a : ∀ b s,
  run (a ++ b) s
  = match run a s with
    | ((s1, t1), Return l1) =>
        match run b s1 with
        | ((s2, t2), Return l2) => ((s2, t1 ++ t2), Return (l1 ++ l2))
        | ((s2, t2), Throw e) => ((s2, t1 ++ t2), Throw e)
        end
    | r => r
    end.
Proof.
  induction a as [|[] a IH]; intros b s.
  - cbn [app]. change (run [] s) with ((s, @nil event), Return (@nil nat)).
    cbv iota beta. by destruct (run b s) as [[s2 t2] [l|e]].
  - cbn [app]. rewrite !run_get, !getRegistry_unfold.
    destruct (sharedRegistry s) as [r|]; cbv iota beta zeta; rewrite IH.
    + destruct (run a s) as [[s2 t2] [l|e]]; [|done].
      by destruct (run b s2) as [[s3 t3] [l3|e]].
    + destruct (run a _) as [[s2 t2] [l|e]]; [|done].
      by destruct (run b s2) as [[s3 t3] [l3|e]].
  - cbn [app]. rewrite !run_reset. apply IH.
Qed.

(** X12. The registry is shared until it is reset.  Calls of
    [getRegistry] that follow one another return one and the same registry
    and create at most one, none when a registry is there already; and
    after [resetRegistry] every call returns a registry that no call
    before the reset has returned. *)
Theorem registry_is_shared_until_reset :
  (∀ s n,
     ∃ registry,
       result_of (run (replicate n GetRegistry) s) = Return (replicate n registry)
       ∧ (length (trace_of (run (replicate n GetRegistry) s)) ≤ 1)%nat
       ∧ (∀ r, sharedRegistry s = Some r →
               registry = r ∧ trace_of (run (replicate n GetRegistry) s) = []))
  ∧ (∀ before after,
       ∃ earlier later,
         result_of (run before initial) = Return earlier
         ∧ result_of (run (before ++ ResetRegistry :: after) initial)
           = Return (earlier ++ later)
         ∧ ∀ x, x ∈ later → x ∉ earlier).
Proof.
  split.
  - intros s n. exists (default (created s) (sharedRegistry s)).
    revert s. induction n as [|n IH]; intros s.
    { split; [done|]. split; [cbn; lia|]. intros r Hr. by rewrite Hr. }
    cbn [replicate]. rewrite run_get, getRegistry_unfold.
    destruct (sharedRegistry s) as [r|] eqn:Hs.
    + destruct (IH s) as (Hr & Hlen & Hsh). rewrite Hs in *. cbn in *.
      destruct (Hsh r eq_refl) as [_ Ht].
      unfold result_of, trace_of in *.
      destruct (run (replicate n GetRegistry) s) as [[s2 t2] [l|e]];
        cbn [fst snd] in *; [|done].
      injection Hr as ->. subst t2. split; [done|]. split; [cbn; lia|].
      by intros ? [= <-].
    + destruct (IH (mkState (Some (created s)) (S (created s)))) as (Hr & Hlen & Hsh).
      cbn in *. destruct (Hsh _ eq_refl) as [_ Ht].
      unfold result_of, trace_of in *.
      destruct (run (replicate n GetRegistry) _) as [[s2 t2] [l|e]];
        cbn [fst snd] in *; [|done].
      injection Hr as ->. subst t2. split; [done|]. split; [cbn; lia|done].
  - intros before after.
    destruct (run_results before initial) as (s1 & t1 & l1 & Hb & Hle & Hsh & Hl).
    destruct (run_results after (mkState None (created s1)))
      as (s2 & t2 & l2 & Ha & Hle2 & _ & Hl2).
    exists l1, l2. rewrite run_app, Hb, run_reset, Ha.
    split; [done|]. split; [done|].
    intros x Hx Hx'. destruct (Hl2 x Hx) as [|Hnew]; [done|].
    destruct (Hl x Hx') as [|Hold]; [done|]. cbn in *. lia.
Qed.

End RegistryFacts.

Module RouteFacts.
Import Effects MetricsRoutes.

(** X13. The metrics route always answers, and once.  Whatever the
    registry does, the handler returns normally, reads the shared registry
    (creating it when there is none), sets the content type of the registry
    first and ends the response exactly once: with the metrics text when
    the registry yields it, and otherwise, after one error log, with status
    500 and the text "Error generating metrics", the content type of the
    registry being set already. *)
Theorem metrics_route_always_answers logger w s :
  let r := createMetricsRouter logger w s in
  let registry := default (Registry.created s) (Registry.sharedRegistry s) in
  result_of r = Return tt
  ∧ Registry.sharedRegistry (state_of r) = Some registry
  ∧ trace_of r
    = (match Registry.sharedRegistry s with
       | Some _ => []
       | None => [ERegistry Registry.ENewRegistry]
       end)
      ++ [ESet "Content-Type" (contentType w); EMetrics registry]
      ++ match metrics w with
         | Return text => [EEnd text]
         | Throw e =>
             [ELog (mkLog (logger_or_console logger) Error "Error generating metrics"
                      [("component", "MetricsRoutes"); ("error", error_message e)]);
              EStatus 500; EEnd "Error generating metrics"]
         end.
Proof.
  cbv zeta. unfold createMetricsRouter, lift, Registry.getRegistry. run_effects.
  destruct (Registry.sharedRegistry s) as [registry|] eqn:Hs; cbn;
    destruct (metrics w); cbn; by rewrite ?Hs.
Qed.

End RouteFacts.

(** ** The life cycle of the Kafka consumer *)

Module ConsumerLifecycle.
Import KafkaConsumer Effects ConsumerFacts EffectFacts.

Lemma kafka_connect_unfold connected c :
  connect connected c
  = let before := ELog (mkLog (logger c) Info "Connecting to Kafka..." [component c]) in
    match connected with
    | Return _ =>
        ((c, [before; EConnect;
              ELog (mkLog (logger c) Info "Connected to Kafka successfully"
                      [component c])]), Return tt)
    | Throw e =>
        ((c, [before; EConnect;
              ELog (mkLog (logger c) Error "Failed to connect to Kafka"
                      [component c; ("error", error_message e)])]), Throw e)
    end.
Proof.
  unfold connect, log. run_effects. by destruct connected as [[]|e].
Qed.

Lemma kafka_disconnect_unfold disconnected c :
  disconnect disconnected c
  = if isRunning c then
      let before := ELog (mkLog (logger c) Info "Disconnecting from Kafka..."
                            [component c]) in
      match disconnected with
      | Return _ =>
          ((state_of (set_running false c),
            [before; EDisconnect;
             ELog (mkLog (logger c) Info "Disconnected from Kafka successfully"
                     [component c])]), Return tt)
      | Throw e =>
          ((c, [before; EDisconnect;
                ELog (mkLog (logger c) Error "Error disconnecting from Kafka"
                        [component c; ("error", error_message e)])]), Return tt)
      end
    else
      ((c, [ELog (mkLog (logger c) Info "Consumer not running, nothing to disconnect"
                    [component c])]), Return tt).
Proof.
  unfold disconnect, log, set_running. run_effects.
  destruct (isRunning c); cbn [negb]; [|done].
  by destruct disconnected as [[]|e].
Qed.

Lemma kafka_subscribe_unfold topic fromBeginning subscribed started c :
  subscribe topic fromBeginning subscribed started c
  = let failed e :=
      ELog (mkLog (logger c) Error "Failed to subscribe to topic"
              [component c; ("topic", topic); ("error", error_message e)]) in
    let noted :=
      ELog (mkLog (logger c) Info "Subscribed to topic" [component c; ("topic", topic)]) in
    match subscribed with
    | Throw e => ((c, [ESubscribe topic fromBeginning; failed e]), Throw e)
    | Return _ =>
        match started with
        | Throw e =>
            ((c, [ESubscribe topic fromBeginning; noted; ERun; failed e]), Throw e)
        | Return _ =>
            ((state_of (set_running true c),
              [ESubscribe topic fromBeginning; noted; ERun;
               ELog (mkLog (logger c) Info "Consumer started successfully"
                       [component c; ("topic", topic)])]), Return tt)
        end
    end.
Proof.
  unfold subscribe, log, set_running. run_effects.
  destruct subscribed as [[]|e]; [|done].
  by destruct started as [[]|e].
Qed.

Lemma kafka_run_cons o ops c :
  run (o :: ops) c
  = ((state_of (run ops (state_of (step o c))),
      trace_of (step o c) ++ trace_of (run ops (state_of (step o c)))),
     result_of (run ops (state_of (step o c)))).
Proof.
  cbn [run]. change (mbind ?f ?m) with (bind m f). unfold bind at 1.
  rewrite attempt_spec.
  unfold state_of, trace_of, result_of.
  by destruct (run ops _) as [[c2 t2] [[]|e]].
Qed.

(** One step, in the words of the bookkeeping. *)
Lemma kafka_step_spec o c :
  let c1 := state_of (step o c) in
  isRunning c1
  = match o with
    | Subscribe _ _ (Return _) (Return _) => true
    | Disconnect (Return _) => false
    | _ => isRunning c
    end
  ∧ (stats_isRunning (stats c) = isRunning c →
     stats_isRunning (stats c1) = isRunning c1)
  ∧ processedCount (stats c1)
    = (processedCount (stats c) + Spec.successes (Reading.deliveries [o]))%nat
  ∧ errorCount (stats c1)
    = (errorCount (stats c) + Spec.failures (Reading.deliveries [o]))%nat
  ∧ lastProcessedAt (stats c1)
    = match Reading.last_clock (Reading.deliveries [o]) with
      | Some t => Some t
      | None => lastProcessedAt (stats c)
      end
  ∧ Spec.handler_calls (trace_of (step o c)) = map payload (Reading.deliveries [o])
  ∧ serviceName c1 = serviceName c ∧ logger c1 = logger c.
Proof.
  destruct o as [connected|topic fb subscribed started|d|disconnected]; cbn [step].
  - rewrite kafka_connect_unfold.
    destruct connected as [[]|e]; cbn; repeat split; first [done | lia].
  - rewrite kafka_subscribe_unfold.
    destruct subscribed as [[]|e]; [destruct started as [[]|e]|]; cbn;
      repeat split; first [done | lia].
  - rewrite eachMessage_unfold. unfold Spec.successes, Spec.failures.
    destruct (handler_outcome d) as [[]|e] eqn:Hd; cbn; rewrite ?Hd; cbn;
      repeat split; first [done | lia].
  - rewrite kafka_disconnect_unfold.
    destruct (isRunning c) eqn:Hrun; [destruct disconnected as [[]|e]|
                                      destruct disconnected as [[]|e]];
      cbn; rewrite ?Hrun; repeat split; first [done | lia].
Qed.

Lemma deliveries_cons o ops :
  Reading.deliveries (o :: ops) = Reading.deliveries [o] ++ Reading.deliveries ops.
Proof. unfold Reading.deliveries. by destruct o. Qed.

Lemma successes_app a b :
  Spec.successes (a ++ b) = (Spec.successes a + Spec.successes b)%nat.
Proof. unfold Spec.successes. by rewrite List.filter_app, length_app. Qed.

Lemma failures_app a b :
  Spec.failures (a ++ b) = (Spec.failures a + Spec.failures b)%nat.
Proof. unfold Spec.failures. by rewrite List.filter_app, length_app. Qed.

Lemma last_clock_app a b :
  Reading.last_clock (a ++ b)
  = match Reading.last_clock b with
    | Some t => Some t
    | None => Reading.last_clock a
    end.
Proof.
  unfold Reading.last_clock. destruct b as [|x b] using rev_ind.
  - by rewrite app_nil_r.
  - by rewrite app_assoc, !last_snoc.
Qed.

Lemma handler_calls_app a b :
  Spec.handler_calls (a ++ b) = Spec.handler_calls a ++ Spec.handler_calls b.
Proof. apply omap_app. Qed.

Lemma kafka_run_spec ops : ∀ c,
  let c1 := state_of (run ops c) in
  result_of (run ops c) = Return tt
  ∧ isRunning c1
    = foldl (λ b o, match o with
                    | Subscribe _ _ (Return _) (Return _) => true
                    | Disconnect (Return _) => false
                    | _ => b
                    end) (isRunning c) ops
  ∧ (stats_isRunning (stats c) = isRunning c →
     stats_isRunning (stats c1) = isRunning c1)
  ∧ processedCount (stats c1)
    = (processedCount (stats c) + Spec.successes (Reading.deliveries ops))%nat
  ∧ errorCount (stats c1)
    = (errorCount (stats c) + Spec.failures (Reading.deliveries ops))%nat
  ∧ lastProcessedAt (stats c1)
    = match Reading.last_clock (Reading.deliveries ops) with
      | Some t => Some t
      | None => lastProcessedAt (stats c)
      end
  ∧ Spec.handler_calls (trace_of (run ops c)) = map payload (Reading.deliveries ops).
Proof.
  induction ops as [|o ops IH]; intros c.
  - cbn. repeat split; first [done | lia].
  - rewrite kafka_run_cons.
    destruct (kafka_step_spec o c) as (Hrun & Hagree & Hp & He & Hlast & Hcalls & _).
    destruct (IH (state_of (step o c))) as (Hr' & Hrun' & Hagree' & Hp' & He' & Hlast' & Hcalls').
    cbv zeta in *. rewrite !state_of_mk, !trace_of_mk, !result_of_mk.
    rewrite deliveries_cons, successes_app, failures_app, last_clock_app,
      handler_calls_app, map_app.
    split; [done|]. split.
    { rewrite Hrun'. cbn [foldl]. by rewrite Hrun. }
    split; [tauto|].
    split; [lia|]. split; [lia|]. split.
    { rewrite Hlast'. destruct (Reading.last_clock (Reading.deliveries ops)); [done|].
      exact Hlast. }
    by rewrite Hcalls, Hcalls'.
Qed.

(** X14. The books of a consumer, over its whole life.  For a consumer
    as the constructor leaves it and any sequence of [connect], [subscribe],
    [disconnect] calls and deliveries, with any outcomes: no call of the
    sequence stops the next ones, [isConsumerRunning()] tells whether a
    [subscribe] has gone through and no [disconnect] has gone through
    since, [getStats().isRunning] agrees with it, the two counters are the
    numbers of deliveries on which the handler returned and threw,
    [lastProcessedAt] is the clock reading of the last delivery ([null]
    when there was none), and the handler has seen every delivery, in
    order. *)
Theorem consumer_bookkeeping config c ops :
  result_of (new config tt) = Return c →
  let c1 := state_of (run ops c) in
  result_of (run ops c) = Return tt
  ∧ isConsumerRunning c1 = Reading.subscribed ops
  ∧ stats_isRunning (getStats c1) = isConsumerRunning c1
  ∧ processedCount (getStats c1) = Spec.successes (Reading.deliveries ops)
  ∧ errorCount (getStats c1) = Spec.failures (Reading.deliveries ops)
  ∧ lastProcessedAt (getStats c1) = Reading.last_clock (Reading.deliveries ops)
  ∧ Spec.handler_calls (trace_of (run ops c)) = map payload (Reading.deliveries ops).
Proof.
  intros Hnew.
  assert (Hc : isRunning c = false ∧ stats c = mkStats 0 0 None false).
  { revert Hnew. unfold new.
    repeat match goal with |- context [if ?b then _ else _] => destruct b end;
      try discriminate.
    run_effects. by intros [= <-]. }
  destruct Hc as [Hrun Hstats].
  destruct (kafka_run_spec ops c) as (Hr & Hrun' & Hagree & Hp & He & Hlast & Hcalls).
  cbv zeta in *. unfold isConsumerRunning, getStats, Reading.subscribed.
  rewrite Hstats, Hrun in *. cbn in *.
  split; [done|]. split; [done|]. split; [by apply Hagree|].
  split; [done|]. split; [done|]. split; [|done].
  rewrite Hlast. by destruct (Reading.last_clock (Reading.deliveries ops)).
Qed.

Lemma new_consumer config c :
  result_of (new config tt) = Return c →
  isRunning c = false ∧ stats c = mkStats 0 0 None false.
Proof.
  unfold new.
  repeat match goal with |- context [if ?b then _ else _] => destruct b end;
    try discriminate.
  run_effects. by intros [= <-].
Qed.

Lemma client_disconnects_app a b :
  Reading.client_disconnects (a ++ b)
  = (Reading.client_disconnects a + Reading.client_disconnects b)%nat.
Proof. unfold Reading.client_disconnects. by rewrite List.filter_app, length_app. Qed.

Lemma idle_run_never_disconnects ops : ∀ c,
  isRunning c = false → Reading.never_subscribed ops = true →
  Reading.client_disconnects (trace_of (run ops c)) = 0%nat
  ∧ isRunning (state_of (run ops c)) = false.
Proof.
  induction ops as [|o ops IH]; intros c Hrun Hnever; [done|].
  cbn [Reading.never_subscribed forallb] in Hnever.
  apply andb_true_iff in Hnever as [Ho Hnever].
  rewrite kafka_run_cons, state_of_mk, trace_of_mk, client_disconnects_app.
  assert (Hstep : Reading.client_disconnects (trace_of (step o c)) = 0%nat
                  ∧ isRunning (state_of (step o c)) = false).
  { destruct o as [connected|topic fb subscribed started|d|disconnected]; cbn [step].
    - rewrite kafka_connect_unfold. by destruct connected as [[]|e].
    - rewrite kafka_subscribe_unfold.
      destruct subscribed as [[]|e]; [destruct started as [[]|e]|]; done.
    - rewrite eachMessage_unfold. by destruct (handler_outcome d) as [[]|e].
    - rewrite kafka_disconnect_unfold, Hrun. done. }
  destruct Hstep as [H0 Hrun1].
  destruct (IH _ Hrun1 Hnever) as [H0' Hrun']. by rewrite H0, H0'.
Qed.

(** X15. [disconnect()] never rejects, and it reaches the client only
    when the consumer runs: on a running consumer it calls
    [consumer.disconnect()] once, clears the flag when the call went
    through and, when it failed, logs the failure and leaves the instance
    as it was; on a consumer that does not run it calls nothing.  So no
    sequence of calls without a [subscribe] that went through ever
    disconnects the client, whatever [connect()] did before. *)
Theorem disconnect_needs_running :
  (∀ disconnected c,
     result_of (disconnect disconnected c) = Return tt
     ∧ Reading.client_disconnects (trace_of (disconnect disconnected c))
       = (if isRunning c then 1 else 0)%nat
     ∧ isRunning (state_of (disconnect disconnected c))
       = isRunning c && negb (returned disconnected)
     ∧ (returned disconnected = false →
        state_of (disconnect disconnected c) = c
        ∧ (isRunning c = true →
           Reading.consumer_logs (trace_of (disconnect disconnected c))
           = [(Info, "Disconnecting from Kafka...");
              (Error, "Error disconnecting from Kafka")])))
  ∧ (∀ config c ops,
       result_of (new config tt) = Return c →
       Reading.never_subscribed ops = true →
       Reading.client_disconnects (trace_of (run ops c)) = 0%nat).
Proof.
  split.
  - intros disconnected c. rewrite kafka_disconnect_unfold.
    destruct (isRunning c) eqn:Hrun; destruct disconnected as [[]|e]; cbn;
      rewrite ?Hrun; repeat split; first [done | discriminate].
  - intros config c ops Hnew Hnever.
    destruct (new_consumer _ _ Hnew) as [Hrun _].
    by destruct (idle_run_never_disconnects ops c Hrun Hnever).
Qed.

(** X16. A consumer that was constructed is complete.  When the
    constructor returns, it has created one Kafka client and one consumer,
    with the brokers, user name, password and group of the configuration,
    none of them empty, a non-empty client id and SASL mechanism, and TLS
    switched on unless the configuration says [ssl: false]; the instance
    does not run and its statistics are at zero. *)
Theorem constructed_consumer_is_complete config c :
  result_of (new config tt) = Return c →
  ∃ kafka consumer,
    trace_of (new config tt) = [ENewKafka kafka; ENewConsumer consumer]
    ∧ Some (opt_brokers kafka) = Config.brokers config ∧ opt_brokers kafka ≠ []
    ∧ Some (opt_username kafka) = Config.username config ∧ opt_username kafka ≠ ""
    ∧ Some (opt_password kafka) = Config.password config ∧ opt_password kafka ≠ ""
    ∧ Some (opt_groupId consumer) = Config.groupId config ∧ opt_groupId consumer ≠ ""
    ∧ opt_clientId kafka ≠ "" ∧ opt_mechanism kafka ≠ ""
    ∧ (opt_ssl kafka = false ↔ Config.ssl config = Some false)
    ∧ Some (serviceName c) = Config.serviceName config ∧ serviceName c ≠ ""
    ∧ isConsumerRunning c = false
    ∧ getStats c = mkStats 0 0 None false.
Proof.
  unfold new.
  destruct config as [name brokers user pass group ssl mech cid st hb lg]. cbn.
  destruct name as [name|]; [|discriminate]. destruct name as [|n0 name]; [discriminate|].
  destruct brokers as [brokers|]; [|discriminate].
  destruct brokers as [|b0 brokers]; [discriminate|].
  destruct user as [user|]; [|discriminate]. destruct user as [|u0 user]; [discriminate|].
  destruct pass as [pass|]; [|discriminate]. destruct pass as [|p0 pass]; [discriminate|].
  destruct group as [group|]; [|discriminate].
  destruct group as [|g0 group]; [discriminate|].
  cbn. run_effects. intros [= <-]. eexists _, _. split; [reflexivity|]. cbn.
  repeat split; try done.
  - by destruct cid as [[|??]|].
  - by destruct mech as [[|??]|].
  - by destruct ssl as [[]|].
  - by destruct ssl as [[]|].
Qed.

Lemma consumer_bookkeeping_witness :
  result_of (new Samples.kafka_config tt) = Return Samples.fresh_consumer
  ∧ getStats
      (state_of
         (run [Connect (Return tt);
               Subscribe "orders" false (Return tt) (Return tt);
               Deliver Samples.healthy; Deliver Samples.poisoned;
               Disconnect (Throw (ErrorObj "timeout"))] Samples.fresh_consumer))
    = mkStats 1 1 (Some 1000%Z) true.
Proof.
  assert (Hnew : result_of (new Samples.kafka_config tt) = Return Samples.fresh_consumer)
    by reflexivity.
  split; [exact Hnew|].
  destruct (consumer_bookkeeping Samples.kafka_config Samples.fresh_consumer
              [Connect (Return tt);
               Subscribe "orders" false (Return tt) (Return tt);
               Deliver Samples.healthy; Deliver Samples.poisoned;
               Disconnect (Throw (ErrorObj "timeout"))] Hnew)
    as (_ & Hrun & Hagree & Hp & He & Hlast & _).
  rewrite Hrun in Hagree.
  destruct (getStats _) as [p e l r]. cbn in *. by subst.
Defined.

Lemma disconnect_needs_running_witness :
  Reading.client_disconnects
    (trace_of (run [Connect (Return tt); Disconnect (Return tt)]
                 Samples.fresh_consumer)) = 0%nat.
Proof.
  exact (proj2 disconnect_needs_running Samples.kafka_config Samples.fresh_consumer
           [Connect (Return tt); Disconnect (Return tt)] eq_refl eq_refl).
Defined.

Lemma constructed_consumer_is_complete_witness :
  result_of (new Samples.kafka_config tt) = Return Samples.fresh_consumer
  ∧ ∃ kafka consumer,
      trace_of (new Samples.kafka_config tt) = [ENewKafka kafka; ENewConsumer consumer]
      ∧ opt_ssl kafka = true.
Proof.
  assert (Hnew : result_of (new Samples.kafka_config tt) = Return Samples.fresh_consumer)
    by reflexivity.
  split; [exact Hnew|].
  destruct (constructed_consumer_is_complete _ _ Hnew)
    as (kafka & consumer & Ht & _ & _ & _ & _ & _ & _ & _ & _ & _ & _ & Hssl & _).
  exists kafka, consumer. split; [exact Ht|].
  destruct (opt_ssl kafka); [reflexivity|].
  pose proof (proj1 Hssl eq_refl) as Hoff. discriminate Hoff.
Defined.

End ConsumerLifecycle.

(** ** The life cycle of the Postgres client *)

Module PoolLifecycle.
Import PostgresClient Effects EffectFacts.

Lemma pg_query_unfold sql params answer c :
  query sql params answer c
  = match answer with
    | Return result =>
        ((c, [EPoolQuery sql params;
              ELog (mkLog (logger c) Debug "Executed query"
                      [component c; ("query", JS.str_take 100 sql)])]),
         Return (rows result))
    | Throw e =>
        ((c, [EPoolQuery sql params;
              ELog (mkLog (logger c) Error "Database query error"
                      [component c; ("error", error_message e);
                       ("query", JS.str_take 100 sql)])]), Throw e)
    end.
Proof. unfold query, log. run_effects. by destruct answer. Qed.

Lemma pg_healthCheck_unfold answer c :
  healthCheck answer c
  = match answer with
    | Return _ => ((c, [EPoolQuery "SELECT 1" None]), Return true)
    | Throw e =>
        ((c, [EPoolQuery "SELECT 1" None;
              ELog (mkLog (logger c) Error "Database health check failed"
                      [component c; ("error", error_message e)])]), Return false)
    end.
Proof. unfold healthCheck, log. run_effects. by destruct answer. Qed.

Lemma pg_connect_unfold config env answer c :
  connect config env answer c
  = match answer with
    | Return _ =>
        ((mkClient (serviceName c) (schemaName c) (logger c) true,
          [EPoolQuery "SELECT 1" None;
           ELog (mkLog (logger c) Info "PostgreSQL connection pool initialized"
                   [component c;
                    ("host", or_else (Config.host config)
                               (or_else (env !! "PGHOST") "localhost"));
                    ("database", or_else (Config.database config)
                                   (or_else (env !! "PGDATABASE") "railrepay"));
                    ("schema", schemaName c)])]), Return tt)
    | Throw e =>
        ((c, [EPoolQuery "SELECT 1" None;
              ELog (mkLog (logger c) Error "Failed to connect to PostgreSQL"
                      [component c; ("error", error_message e)])]), Throw e)
    end.
Proof. unfold connect, log, set_connected. run_effects. by destruct answer. Qed.

Lemma pg_disconnect_unfold ended c :
  disconnect ended c
  = match ended with
    | Return _ =>
        ((mkClient (serviceName c) (schemaName c) (logger c) false,
          [EPoolEnd;
           ELog (mkLog (logger c) Info "PostgreSQL connection pool closed"
                   [component c])]), Return tt)
    | Throw e => ((c, [EPoolEnd]), Throw e)
    end.
Proof. unfold disconnect, log, set_connected. run_effects. by destruct ended as [[]|e]. Qed.

Lemma pg_run_cons o ops c :
  run (o :: ops) c
  = ((state_of (run ops (state_of (step o c))),
      trace_of (step o c) ++ trace_of (run ops (state_of (step o c)))),
     result_of (run ops (state_of (step o c)))).
Proof.
  cbn [run]. change (mbind ?f ?m) with (bind m f). unfold bind at 1.
  rewrite attempt_spec.
  unfold state_of, trace_of, result_of.
  by destruct (run ops _) as [[c2 t2] [[]|e]].
Qed.

Lemma pg_step_connected o c :
  isConnected (state_of (step o c))
  = match o with
    | Connect _ _ (Return _) => true
    | Disconnect (Return _) => false
    | _ => isConnected c
    end.
Proof.
  destruct o as [config env answer|ended|sql params answer|sql params answer|answer];
    cbn [step].
  - rewrite pg_connect_unfold. by destruct answer.
  - rewrite pg_disconnect_unfold. by destruct ended as [[]|e].
  - change (mbind ?f ?m) with (bind m f). unfold bind. cbv beta.
    rewrite pg_query_unfold. by destruct answer.
  - unfold queryOne. run_effects. rewrite pg_query_unfold. by destruct answer.
  - change (mbind ?f ?m) with (bind m f). unfold bind. cbv beta.
    rewrite pg_healthCheck_unfold. by destruct answer.
Qed.

(** X17. [isConnected()] follows the link and nothing else.  After any
    sequence of calls, with any outcomes, it tells whether a [connect()]
    has gone through and no [disconnect()] has gone through since: a
    [connect()] or [disconnect()] that fails leaves it as it was, and so do
    queries and health checks, failing or not. *)
Theorem isConnected_follows_the_link ops c :
  result_of (run ops c) = Return tt
  ∧ isConnected (state_of (run ops c)) = Reading.pool_connected ops (isConnected c).
Proof.
  revert c. induction ops as [|o ops IH]; intros c; [done|].
  rewrite pg_run_cons, state_of_mk, result_of_mk.
  destruct (IH (state_of (step o c))) as [Hr Hc].
  split; [done|]. rewrite Hc. cbn. by rewrite pg_step_connected.
Qed.

Lemma str_take_length n s : (String.length (JS.str_take n s) ≤ n)%nat.
Proof.
  revert s. induction n as [|n IH]; intros [|c s]; cbn; try lia.
  specialize (IH s). lia.
Qed.

Lemma str_take_prefix n s : ∃ rest, s = JS.str_take n s +:+ rest.
Proof.
  revert s. induction n as [|n IH]; intros [|c s]; cbn [JS.str_take];
    try by eexists.
  destruct (IH s) as [rest Hr]. exists rest.
  rewrite StringFacts.append_cons. by rewrite <- Hr.
Qed.

(** X18. Errors of the pool reach the caller unchanged.  [connect()],
    [disconnect()] and [query()] reject exactly when the call on the pool
    rejects, and with its error; [connect()] logs once either way, while
    a [disconnect()] that fails logs nothing and leaves the instance as it
    was; a query never changes the instance. *)
Theorem pool_errors_propagate c :
  (∀ config env answer,
     result_of (connect config env answer c) = Reading.settled (λ _, tt) answer
     ∧ length (Reading.pool_logs (trace_of (connect config env answer c))) = 1%nat)
  ∧ (∀ ended,
       result_of (disconnect ended c) = ended
       ∧ (returned ended = false →
          state_of (disconnect ended c) = c
          ∧ Reading.pool_logs (trace_of (disconnect ended c)) = []))
  ∧ (∀ sql params answer,
       result_of (query sql params answer c) = Reading.settled rows answer
       ∧ state_of (query sql params answer c) = c
       ∧ state_of (queryOne sql params answer c) = c).
Proof.
  split; [|split].
  - intros config env answer. rewrite pg_connect_unfold. by destruct answer.
  - intros ended. rewrite pg_disconnect_unfold. by destruct ended as [[]|e].
  - intros sql params answer. unfold queryOne. run_effects.
    rewrite pg_query_unfold. by destruct answer as [result|e].
Qed.

(** X19. What a query writes to the log.  Every call of [query] makes
    one call on the pool, with the statement and the parameters as given,
    and one log call.  When the pool answered the entry is at debug level
    and its texts are the component and the first 100 characters, at most,
    of the statement.  When the pool failed the entry is at error level and
    its texts are the component, the message of the pool's error as it is
    ([Unknown error] when what was thrown is not an [Error]) and the same
    prefix of the statement.  [query] adds nothing of the parameters to the
    entry; what the pool wrote into its error message is logged unchanged. *)
Theorem query_log_is_bounded sql params answer c :
  let shown := JS.str_take 100 sql in
  trace_of (query sql params answer c)
  = [EPoolQuery sql params;
     ELog (match answer with
           | Return _ =>
               mkLog (logger c) Debug "Executed query"
                 [component c; ("query", shown)]
           | Throw e =>
               mkLog (logger c) Error "Database query error"
                 [component c; ("error", error_message e); ("query", shown)]
           end)]
  ∧ (String.length shown ≤ 100)%nat
  ∧ ∃ rest, sql = shown +:+ rest.
Proof.
  cbv zeta. rewrite pg_query_unfold.
  split; [by destruct answer|].
  split; [apply str_take_length|apply str_take_prefix].
Qed.

Lemma pool_errors_propagate_witness :
  state_of (disconnect (Throw (ErrorObj "ETIMEDOUT"))
              (mkClient "svc" "app" ConsoleLogger true))
  = mkClient "svc" "app" ConsoleLogger true.
Proof.
  exact (proj1 (proj2 (proj1 (proj2 (pool_errors_propagate
                                       (mkClient "svc" "app" ConsoleLogger true)))
                         (Throw (ErrorObj "ETIMEDOUT"))) eq_refl)).
Defined.

Lemma or_else_nonempty (a : option string) (b : string) : b ≠ "" → or_else a b ≠ "".
Proof.
  intros Hb. unfold or_else. destruct a as [[|x s]|]; cbn; done.
Qed.

(** X29. A client that was constructed is confined to its schema.  When
    the constructor returns, it has created one pool, whose session option
    sets the search path to the schema of the configuration, which is not
    empty, followed by [public]; host, database, user and password of the
    pool are never empty, a port of the configuration other than zero is
    the port of the pool, and the instance is not connected yet. *)
Theorem constructed_client_is_isolated config env c :
  result_of (new config env tt) = Return c →
  ∃ pool,
    trace_of (new config env tt) = [ENewPool pool]
    ∧ Some (schemaName c) = Config.schemaName config ∧ schemaName c ≠ ""
    ∧ pool_options pool = "-c search_path=" +:+ schemaName c +:+ ",public"
    ∧ pool_host pool ≠ "" ∧ pool_database pool ≠ ""
    ∧ pool_user pool ≠ "" ∧ pool_password pool ≠ ""
    ∧ (∀ port, Config.port config = Some port → port ≠ 0%Z → pool_port pool = Some port)
    ∧ Some (serviceName c) = Config.serviceName config ∧ serviceName c ≠ ""
    ∧ isConnected c = false.
Proof.
  unfold new.
  destruct (Config.serviceName config) as [[|n0 name]|] eqn:Hname; [done| |done].
  destruct (Config.schemaName config) as [[|s0 schema]|] eqn:Hschema; [done| |done].
  cbn [truthy truthy_option truthy_string JS.truthy_str negb].
  run_effects. intros [= <-]. eexists. split; [reflexivity|].
  cbn [schemaName serviceName poolConfig pool_options pool_host pool_database
       pool_user pool_password pool_port default isConnected connected].
  repeat split; try done; try (apply or_else_nonempty; by apply or_else_nonempty).
  intros port Hport Hnz. unfold resolve_port. rewrite Hport.
  unfold truthy, truthy_option, truthy, truthy_Z.
  apply Z.eqb_neq in Hnz. by rewrite Hnz.
Qed.

Lemma constructed_client_is_isolated_witness :
  result_of (new Samples.postgres_config Samples.postgres_env tt)
  = Return (mkClient "svc" "app" ConsoleLogger false)
  ∧ ∃ pool,
      trace_of (new Samples.postgres_config Samples.postgres_env tt) = [ENewPool pool]
      ∧ pool_options pool = "-c search_path=app,public".
Proof.
  assert (Hnew : result_of (new Samples.postgres_config Samples.postgres_env tt)
                 = Return (mkClient "svc" "app" ConsoleLogger false)) by reflexivity.
  split; [exact Hnew|].
  destruct (constructed_client_is_isolated _ _ _ Hnew) as (pool & Ht & _ & _ & Ho & _).
  exists pool. split; [exact Ht|exact Ho].
Defined.

End PoolLifecycle.

(** ** The Redis cache *)

Module CacheFacts.
Import Effects EffectFacts.
Import RedisCache.

Section Values.
Context {T : Type}.
Variable stringify : T → completion (option string).
Variable parse : string → completion (option T).

Lemma cache_get_unfold key answer s :
  get parse key answer s
  = let c := this s in
    match client s with
    | Some h =>
        if connected c then
          let failed e :=
            ELog (mkLog (logger c) Error "Redis GET error"
                    [component c; ("error", error_message e); ("key", key)]) in
          match answer with
          | Return None => ((s, [EGet h (getKey c key)]), Return None)
          | Return (Some text) =>
              match parse text with
              | Return v => ((s, [EGet h (getKey c key)]), Return v)
              | Throw e => ((s, [EGet h (getKey c key); failed e]), Return None)
              end
          | Throw e => ((s, [EGet h (getKey c key); failed e]), Return None)
          end
        else ((s, []), Return None)
    | None => ((s, []), Return None)
    end.
Proof.
  unfold get, log. run_effects.
  destruct (client s) as [h|]; [|done].
  destruct (connected (this s)); [|done].
  destruct answer as [[text|]|e]; [|done|done].
  by destruct (parse text).
Qed.

Lemma cache_set_unfold key value ttl stored s :
  set stringify key value ttl stored s
  = let c := this s in
    match client s with
    | Some h =>
        if connected c then
          let failed e :=
            ELog (mkLog (logger c) Error "Redis SET error"
                    [component c; ("error", error_message e); ("key", key)]) in
          match stringify value with
          | Return serialized =>
              let call := ESetEx h (getKey c key) (nullish ttl (defaultTTL c)) serialized in
              match stored with
              | Return _ =>
                  ((s, [call; ELog (mkLog (logger c) Debug "Cached value"
                                      [component c; ("key", key)])]), Return tt)
              | Throw e => ((s, [call; failed e]), Return tt)
              end
          | Throw e => ((s, [failed e]), Return tt)
          end
        else ((s, []), Return tt)
    | None => ((s, []), Return tt)
    end.
Proof.
  unfold set, log. run_effects.
  destruct (client s) as [h|]; [|done].
  destruct (connected (this s)); [|done].
  destruct (stringify value) as [serialized|e]; [|done].
  by destruct stored as [[]|e].
Qed.

Lemma cache_delete_unfold key deleted s :
  delete key deleted s
  = let c := this s in
    match client s with
    | Some h =>
        if connected c then
          match deleted with
          | Return _ =>
              ((s, [EDel h (getKey c key);
                    ELog (mkLog (logger c) Debug "Deleted cache key"
                            [component c; ("key", key)])]), Return tt)
          | Throw e =>
              ((s, [EDel h (getKey c key);
                    ELog (mkLog (logger c) Error "Redis DEL error"
                            [component c; ("error", error_message e); ("key", key)])]),
               Return tt)
          end
        else ((s, []), Return tt)
    | None => ((s, []), Return tt)
    end.
Proof.
  unfold delete, log. run_effects.
  destruct (client s) as [h|]; [|done].
  destruct (connected (this s)); [|done].
  by destruct deleted.
Qed.

Lemma cache_exists_unfold key answer s :
  exists_ key answer s
  = let c := this s in
    match client s with
    | Some h =>
        if connected c then
          match answer with
          | Return result => ((s, [EExists h (getKey c key)]), Return (Z.eqb result 1))
          | Throw e =>
              ((s, [EExists h (getKey c key);
                    ELog (mkLog (logger c) Error "Redis EXISTS error"
                            [component c; ("error", error_message e); ("key", key)])]),
               Return false)
          end
        else ((s, []), Return false)
    | None => ((s, []), Return false)
    end.
Proof.
  unfold exists_, log. run_effects.
  destruct (client s) as [h|]; [|done].
  destruct (connected (this s)); [|done].
  by destruct answer.
Qed.

Lemma cache_healthCheck_unfold pinged s :
  healthCheck pinged s
  = let c := this s in
    match client s with
    | Some h =>
        if connected c then
          match pinged with
          | Return _ => ((s, [EPing h]), Return true)
          | Throw e =>
              ((s, [EPing h;
                    ELog (mkLog (logger c) Error "Redis health check failed"
                            [component c; ("error", error_message e)])]),
               Return false)
          end
        else ((s, []), Return false)
    | None => ((s, []), Return false)
    end.
Proof.
  unfold healthCheck, log. run_effects.
  destruct (client s) as [h|]; [|done].
  destruct (connected (this s)); [|done].
  by destruct pinged.
Qed.

Lemma cache_disconnect_unfold closed s :
  disconnect closed s
  = let c := this s in
    match client s with
    | Some h =>
        match closed with
        | Return _ =>
            ((state_of (set_connected false s),
              [EQuit h;
               ELog (mkLog (logger c) Info "Redis cache disconnected" [component c])]),
             Return tt)
        | Throw e =>
            ((s, [EQuit h;
                  ELog (mkLog (logger c) Error "Error disconnecting from Redis"
                          [component c; ("error", error_message e)])]), Return tt)
        end
    | None => ((s, []), Return tt)
    end.
Proof.
  unfold disconnect, log, set_connected. run_effects.
  destruct (client s) as [h|] eqn:Hc; [|done].
  destruct closed as [[]|e]; cbn; by rewrite ?Hc.
Qed.

Lemma cache_connect_unfold created opened s :
  connect created opened s
  = let c := this s in
    let failed e :=
      ELog (mkLog (logger c) Error "Failed to connect to Redis"
              [component c; ("error", error_message e)]) in
    let down :=
      mkCache (serviceName c) (redisUrl c) (defaultTTL c) (keyPrefix c) (logger c) false in
    let up :=
      mkCache (serviceName c) (redisUrl c) (defaultTTL c) (keyPrefix c) (logger c) true in
    match created with
    | Throw e => ((mkSys down None (clients s), [ECreateClient (redisUrl c); failed e]), Throw e)
    | Return _ =>
        match opened with
        | Throw e =>
            ((mkSys down None (S (clients s)),
              [ECreateClient (redisUrl c); EClientConnect (clients s); failed e]), Throw e)
        | Return _ =>
            ((mkSys up (Some (clients s)) (S (clients s)),
              [ECreateClient (redisUrl c); EClientConnect (clients s);
               ELog (mkLog (logger c) Info "Redis cache connected"
                       [component c; ("keyPrefix", keyPrefix c)])]), Return tt)
        end
    end.
Proof.
  unfold connect, createClient, log, set_connected, set_client. run_effects.
  destruct created as [[]|e]; [|done].
  by destruct opened as [[]|e].
Qed.

(** X20. A cache that is down is silent.  Without a client, or with
    the flag cleared, [get] answers [null], [exists] and [healthCheck]
    answer [false], [set] and [delete] return, and none of the five sends a
    command, writes to the log or changes the instance. *)
Theorem degraded_cache_is_silent s :
  client s = None ∨ isConnected s = false →
  (∀ key answer, get parse key answer s = ((s, []), Return None))
  ∧ (∀ key value ttl stored, set stringify key value ttl stored s = ((s, []), Return tt))
  ∧ (∀ key deleted, delete key deleted s = ((s, []), Return tt))
  ∧ (∀ key answer, exists_ key answer s = ((s, []), Return false))
  ∧ (∀ pinged, healthCheck pinged s = ((s, []), Return false)).
Proof.
  unfold isConnected. intros Hdown.
  split; [|split; [|split; [|split]]]; intros.
  - rewrite cache_get_unfold. cbv zeta.
    destruct Hdown as [-> | ->]; [done|]. by destruct (client s).
  - rewrite cache_set_unfold. cbv zeta.
    destruct Hdown as [-> | ->]; [done|]. by destruct (client s).
  - rewrite cache_delete_unfold. cbv zeta.
    destruct Hdown as [-> | ->]; [done|]. by destruct (client s).
  - rewrite cache_exists_unfold. cbv zeta.
    destruct Hdown as [-> | ->]; [done|]. by destruct (client s).
  - rewrite cache_healthCheck_unfold. cbv zeta.
    destruct Hdown as [-> | ->]; [done|]. by destruct (client s).
Qed.

(** X21. Reading and writing never reject and never change the
    instance: whatever the client, the serializer and the parser do, [get],
    [set], [delete], [exists] and [healthCheck] return normally and leave
    the flag and the client as they were.  [disconnect] never rejects
    either; it keeps the client and clears the flag exactly when there is a
    client and its [quit] went through. *)
Theorem cache_calls_never_throw s :
  (∀ key answer,
     state_of (get parse key answer s) = s
     ∧ ∃ v, result_of (get parse key answer s) = Return v)
  ∧ (∀ key value ttl stored,
       state_of (set stringify key value ttl stored s) = s
       ∧ result_of (set stringify key value ttl stored s) = Return tt)
  ∧ (∀ key deleted,
       state_of (delete key deleted s) = s
       ∧ result_of (delete key deleted s) = Return tt)
  ∧ (∀ key answer,
       state_of (exists_ key answer s) = s
       ∧ ∃ b, result_of (exists_ key answer s) = Return b)
  ∧ (∀ pinged,
       state_of (healthCheck pinged s) = s
       ∧ ∃ b, result_of (healthCheck pinged s) = Return b)
  ∧ (∀ closed,
       result_of (disconnect closed s) = Return tt
       ∧ client (state_of (disconnect closed s)) = client s
       ∧ isConnected (state_of (disconnect closed s))
         = match client s, closed with
           | Some _, Return _ => false
           | _, _ => isConnected s
           end).
Proof.
  split; [|split; [|split; [|split; [|split]]]]; intros.
  - rewrite cache_get_unfold. cbv zeta.
    destruct (client s); [|by eauto]. destruct (connected (this s)); [|by eauto].
    destruct answer as [[text|]|e]; [|by eauto|by eauto].
    destruct (parse text); by eauto.
  - rewrite cache_set_unfold. cbv zeta.
    destruct (client s); [|done]. destruct (connected (this s)); [|done].
    destruct (stringify value); [|done]. by destruct stored.
  - rewrite cache_delete_unfold. cbv zeta.
    destruct (client s); [|done]. destruct (connected (this s)); [|done].
    by destruct deleted.
  - rewrite cache_exists_unfold. cbv zeta.
    destruct (client s); [|by eauto]. destruct (connected (this s)); [|by eauto].
    destruct answer; by eauto.
  - rewrite cache_healthCheck_unfold. cbv zeta.
    destruct (client s); [|by eauto]. destruct (connected (this s)); [|by eauto].
    destruct pinged; by eauto.
  - rewrite cache_disconnect_unfold. cbv zeta.
    destruct (client s) eqn:Hc; [|done]. by destruct closed.
Qed.

(** X22. [connect()] is the one call that rejects.  When creating the
    client and connecting it both go through, it returns with the flag set
    and a client that did not exist before; when either fails it rejects
    with the error of the failure, after one error log, with the flag
    cleared and no client left. *)
Theorem connect_outcome created opened s :
  let r := connect created opened s in
  let failure :=
    match created, opened with
    | Throw e, _ => Some e
    | Return _, Throw e => Some e
    | Return _, Return _ => None
    end in
  match failure with
  | None =>
      result_of r = Return tt
      ∧ isConnected (state_of r) = true
      ∧ client (state_of r) = Some (clients s)
      ∧ clients (state_of r) = S (clients s)
  | Some e =>
      result_of r = Throw e
      ∧ isConnected (state_of r) = false
      ∧ client (state_of r) = None
      ∧ Reading.cache_logs (trace_of r) = [(Error, "Failed to connect to Redis")]
  end.
Proof.
  cbv zeta. rewrite cache_connect_unfold. cbv zeta.
  destruct created as [[]|e]; [|done]. by destruct opened as [[]|e].
Qed.

Lemma append_injective (p a b : string) : p +:+ a = p +:+ b → a = b.
Proof.
  induction p as [|c p IH]; [done|].
  rewrite !StringFacts.append_cons. intros [= H]. by apply IH.
Qed.

(** X23. Every key is prefixed, and no two keys meet.  On a connected
    cache each of [get], [set], [delete] and [exists] sends one command to
    the client, under the key prefix followed by the key; [set] sends the
    serialized value with the time to live of the call, or the default one
    when the call names none, and sends nothing when serializing throws.
    Two different keys never address the same entry. *)
Theorem cache_keys_are_prefixed s h :
  client s = Some h →
  isConnected s = true →
  let c := this s in
  (∀ key answer,
     Reading.commands (trace_of (get parse key answer s))
     = [EGet h (keyPrefix c +:+ key)])
  ∧ (∀ key value ttl stored,
       Reading.commands (trace_of (set stringify key value ttl stored s))
       = match stringify value with
         | Return serialized =>
             [ESetEx h (keyPrefix c +:+ key) (default (defaultTTL c) ttl) serialized]
         | Throw _ => []
         end)
  ∧ (∀ key deleted,
       Reading.commands (trace_of (delete key deleted s))
       = [EDel h (keyPrefix c +:+ key)])
  ∧ (∀ key answer,
       Reading.commands (trace_of (exists_ key answer s))
       = [EExists h (keyPrefix c +:+ key)])
  ∧ (∀ key1 key2, getKey c key1 = getKey c key2 → key1 = key2).
Proof.
  unfold isConnected. intros Hc Hup. cbv zeta.
  split; [|split; [|split; [|split]]]; intros.
  - rewrite cache_get_unfold. cbv zeta. rewrite Hc, Hup.
    destruct answer as [[text|]|e]; [|done|done]. by destruct (parse text).
  - rewrite cache_set_unfold. cbv zeta. rewrite Hc, Hup.
    destruct (stringify value); [|done]. by destruct stored.
  - rewrite cache_delete_unfold. cbv zeta. rewrite Hc, Hup. by destruct deleted.
  - rewrite cache_exists_unfold. cbv zeta. rewrite Hc, Hup. by destruct answer.
  - by eapply append_injective.
Qed.

(** X24. What [get] reads back on a connected cache: the parsed value
    when the client has a text under the key and the text parses, [null]
    when the client has nothing; and [null] again, after one error log,
    when the client fails or the text does not parse, so that a corrupt
    entry reads as a miss. *)
Theorem get_reads_back s h key answer :
  client s = Some h →
  isConnected s = true →
  let outcome :=
    match answer with
    | Return (Some text) => parse text
    | Return None => Return None
    | Throw e => Throw e
    end in
  result_of (get parse key answer s)
  = match outcome with Return v => Return v | Throw _ => Return None end
  ∧ Reading.cache_logs (trace_of (get parse key answer s))
    = match outcome with Return _ => [] | Throw _ => [(Error, "Redis GET error")] end.
Proof.
  unfold isConnected. intros Hc Hup. cbv zeta.
  rewrite cache_get_unfold. cbv zeta. rewrite Hc, Hup.
  destruct answer as [[text|]|e]; [|done|done]. by destruct (parse text).
Qed.

Lemma cache_run_cons o ops s :
  run stringify parse (o :: ops) s
  = ((state_of (run stringify parse ops (state_of (step stringify parse o s))),
      trace_of (step stringify parse o s)
      ++ trace_of (run stringify parse ops (state_of (step stringify parse o s)))),
     result_of (run stringify parse ops (state_of (step stringify parse o s)))).
Proof.
  cbn [run]. change (mbind ?f ?m) with (bind m f). unfold bind at 1.
  rewrite attempt_spec.
  unfold state_of, trace_of, result_of.
  by destruct (run _ _ ops _) as [[c2 t2] [[]|e]].
Qed.

(** One step on a cache: what it does to the flag, the client and the
    count of clients, and which commands it sends. *)
Lemma cache_step_spec o s :
  let s1 := state_of (step stringify parse o s) in
  (Reading.is_connect o = false →
   (isConnected s = false →
    isConnected s1 = false
    ∧ Reading.only_quits (trace_of (step stringify parse o s)) = true))
  ∧ ((isConnected s = true → ∃ h, client s = Some h ∧ (h < clients s)%nat) →
     (isConnected s1 = true → ∃ h, client s1 = Some h ∧ (h < clients s1)%nat))
  ∧ serviceName (this s1) = serviceName (this s)
  ∧ redisUrl (this s1) = redisUrl (this s)
  ∧ defaultTTL (this s1) = defaultTTL (this s)
  ∧ keyPrefix (this s1) = keyPrefix (this s)
  ∧ logger (this s1) = logger (this s).
Proof.
  cbv zeta. unfold isConnected.
  destruct o as [created opened|closed|key answer|key value ttl stored|key deleted
                 |key answer|pinged|message| |]; cbn [step Reading.is_connect].
  - rewrite cache_connect_unfold. cbv zeta.
    destruct created as [[]|e]; [destruct opened as [[]|e]|]; cbn;
      (split; [done|]); (split; [|done]); intros _ Hup; try done.
    exists (clients s). split; [done|lia].
  - rewrite cache_disconnect_unfold. cbv zeta.
    destruct (client s) as [h|] eqn:Hc; [destruct closed as [[]|e]|]; close_step.
  - run_effects. rewrite cache_get_unfold. cbv zeta.
    destruct (client s) as [h|] eqn:Hc; [|close_step].
    destruct (connected (this s)) eqn:Hup; [|close_step].
    destruct answer as [[text|]|e]; [destruct (parse text)| |]; close_step.
  - rewrite cache_set_unfold. cbv zeta.
    destruct (client s) as [h|] eqn:Hc; [|close_step].
    destruct (connected (this s)) eqn:Hup; [|close_step].
    destruct (stringify value); [destruct stored|]; close_step.
  - rewrite cache_delete_unfold. cbv zeta.
    destruct (client s) as [h|] eqn:Hc; [|close_step].
    destruct (connected (this s)) eqn:Hup; [|close_step].
    destruct deleted; close_step.
  - run_effects. rewrite cache_exists_unfold. cbv zeta.
    destruct (client s) as [h|] eqn:Hc; [|close_step].
    destruct (connected (this s)) eqn:Hup; [|close_step].
    destruct answer; close_step.
  - run_effects. rewrite cache_healthCheck_unfold. cbv zeta.
    destruct (client s) as [h|] eqn:Hc; [|close_step].
    destruct (connected (this s)) eqn:Hup; [|close_step].
    destruct pinged; close_step.
  - unfold on_error, log, set_connected. run_effects. close_step.
  - unfold on_connect, log. run_effects. close_step.
  - unfold on_disconnect, log, set_connected. run_effects. close_step.
Qed.

Lemma only_quits_app a b :
  Reading.only_quits (a ++ b) = Reading.only_quits a && Reading.only_quits b.
Proof.
  unfold Reading.only_quits, Reading.commands.
  by rewrite List.filter_app, forallb_app.
Qed.

Lemma degraded_run ops : ∀ s,
  isConnected s = false →
  Reading.without_connect ops = true →
  isConnected (state_of (run stringify parse ops s)) = false
  ∧ Reading.only_quits (trace_of (run stringify parse ops s)) = true.
Proof.
  induction ops as [|o ops IH]; intros s Hdown Hops; [done|].
  cbn [Reading.without_connect forallb] in Hops.
  apply andb_true_iff in Hops as [Ho Hops]. apply negb_true_iff in Ho.
  rewrite cache_run_cons, state_of_mk, trace_of_mk, only_quits_app.
  destruct (cache_step_spec o s) as (Hstep & _).
  destruct (Hstep Ho Hdown) as [Hdown1 Hq1].
  destruct (IH _ Hdown1 Hops) as [Hdown2 Hq2].
  by rewrite Hq1, Hq2.
Qed.

(** X25. After an error event the cache stays down until [connect()] is
    called again.  The handler of the client's [error] event clears the
    flag, and no sequence of calls and events without a [connect()] sets
    it again: all that time nothing but [quit] is sent to the client. *)
Theorem error_event_degrades_until_connect s message ops :
  Reading.without_connect ops = true →
  let s1 := state_of (on_error message s) in
  isConnected s1 = false
  ∧ isConnected (state_of (run stringify parse ops s1)) = false
  ∧ Reading.only_quits (trace_of (run stringify parse ops s1)) = true.
Proof.
  intros Hops. cbv zeta.
  assert (Hdown : isConnected (state_of (on_error message s)) = false) by reflexivity.
  split; [done|]. by apply degraded_run.
Qed.

Lemma cache_run_spec ops : ∀ s,
  let s1 := state_of (run stringify parse ops s) in
  result_of (run stringify parse ops s) = Return tt
  ∧ ((isConnected s = true → ∃ h, client s = Some h ∧ (h < clients s)%nat) →
     (isConnected s1 = true → ∃ h, client s1 = Some h ∧ (h < clients s1)%nat))
  ∧ serviceName (this s1) = serviceName (this s)
  ∧ redisUrl (this s1) = redisUrl (this s)
  ∧ defaultTTL (this s1) = defaultTTL (this s)
  ∧ keyPrefix (this s1) = keyPrefix (this s)
  ∧ logger (this s1) = logger (this s).
Proof.
  induction ops as [|o ops IH]; intros s; [done|].
  cbv zeta. rewrite cache_run_cons, state_of_mk, result_of_mk.
  destruct (cache_step_spec o s) as (_ & Hinv & H1 & H2 & H3 & H4 & H5).
  destruct (IH (state_of (step stringify parse o s)))
    as (Hr & Hinv' & H1' & H2' & H3' & H4' & H5').
  cbv zeta in *. split; [done|]. split; [auto|].
  by rewrite H1', H2', H3', H4', H5'.
Qed.

(** X26. A cache that says it is connected has a client.  For a cache
    as the constructor leaves it and any sequence of calls made one after
    the other and of client events, with any outcomes: no call of the
    sequence stops the next ones, [isConnected()] is true only when the
    instance holds a client that [createClient] has returned, and the
    service name, URL, default time to live and key prefix stay those the
    constructor resolved. *)
Theorem connected_cache_has_client config env c ops :
  new config env = Return c →
  let s := state_of (run stringify parse ops (boot c)) in
  result_of (run stringify parse ops (boot c)) = Return tt
  ∧ (isConnected s = true → ∃ h, client s = Some h ∧ (h < clients s)%nat)
  ∧ serviceName (this s) = serviceName c
  ∧ redisUrl (this s) = redisUrl c
  ∧ defaultTTL (this s) = defaultTTL c
  ∧ keyPrefix (this s) = keyPrefix c.
Proof.
  intros Hnew. cbv zeta.
  assert (Hdown : connected c = false).
  { revert Hnew. unfold new. destruct (Config.serviceName config) as [name|]; [|done].
    destruct (truthy name); [|done]. by intros [= <-]. }
  destruct (cache_run_spec ops (boot c)) as (Hr & Hinv & H1 & H2 & H3 & H4 & _).
  cbv zeta in *. split; [done|]. split.
  { apply Hinv. unfold isConnected. cbn. by rewrite Hdown. }
  done.
Qed.

End Values.

Lemma degraded_cache_is_silent_witness :
  client (boot Samples.cache) = None
  ∧ get Samples.parse_bool "flag" (Return (Some "true")) (boot Samples.cache)
    = ((boot Samples.cache, []), Return None).
Proof.
  split; [reflexivity|].
  exact (proj1 (degraded_cache_is_silent Samples.stringify_bool Samples.parse_bool
                  (boot Samples.cache) (or_introl eq_refl))
           "flag" (Return (Some "true"))).
Defined.

Lemma cache_keys_are_prefixed_witness :
  Reading.commands
    (trace_of (set Samples.stringify_bool "flag" true None (Return tt)
                 Samples.connected_cache))
  = [ESetEx 0 "rr:flag" 3600 (Some "true")].
Proof.
  exact (proj1 (proj2 (cache_keys_are_prefixed Samples.stringify_bool
                         Samples.parse_bool Samples.connected_cache 0 eq_refl eq_refl))
           "flag" true None (Return tt)).
Defined.

Lemma get_reads_back_witness :
  result_of (get Samples.parse_bool "flag" (Return (Some "tru")) Samples.connected_cache)
  = Return None.
Proof.
  exact (proj1 (get_reads_back Samples.parse_bool Samples.connected_cache 0 "flag"
                  (Return (Some "tru")) eq_refl eq_refl)).
Defined.

Lemma error_event_degrades_until_connect_witness :
  isConnected
    (state_of
       (run Samples.stringify_bool Samples.parse_bool
          [Get "flag" (Return (Some "true")); OnConnect]
          (state_of (on_error "ECONNRESET" Samples.connected_cache))))
  = false.
Proof.
  exact (proj1 (proj2 (error_event_degrades_until_connect Samples.stringify_bool
                         Samples.parse_bool Samples.connected_cache "ECONNRESET"
                         [Get "flag" (Return (Some "true")); OnConnect] eq_refl))).
Defined.

Lemma connected_cache_has_client_witness :
  new Samples.cache_config ∅ = Return Samples.cache
  ∧ result_of
      (run Samples.stringify_bool Samples.parse_bool
         [Connect (Return tt) (Return tt); Set_ "flag" true None (Return tt)]
         (boot Samples.cache))
    = Return tt.
Proof.
  assert (Hnew : new Samples.cache_config ∅ = Return Samples.cache) by reflexivity.
  split; [exact Hnew|].
  exact (proj1 (connected_cache_has_client Samples.stringify_bool Samples.parse_bool
                  Samples.cache_config ∅ Samples.cache
                  [Connect (Return tt) (Return tt); Set_ "flag" true None (Return tt)]
                  Hnew)).
Defined.

End CacheFacts.

(** ** The transports of the logger *)

Module LoggerFacts.
Import Effects WinstonLogger.

(** X27. A logger always has its console.  For a configuration with a
    service name, [createLogger] returns whatever the environment holds
    and whatever the constructor of the Loki transport does; the console
    transport comes first, at the level of the logger, and the Loki
    transport follows exactly when Loki is enabled, [NODE_ENV] is not
    [test] and the constructor returned.  The constructor is not called
    when Loki is off or under test, and when it throws one warning goes to
    the console and the logger is created all the same. *)
Theorem logger_always_has_console config env loki name :
  Config.serviceName config = Some name →
  name ≠ "" →
  let wanted :=
    resolve_lokiEnabled config env
    && negb (bool_decide (env !! "NODE_ENV" = Some "test")) in
  let options :=
    mkLoki (resolve_lokiHost config env) (resolve_lokiBasicAuth config env) name
      (resolve_environment config env) in
  ∃ logger,
    result_of (createLogger config env loki tt) = Return logger
    ∧ transports logger
      = Console (resolve_level config env)
        :: (if wanted && returned loki then [Loki options] else [])
    ∧ level logger = resolve_level config env
    ∧ app logger = name
    ∧ trace_of (createLogger config env loki tt)
      = (if wanted then
           ENewLokiTransport options
           :: (if returned loki then []
               else [EConsoleWarn ("[" +:+ name +:+
                       "] Failed to initialize Loki transport, using console only")])
         else [])
        ++ [ECreateLogger logger].
Proof.
  intros Hname Hne. cbv zeta. unfold createLogger. rewrite Hname.
  destruct name as [|c name]; [done|]. cbn [truthy truthy_string JS.truthy_str].
  destruct (resolve_lokiEnabled config env
            && negb (bool_decide (env !! "NODE_ENV" = Some "test"))).
  - run_effects. destruct loki as [[]|e]; eexists; done.
  - run_effects. eexists. done.
Qed.

Lemma logger_always_has_console_witness :
  ∃ logger,
    result_of (createLogger Samples.logger_config ∅ (Throw (ErrorObj "bad host")) tt)
    = Return logger
    ∧ transports logger = [Console "info"].
Proof.
  destruct (logger_always_has_console Samples.logger_config ∅
              (Throw (ErrorObj "bad host")) "svc" eq_refl ltac:(discriminate))
    as (logger & Hr & Ht & _).
  exists logger. split; [exact Hr|exact Ht].
Defined.

End LoggerFacts.

(** ** The pattern of the paths to ignore *)

Module IgnorePathFacts.
Import Effects OpenAPIValidator PatternSyntax.

Lemma literals_escape path rest alt alts :
  literals rest = Some (alt :: alts) →
  literals (escape path +:+ rest) = Some ((path +:+ alt) :: alts).
Proof.
  intros Hrest. induction path as [|c path IH]; [done|].
  cbn [escape]. destruct (is_special c) eqn:Hc.
  - rewrite !StringFacts.append_cons. cbn [literals]. by rewrite Hc, IH.
  - rewrite !StringFacts.append_cons.
    assert (Hbar : Ascii.eqb c "|" = false).
    { destruct (Ascii.eqb c "|") eqn:Hb; [|done].
      apply Ascii.eqb_eq in Hb as ->. done. }
    assert (Hbs : c ≠ "\"%char) by (intros ->; done).
    cbn [literals].
    destruct c as [[] [] [] [] [] [] [] []];
      try (exfalso; apply Hbs; reflexivity);
      cbn [literals]; rewrite ?Hbar, ?Hc, IH; try done.
Qed.

Lemma append_empty_r (a : string) : a +:+ "" = a.
Proof. induction a as [|x a IH]; [done|]. by rewrite StringFacts.append_cons, IH. Qed.

Lemma literals_join paths :
  paths ≠ [] → literals (join_bar (map escape paths)) = Some paths.
Proof.
  induction paths as [|p ps IH]; [done|]. intros _.
  destruct ps as [|q ps].
  - cbn [map join_bar]. rewrite <- (append_empty_r (escape p)).
    rewrite (literals_escape p "" "" []) by done. by rewrite append_empty_r.
  - change (join_bar (map escape (p :: q :: ps)))
      with (escape p +:+ "|" +:+ join_bar (map escape (q :: ps))).
    rewrite (literals_escape p _ "" (q :: ps)); [by rewrite append_empty_r|].
    change ("|" +:+ ?r) with (String "|" r). cbn [literals].
    change (Ascii.eqb "|" "|") with true. cbv iota.
    by rewrite IH.
Qed.

(** X28. The paths to ignore mean what they say.  When the
    configuration names a non-empty list of paths as strings, the options
    handed to the validator carry the pattern [^(...)] whose inside reads
    back, under the pattern syntax, as the alternation of exactly those
    texts, in order: no character of a path acts as an operator of the
    pattern.  Without paths, or with an empty list, no pattern is set. *)
Theorem ignore_pattern_reads_back config env options :
  result_of (createOpenAPIMiddleware config env tt) = Return options →
  (∀ paths,
     paths ≠ [] →
     Config.ignorePaths config = Some (map PathString paths) →
     ∃ alternation,
       opt_ignorePaths options = Some ("^(" +:+ alternation +:+ ")")
       ∧ literals alternation = Some paths)
  ∧ (Config.ignorePaths config = None ∨ Config.ignorePaths config = Some [] →
     opt_ignorePaths options = None).
Proof.
  unfold createOpenAPIMiddleware.
  destruct (Config.schemaPath config) as [schemaPath|]; [|done].
  destruct (truthy schemaPath); [|done].
  run_effects. intros [= <-]. cbn [opt_ignorePaths]. split.
  - intros paths Hne ->. exists (join_bar (map escape paths)).
    destruct paths as [|p ps]; [done|]. cbn [or_else truthy truthy_list length Nat.ltb Nat.leb map].
    split.
    + rewrite List.map_map. reflexivity.
    + by apply (literals_join (p :: ps)).
  - by intros [-> | ->].
Qed.

Lemma ignore_pattern_reads_back_witness :
  ∃ alternation,
    Some "^(/health|/metrics\(v2\))" = Some ("^(" +:+ alternation +:+ ")")
    ∧ literals alternation = Some ["/health"; "/metrics(v2)"].
Proof.
  exact (proj1 (ignore_pattern_reads_back Samples.openapi_config ∅
                  (mkOptions "./openapi.yaml" true false
                     (Some "^(/health|/metrics\(v2\))")) eq_refl)
           ["/health"; "/metrics(v2)"] ltac:(discriminate) eq_refl).
Defined.

End IgnorePathFacts.
